(** * WebCAN: the trace decoder of [app.py]

    A shallow embedding of [decode_can] and [decode_and_plot]:
    the header read, the choice of the line pattern, the three regular
    expressions with the matcher that runs them, the table of columns that
    the decode loop fills, and the column pruning of the data frame.

    Text is a list of characters; a character is a code point below 256
    (the classes [\s], [\d] and [\w] are Python's classes for [str]
    patterns, restricted to that range).  A float is the rational number
    that its 64 bits stand for, and [float] rounds a decimal numeral to the
    nearest of these.  The signal database and its [decode] belong to the
    cantools library and enter as an interface. *)

From Stdlib Require Import ZArith QArith Qabs Qround Qpower Lqa Lia.
From Stdlib Require Import Ascii String.
From stdpp Require Import base tactics option list strings.

Local Open Scope nat_scope.

(** ** Text *)

Definition str := list ascii.

Definition chars (s : string) : str := list_ascii_of_string s.

Definition code (c : ascii) : N := N_of_ascii c.

Definition in_range (lo hi : N) (c : ascii) : bool :=
  ((lo <=? code c) && (code c <=? hi))%N.

(** [str.isspace] on one character, which is also [\s]. *)
Definition is_space (c : ascii) : bool :=
  in_range 9 13 c || in_range 28 31 c || in_range 32 32 c
  || in_range 133 133 c || in_range 160 160 c.

(** [\d]: the decimal digits. *)
Definition is_digit (c : ascii) : bool := in_range 48 57 c.

(** [[0-9A-Fa-f]]. *)
Definition is_hex (c : ascii) : bool :=
  in_range 48 57 c || in_range 65 70 c || in_range 97 102 c.

(** [[0-9A-Fa-f\s]]. *)
Definition is_hexws (c : ascii) : bool := is_hex c || is_space c.

(** [\w]: what [str.isalnum] accepts, and the underscore. *)
Definition is_word (c : ascii) : bool :=
  in_range 48 57 c || in_range 65 90 c || in_range 97 122 c
  || in_range 95 95 c
  || in_range 170 170 c || in_range 178 179 c || in_range 181 181 c
  || in_range 185 186 c || in_range 188 190 c
  || in_range 192 214 c || in_range 216 246 c || in_range 248 255 c.

(** The longest prefix of [s] whose characters are all in [cls], and what
    follows it. *)
Fixpoint run_length (cls : ascii -> bool) (s : str) : nat :=
  match s with
  | c :: s' => if cls c then S (run_length cls s') else 0
  | [] => 0
  end.

Definition take_run (cls : ascii -> bool) (s : str) : str :=
  take (run_length cls s) s.

Definition drop_run (cls : ascii -> bool) (s : str) : str :=
  drop (run_length cls s) s.

(** [s.strip()] *)
Definition lstrip (s : str) : str := drop_run is_space s.
Definition rstrip (s : str) : str := reverse (drop_run is_space (reverse s)).
Definition strip (s : str) : str := rstrip (lstrip s).

(** [s.split()]: the maximal runs of characters that are not white space.
    [cur] holds the token being read, reversed. *)
Fixpoint split_ws_from (cur : str) (s : str) : list str :=
  match s with
  | [] => match cur with [] => [] | _ => [reverse cur] end
  | c :: s' =>
      if is_space c
      then match cur with
           | [] => split_ws_from [] s'
           | _ => reverse cur :: split_ws_from [] s'
           end
      else split_ws_from (c :: cur) s'
  end.

Definition split_ws (s : str) : list str := split_ws_from [] s.

(** [s.split(sep)] for a separator of one character: never empty. *)
Fixpoint split_on_from (sep : ascii) (cur : str) (s : str) : list str :=
  match s with
  | [] => [reverse cur]
  | c :: s' =>
      if Ascii.eqb c sep
      then reverse cur :: split_on_from sep [] s'
      else split_on_from sep (c :: cur) s'
  end.

Definition split_on (sep : ascii) (s : str) : list str :=
  split_on_from sep [] s.

(** [sub in s] *)
Fixpoint starts_with (sub s : str) : bool :=
  match sub, s with
  | [], _ => true
  | a :: sub', b :: s' => Ascii.eqb a b && starts_with sub' s'
  | _ :: _, [] => false
  end.

Fixpoint contains (sub s : str) : bool :=
  starts_with sub s ||
  match s with
  | [] => false
  | _ :: s' => contains sub s'
  end.

(** ** Exceptions *)

Inductive exn :=
| StopIteration
| KeyError
| ValueError
| IndexError
| LibraryError (what : string).

Inductive result (A : Type) :=
| Ok (a : A)
| Raise (e : exn).
Arguments Ok {A} a.
Arguments Raise {A} e.

Definition bind {A B} (m : result A) (k : A -> result B) : result B :=
  match m with
  | Ok a => k a
  | Raise e => Raise e
  end.

Notation "'try!' x := m 'in' k" := (bind m (fun x => k))
  (at level 10, x name, m at level 100, k at level 200).

Definition raises {A} (m : result A) : Prop := exists e, m = Raise e.

(** ** Numbers *)

(** A Python number as the table holds it: a value, a NaN, or one of the
    two infinities.  A [float] is the rational number that its 64 bits
    stand for. *)
Inductive pynum :=
| Num (q : Q)
| NaN
| Inf (negative : bool).

Definition digit_value (c : ascii) : Z :=
  if in_range 48 57 c then Z.of_N (code c) - 48
  else if in_range 65 70 c then Z.of_N (code c) - 55
  else Z.of_N (code c) - 87.

Definition digits_value (base : Z) (s : str) : Z :=
  fold_left (fun acc c => acc * base + digit_value c)%Z s 0%Z.

(** [int(s, 16)] on the strings that reach it here, which are non-empty
    runs of hexadecimal digits; any other string is reported as the
    [ValueError] that a malformed literal gets. *)
Definition int16 (s : str) : result Z :=
  match s with
  | [] => Raise ValueError
  | _ => if forallb is_hex s then Ok (digits_value 16 s) else Raise ValueError
  end.

(** The conversion of a rational number that is not negative to a [float]:
    the number is rounded to 53 bits, to the nearest number of that width
    and to the one with an even last bit when two are equally near.  The
    exponent of the last bit is not below -1074, and a result from [2^1024]
    on is an infinity. *)
Definition pow2 (e : Z) : Q := (2 ^ e)%Q.

Definition round_half_even (q : Q) : Z :=
  let n := Qfloor q in
  match (q - inject_Z n ?= 1 # 2)%Q with
  | Lt => n
  | Gt => (n + 1)%Z
  | Eq => if Z.even n then n else (n + 1)%Z
  end.

(** For a positive [q], the exponent [b] with [2^b <= q < 2^(b+1)]. *)
Definition binade (q : Q) : Z :=
  let k := (Z.log2 (Qnum q) - Z.log2 (Zpos (Qden q)))%Z in
  if Qle_bool (pow2 k) q then k else (k - 1)%Z.

Definition binary64 (q : Q) : pynum :=
  let e := Z.max (binade q - 52) (-1074) in
  let m := round_half_even (q * pow2 (- e)) in
  let x := (inject_Z m * pow2 e)%Q in
  if Qle_bool (pow2 1024) x then Inf false else Num (Qred x).

Arguments binary64 : simpl never.

(** [float(s)] on the strings that reach it here, which have the shape
    digits, a dot, digits; any other string is reported as [ValueError]. *)
Definition decimal_value (int_part frac_part : str) : Q :=
  Qred (Qmake (digits_value 10 (int_part ++ frac_part))
              (Pos.pow 10 (Pos.of_nat (length frac_part)))).

Definition float (s : str) : result pynum :=
  let int_part := take_run is_digit s in
  match drop_run is_digit s with
  | dot :: frac_part =>
      if Ascii.eqb dot "." && negb (length int_part =? 0)
         && negb (length frac_part =? 0) && forallb is_digit frac_part
      then Ok (binary64 (decimal_value int_part frac_part))
      else Raise ValueError
  | [] => Raise ValueError
  end.

(** ** Regular expressions

    The three patterns are sequences of literals, greedy repetitions of one
    character class, and unnested groups.  [exec] runs such a sequence the
    way the [re] module does: a repetition first takes as many characters as
    it can and gives them back one at a time while the rest of the pattern
    fails. *)

Inductive node :=
| Bol                                      (* ^ *)
| Lit (c : ascii)                          (* one literal character *)
| Rep (least : nat) (cls : ascii -> bool)  (* cls* (least 0), cls+ (least 1) *)
| Open                                     (* ( *)
| Close.                                   (* ) *)

Definition Star := Rep 0.
Definition Plus := Rep 1.

Fixpoint backoff {A} (try : nat -> option A) (least n : nat) : option A :=
  match n with
  | 0 => if least =? 0 then try 0 else None
  | S n' =>
      if least <=? S n'
      then match try (S n') with
           | Some r => Some r
           | None => backoff try least n'
           end
      else None
  end.

(** [pos] is the number of characters consumed, [s] the rest of the line,
    [opened] the rests of the line at the groups now open and [caps] the
    texts of the closed groups, last first. *)
Fixpoint exec (p : list node) (pos : nat) (s : str)
    (opened : list str) (caps : list str) : option (list str) :=
  match p with
  | [] => Some (reverse caps)
  | Bol :: p' => if pos =? 0 then exec p' pos s opened caps else None
  | Lit c :: p' =>
      match s with
      | c' :: s' =>
          if Ascii.eqb c c' then exec p' (S pos) s' opened caps else None
      | [] => None
      end
  | Rep least cls :: p' =>
      backoff (fun n => exec p' (pos + n) (drop n s) opened caps)
              least (run_length cls s)
  | Open :: p' => exec p' pos s (s :: opened) caps
  | Close :: p' =>
      match opened with
      | s0 :: opened' =>
          exec p' pos s opened' (take (length s0 - length s) s0 :: caps)
      | [] => None
      end
  end.

(** [pattern.match(line)]: the groups of the match at the start of [line],
    first group first. *)
Definition re_match (p : list node) (line : str) : option (list str) :=
  exec p 0 line [] [].

(** [match.group(n)] for [n >= 1]. *)
Definition group (m : list str) (n : nat) : result str :=
  match m !! (n - 1) with
  | Some g => Ok g
  | None => Raise IndexError
  end.

(** [^\s*\d+\)\s+(\d+\.\d+)\s+\w+\s+([0-9A-Fa-f]+)\s+(\d+)\s+([0-9A-Fa-f\s]+)] *)
Definition pattern_v1 : list node :=
  [Bol; Star is_space; Plus is_digit; Lit ")"; Plus is_space;
   Open; Plus is_digit; Lit "."; Plus is_digit; Close;
   Plus is_space; Plus is_word; Plus is_space;
   Open; Plus is_hex; Close;
   Plus is_space;
   Open; Plus is_digit; Close;
   Plus is_space;
   Open; Plus is_hexws; Close].

(** [\s*\d+\s+(\d+\.\d+)\s+DT\s+\d+\s+([0-9A-Fa-f]+)\s+Rx\s+(\d+)\s+([0-9A-Fa-f\s]+)] *)
Definition pattern_v2 : list node :=
  [Star is_space; Plus is_digit; Plus is_space;
   Open; Plus is_digit; Lit "."; Plus is_digit; Close;
   Plus is_space; Lit "D"; Lit "T"; Plus is_space; Plus is_digit;
   Plus is_space;
   Open; Plus is_hex; Close;
   Plus is_space; Lit "R"; Lit "x"; Plus is_space;
   Open; Plus is_digit; Close;
   Plus is_space;
   Open; Plus is_hexws; Close].

(** [^\s*\d+\s+(\d+\.\d+)\s+DT\s+\d+\s+([0-9A-Fa-f]+)\s+Rx\s+-\s+(\d+)\s+([0-9A-Fa-f\s]+)] *)
Definition pattern_v3 : list node :=
  [Bol; Star is_space; Plus is_digit; Plus is_space;
   Open; Plus is_digit; Lit "."; Plus is_digit; Close;
   Plus is_space; Lit "D"; Lit "T"; Plus is_space; Plus is_digit;
   Plus is_space;
   Open; Plus is_hex; Close;
   Plus is_space; Lit "R"; Lit "x"; Plus is_space; Lit "-"; Plus is_space;
   Open; Plus is_digit; Close;
   Plus is_space;
   Open; Plus is_hexws; Close].


(** ** Reading the trace *)

Definition CR : ascii := "013".
Definition LF : ascii := "010".

(** Text mode of [open(path, 'r')]: every line end becomes a line feed. *)
Fixpoint universal_newlines (s : str) : str :=
  match s with
  | [] => []
  | c :: s' =>
      if Ascii.eqb c CR
      then match s' with
           | c2 :: s'' =>
               if Ascii.eqb c2 LF
               then LF :: universal_newlines s''
               else LF :: universal_newlines s'
           | [] => [LF]
           end
      else c :: universal_newlines s'
  end.

(** The lines a file object yields, each with its line feed. *)
Fixpoint lines_from (cur : str) (s : str) : list str :=
  match s with
  | [] => match cur with [] => [] | _ => [reverse cur] end
  | c :: s' =>
      if Ascii.eqb c LF
      then reverse (c :: cur) :: lines_from [] s'
      else lines_from (c :: cur) s'
  end.

Definition file_lines (text : str) : list str :=
  lines_from [] (universal_newlines text).

(** [[next(file) for _ in range(n)]] *)
Fixpoint next_n (n : nat) (file : list str) : result (list str) :=
  match n with
  | 0 => Ok []
  | S n' =>
      match file with
      | [] => Raise StopIteration
      | line :: file' =>
          try! rest := next_n n' file' in Ok (line :: rest)
      end
  end.

Definition marker : str := chars ";$FILEVERSION=".

(** [next((line for line in header if ";$FILEVERSION=" in line), "")] *)
Definition version_line (header : list str) : str :=
  match List.find (contains marker) header with
  | Some line => line
  | None => []
  end.

(** [version_line.strip().split("=")[-1]] *)
Definition file_version (header : list str) : str :=
  match last (split_on "=" (strip (version_line header))) with
  | Some token => token
  | None => []
  end.

Definition select_pattern (version : str) : list node :=
  if decide (version = chars "1.1") then pattern_v1
  else if decide (version = chars "2.0") then pattern_v2
  else if decide (version = chars "2.1") then pattern_v3
  else pattern_v3.

(** The three lists that the scan of the file fills. *)
Record scanned := {
  timestamps : list pynum;
  message_ids : list Z;
  message_payloads : list str
}.

Definition scan_line (pattern : list node) (line : str) (acc : scanned)
  : result scanned :=
  match re_match pattern line with
  | Some m =>
      try! g1 := group m 1 in
      try! t := float g1 in
      try! g2 := group m 2 in
      try! i := int16 g2 in
      try! g4 := group m 4 in
      Ok {| timestamps := timestamps acc ++ [t];
            message_ids := message_ids acc ++ [i];
            message_payloads := message_payloads acc ++ [strip g4] |}
  | None => Ok acc
  end.

Fixpoint scan (pattern : list node) (file : list str) (acc : scanned)
  : result scanned :=
  match file with
  | [] => Ok acc
  | line :: file' =>
      try! acc' := scan_line pattern line acc in scan pattern file' acc'
  end.

Definition no_records : scanned :=
  {| timestamps := []; message_ids := []; message_payloads := [] |}.

(** ** The signal database (cantools) *)

Record Signal := { name : str }.

Record Message := {
  signals : list Signal;
  (** [msg.decode(data, decode_choices=False, scaling=True)]: the decoded
      signals in the order of the dictionary that is returned *)
  decode : list Byte.byte -> result (list (str * pynum))
}.

Record Database := {
  messages : list Message;
  (** raises [KeyError] when no message has the frame id *)
  get_message_by_frame_id : Z -> result Message
}.

(** ** The table of columns *)

Definition cell := option pynum.

Definition table := list (str * list cell).

Definition Timestamp : str := chars "Timestamp".

Definition has_key (k : str) (t : table) : bool :=
  existsb (fun kv => bool_decide (kv.1 = k)) t.

(** [result.setdefault(k, v)] *)
Definition setdefault (k : str) (v : list cell) (t : table) : table :=
  if has_key k t then t else t ++ [(k, v)].

(** [result[k]] *)
Fixpoint getitem (k : str) (t : table) : result (list cell) :=
  match t with
  | [] => Raise KeyError
  | (k', col) :: t' => if decide (k' = k) then Ok col else getitem k t'
  end.

(** [result[k][idx] = v] *)
Fixpoint setitem (k : str) (idx : nat) (v : pynum) (t : table)
  : result table :=
  match t with
  | [] => Raise KeyError
  | (k', col) :: t' =>
      if decide (k' = k)
      then if idx <? length col
           then Ok ((k', <[idx := Some v]> col) :: t')
           else Raise IndexError
      else try! t'' := setitem k idx v t' in Ok ((k', col) :: t'')
  end.

Definition declare_signals (n : nat) (t : table) (message : Message) : table :=
  fold_left (fun t s => setdefault (name s) (replicate n None) t)
            (signals message) t.

(** The dictionary before the decode loop. *)
Definition init_result (db : Database) (timestamps : list pynum) : table :=
  fold_left (declare_signals (length timestamps)) (messages db)
            [(Timestamp, map Some timestamps)].

(** [bytes(int(x, 16) for x in tokens)] *)
Fixpoint to_bytes (tokens : list str) : result (list Byte.byte) :=
  match tokens with
  | [] => Ok []
  | x :: tokens' =>
      try! v := int16 x in
      match Byte.of_N (Z.to_N v) with
      | Some b => try! rest := to_bytes tokens' in Ok (b :: rest)
      | None => Raise ValueError
      end
  end.

Fixpoint store_all (decoded : list (str * pynum)) (idx : nat) (t : table)
  : result table :=
  match decoded with
  | [] => Ok t
  | (k, v) :: decoded' =>
      try! t' := setitem k idx v t in store_all decoded' idx t'
  end.

(** One turn of the decode loop. *)
Definition decode_record (db : Database) (idx : nat) (msg_id : Z)
    (payload : str) (t : table) : result table :=
  match get_message_by_frame_id db msg_id with
  | Raise KeyError => Ok t
  | Raise e => Raise e
  | Ok msg =>
      try! data_bytes := to_bytes (split_ws payload) in
      try! decoded := decode msg data_bytes in
      store_all decoded idx t
  end.

(** The loop over [enumerate(zip(message_ids, message_payloads))], from
    index [idx] on. *)
Fixpoint decode_loop (db : Database) (idx : nat) (records : list (Z * str))
    (t : table) : result table :=
  match records with
  | [] => Ok t
  | (msg_id, payload) :: records' =>
      try! t' := decode_record db idx msg_id payload t in
      decode_loop db (S idx) records' t'
  end.

(** ** The data frame *)

Record DataFrame := {
  rows : nat;
  columns : table
}.

(** [pd.DataFrame(result)] for a dictionary of lists. *)
Definition make_frame (t : table) : result DataFrame :=
  match t with
  | [] => Ok {| rows := 0; columns := [] |}
  | (_, col) :: _ =>
      if forallb (fun kv => length kv.2 =? length col) t
      then Ok {| rows := length col; columns := t |}
      else Raise ValueError
  end.

(** [pd.isna] on one cell: [None] and NaN are missing values, an infinity
    is not. *)
Definition isna (c : cell) : bool :=
  match c with
  | None => true
  | Some NaN => true
  | Some (Num _) | Some (Inf _) => false
  end.

Definition all_na (col : list cell) : bool := forallb isna col.

(** [df.dropna(axis=1, how='all')] *)
Definition dropna (df : DataFrame) : DataFrame :=
  {| rows := rows df;
     columns := List.filter (fun kv => negb (all_na kv.2)) (columns df) |}.

(** The second half of [decode_can], from [# Prepare dataframe] on. *)
Definition build_table (db : Database) (sc : scanned) : result DataFrame :=
  let result := init_result db (timestamps sc) in
  try! result := decode_loop db 0 (zip (message_ids sc) (message_payloads sc))
                             result in
  try! df := make_frame result in
  Ok (dropna df).

Section Decoder.

(** The text of a DBC file, and [cantools.database.load_file]. *)
Variable dbc_file : Type.
Variable load_file : dbc_file -> result Database.

Definition decode_can (dbc : dbc_file) (trc : str) : result DataFrame :=
  try! db := load_file dbc in
  try! header := next_n 10 (file_lines trc) in
  let pattern := select_pattern (file_version header) in
  try! sc := scan pattern (file_lines trc) no_records in
  build_table db sc.

(** ** The callback of the decode button *)

(** [c.lower()] on one character. *)
Definition lower_char (c : ascii) : ascii :=
  if in_range 65 90 c || in_range 192 214 c || in_range 216 222 c
  then ascii_of_N (code c + 32)
  else c.

Definition lower (s : str) : str := map lower_char s.

(** One chart: its title, and the two series of its scatter plot. *)
Record Figure := {
  title : str;
  x : list cell;
  y : list cell
}.

(** What goes into [plot-div]: a text, or the charts. *)
Inductive children :=
| Text (message : string)
| Graphs (figs : list Figure).

(** The files under [uploads/]: [latest.dbc], [latest.trc] and
    [decoded.csv], each absent or with its content. *)
Record staging := {
  dbc_tmp_path : option dbc_file;
  trc_tmp_path : option str;
  decoded_csv_path : option DataFrame
}.

(** [df.to_csv(decoded_csv_path, index=False)]; the file is kept as the
    table it was written from. *)
Definition to_csv (df : DataFrame) (st : staging) : staging :=
  {| dbc_tmp_path := dbc_tmp_path st;
     trc_tmp_path := trc_tmp_path st;
     decoded_csv_path := Some df |}.

Fixpoint plots (df : DataFrame) (signal_cols : list str)
  : result (list Figure) :=
  match signal_cols with
  | [] => Ok []
  | col :: signal_cols' =>
      try! xs := getitem Timestamp (columns df) in
      try! ys := getitem col (columns df) in
      try! figs := plots df signal_cols' in
      Ok ({| title := col; x := xs; y := ys |} :: figs)
  end.

(** The two outputs of the callback, the children of [plot-div] and the
    [disabled] flag of the download button, with the files afterwards. *)
Definition decode_and_plot (st : staging)
  : result (children * bool * staging) :=
  match dbc_tmp_path st, trc_tmp_path st with
  | Some dbc, Some trc =>
      try! df := decode_can dbc trc in
      if (rows df =? 0) || (length (columns df) <? 2)
      then Ok (Text "No data to plot.", true, st)
      else
        let st' := to_csv df st in
        let signal_cols :=
          List.filter (fun c => negb (bool_decide (lower c = chars "timestamp")))
                      (map fst (columns df)) in
        try! figs := plots df signal_cols in
        Ok (Graphs figs, false, st')
  | _, _ => Ok (Text "Please upload both files.", true, st)
  end.

End Decoder.

Arguments decode_can {dbc_file} load_file dbc trc.
Arguments decode_and_plot {dbc_file} load_file st.
Arguments dbc_tmp_path {dbc_file} s.
Arguments trc_tmp_path {dbc_file} s.
Arguments decoded_csv_path {dbc_file} s.
Arguments to_csv {dbc_file} df st.

(** ** The download callback *)

(** What [download_csv] returns: the file, or [dash.no_update]. *)
Inductive download :=
| send_file (csv : DataFrame)
| no_update.

Definition download_csv {dbc_file} (st : staging dbc_file) : download :=
  match decoded_csv_path st with
  | Some csv => send_file csv
  | None => no_update
  end.

(** ** The upload callback *)

(** The two files that [save_files] writes, [latest.dbc] and [latest.trc],
    each absent or with its bytes. *)
Record upload_folder := {
  latest_dbc : option (list Byte.byte);
  latest_trc : option (list Byte.byte)
}.

(** The truth value of a string that may be [None]. *)
Definition truthy (s : option str) : bool :=
  match s with
  | Some (_ :: _) => true
  | _ => false
  end.

Definition text_of (s : option str) : str :=
  match s with
  | Some t => t
  | None => []
  end.

(** [content.split(',')[1]] *)
Definition content_string (content : str) : result str :=
  match split_on "," content with
  | _ :: piece :: _ => Ok piece
  | _ => Raise IndexError
  end.

(** [sep.join(msg)] *)
Fixpoint join (sep : str) (msg : list str) : str :=
  match msg with
  | [] => []
  | [m] => m
  | m :: msg' => m ++ sep ++ join sep msg'
  end.

(** [base64.b64decode(s)] for a string [s], as CPython 3.11 does it.  The
    string has to be ASCII.  [binascii.a2b_base64] then reads the characters
    of the alphabet in groups of four, passes over any other character, and
    stops at the padding that completes a group; what follows is not
    looked at.  A group that the end of the string leaves incomplete is a
    [binascii.Error]. *)
Module base64.

Definition sextet (c : ascii) : option Z :=
  if in_range 65 90 c then Some (Z.of_N (code c) - 65)%Z
  else if in_range 97 122 c then Some (Z.of_N (code c) - 71)%Z
  else if in_range 48 57 c then Some (Z.of_N (code c) + 4)%Z
  else if in_range 43 43 c then Some 62%Z
  else if in_range 47 47 c then Some 63%Z
  else None.

Definition byte_of (v : Z) : Byte.byte :=
  match Byte.of_N (Z.to_N (v mod 256)) with
  | Some b => b
  | None => Byte.x00
  end.

(** The loop of [a2b_base64], with its variables [quad_pos], [leftchar] and
    [pads]; [out] holds the bytes written so far. *)
Fixpoint a2b_base64 (s : str) (quad_pos leftchar pads : Z)
    (out : list Byte.byte) : result (list Byte.byte) :=
  match s with
  | [] =>
      if (quad_pos =? 0)%Z then Ok out
      else Raise (LibraryError "binascii.Error")
  | c :: s' =>
      if Ascii.eqb c "=" then
        if (2 <=? quad_pos)%Z then
          if (4 <=? quad_pos + (pads + 1))%Z then Ok out
          else a2b_base64 s' quad_pos leftchar (pads + 1)%Z out
        else a2b_base64 s' quad_pos leftchar pads out
      else
        match sextet c with
        | None => a2b_base64 s' quad_pos leftchar pads out
        | Some v =>
            if (quad_pos =? 0)%Z then a2b_base64 s' 1 v 0 out
            else if (quad_pos =? 1)%Z then
              a2b_base64 s' 2 (Z.land v 15) 0
                (out ++ [byte_of (Z.lor (Z.shiftl leftchar 2)
                                        (Z.shiftr v 4))])
            else if (quad_pos =? 2)%Z then
              a2b_base64 s' 3 (Z.land v 3) 0
                (out ++ [byte_of (Z.lor (Z.shiftl leftchar 4)
                                        (Z.shiftr v 2))])
            else
              a2b_base64 s' 0 0 0
                (out ++ [byte_of (Z.lor (Z.shiftl leftchar 6) v)])
        end
  end.

Definition b64decode (s : str) : result (list Byte.byte) :=
  if forallb (fun c => (code c <? 128)%N) s then a2b_base64 s 0 0 0 []
  else Raise ValueError.

End base64.

Section Uploads.

(** [base64.b64decode] *)
Variable b64decode : str -> result (list Byte.byte).

(** The three lines under one [if] of [save_files]: the outcome, and the
    file afterwards.  [open(path, "wb")] has emptied the file when
    [b64decode] runs. *)
Definition write_upload (content : str) (file : option (list Byte.byte))
  : result unit * option (list Byte.byte) :=
  match content_string content with
  | Raise e => (Raise e, file)
  | Ok piece =>
      match b64decode piece with
      | Ok data => (Ok tt, Some data)
      | Raise e => (Raise e, Some [])
      end
  end.

(** The text that is returned, or the exception, with the files afterwards. *)
Definition save_files (dbc_content dbc_name trc_content trc_name : option str)
    (st : upload_folder) : result str * upload_folder :=
  let after_dbc :=
    if truthy dbc_content && truthy dbc_name
    then
      let (outcome, file) :=
        write_upload (text_of dbc_content) (latest_dbc st) in
      (match outcome with
       | Ok _ => Ok [chars "DBC uploaded: " ++ text_of dbc_name]
       | Raise e => Raise e
       end,
       {| latest_dbc := file; latest_trc := latest_trc st |})
    else (Ok [], st) in
  match after_dbc with
  | (Raise e, st1) => (Raise e, st1)
  | (Ok msg, st1) =>
      if truthy trc_content && truthy trc_name
      then
        let (outcome, file) :=
          write_upload (text_of trc_content) (latest_trc st1) in
        (match outcome with
         | Ok _ =>
             Ok (join (chars " | ")
                      (msg ++ [chars "TRC uploaded: " ++ text_of trc_name]))
         | Raise e => Raise e
         end,
         {| latest_dbc := latest_dbc st1; latest_trc := file |})
      else (Ok (join (chars " | ") msg), st1)
  end.

End Uploads.

(** ** The shapes of the trace lines

    A data line of a trace is a sequence of fields.  The three trace
    formats have the message number, the time offset, the frame id, the
    declared length and the data bytes in common, and differ in what stands
    between them. *)

Inductive version := V1_1 | V2_0 | V2_1.

Definition grammar (v : version) : list node :=
  match v with
  | V1_1 => pattern_v1
  | V2_0 => pattern_v2
  | V2_1 => pattern_v3
  end.

(** A non-empty run of characters of one class. *)
Definition run (cls : ascii -> bool) (s : str) : Prop :=
  s <> [] /\ forallb cls s = true.

Record line_fields := {
  indent : str;
  number : str;
  sep1 : str;
  time_int : str;
  time_frac : str;
  sep2 : str;
  id : str;
  sep3 : str;
  declared_length : str;
  rest : str
}.

Definition text (f : line_fields) : str :=
  indent f ++ number f ++ sep1 f ++ time_int f ++ chars "." ++ time_frac f
  ++ sep2 f ++ id f ++ sep3 f ++ declared_length f ++ rest f.

(** Between the message number and the time offset. *)
Inductive sep1_shape : version -> str -> Prop :=
| Sep1_v1 W : run is_space W -> sep1_shape V1_1 (chars ")" ++ W)
| Sep1_v2 W : run is_space W -> sep1_shape V2_0 W
| Sep1_v3 W : run is_space W -> sep1_shape V2_1 W.

(** Between the time offset and the frame id: the message type, or the
    [DT] marker and the bus number. *)
Inductive sep2_shape : version -> str -> Prop :=
| Sep2_v1 W type W' :
    run is_space W -> run is_word type -> run is_space W' ->
    sep2_shape V1_1 (W ++ type ++ W')
| Sep2_v2 W W' bus W'' :
    run is_space W -> run is_space W' -> run is_digit bus ->
    run is_space W'' ->
    sep2_shape V2_0 (W ++ chars "DT" ++ W' ++ bus ++ W'')
| Sep2_v3 W W' bus W'' :
    run is_space W -> run is_space W' -> run is_digit bus ->
    run is_space W'' ->
    sep2_shape V2_1 (W ++ chars "DT" ++ W' ++ bus ++ W'').

(** Between the frame id and the declared length. *)
Inductive sep3_shape : version -> str -> Prop :=
| Sep3_v1 W : run is_space W -> sep3_shape V1_1 W
| Sep3_v2 W W' :
    run is_space W -> run is_space W' ->
    sep3_shape V2_0 (W ++ chars "Rx" ++ W')
| Sep3_v3 W W' W'' :
    run is_space W -> run is_space W' -> run is_space W'' ->
    sep3_shape V2_1 (W ++ chars "Rx" ++ W' ++ chars "-" ++ W'').

(** After the declared length: white space, and at least one more
    character that is white space or a hexadecimal digit. *)
Definition payload_region (R : str) : Prop :=
  exists w c R', R = w :: c :: R' /\ is_space w = true /\ is_hexws c = true.

Record conforms (v : version) (f : line_fields) : Prop := {
  indent_ok : forallb is_space (indent f) = true;
  number_ok : run is_digit (number f);
  sep1_ok : sep1_shape v (sep1 f);
  time_int_ok : run is_digit (time_int f);
  time_frac_ok : run is_digit (time_frac f);
  sep2_ok : sep2_shape v (sep2 f);
  id_ok : run is_hex (id f);
  sep3_ok : sep3_shape v (sep3 f);
  declared_length_ok : run is_digit (declared_length f);
  rest_ok : payload_region (rest f)
}.

(** The payload text of a record: the run of hexadecimal digits and white
    space that follows the declared length, stripped. *)
Definition payload_text (R : str) : str := strip (take_run is_hexws R).

(** The record that a line adds to the three lists. *)
Definition push (acc : scanned) (t : pynum) (i : Z) (p : str) : scanned :=
  {| timestamps := timestamps acc ++ [t];
     message_ids := message_ids acc ++ [i];
     message_payloads := message_payloads acc ++ [p] |}.

(** Tokens with the white space before each. *)
Fixpoint spaced (toks : list (str * str)) : str :=
  match toks with
  | [] => []
  | (sep, tok) :: toks' => sep ++ tok ++ spaced toks'
  end.

(** The end of a run: nothing, or a character outside the class. *)
Definition stops (cls : ascii -> bool) (s : str) : Prop :=
  match s with
  | [] => True
  | c :: _ => cls c = false
  end.

(** ** Notions for the properties *)

(** [accepts p pos s opened caps Q]: the pattern matches, with groups that
    satisfy [Q]. *)
Definition accepts (p : list node) (pos : nat) (s : str)
    (opened caps : list str) (Q : list str -> Prop) : Prop :=
  exists r, exec p pos s opened caps = Some r /\ Q r.

Definition tail_nodes : list node :=
  [Plus is_space; Open; Plus is_hexws; Close].

Definition groups_of (f : line_fields) (m : list str) : Prop :=
  exists g4,
    m = [time_int f ++ chars "." ++ time_frac f; id f; declared_length f; g4]
    /\ strip g4 = payload_text (rest f).

(** Nothing, or white space first. *)
Definition breaks (s : str) : Prop :=
  match s with
  | [] => True
  | c :: _ => is_space c = true
  end.

Definition spaced_ok (toks : list (str * str)) : Prop :=
  Forall (fun st => run is_space st.1 /\ run is_hex st.2) toks.

Definition with_length (len : str) (f : line_fields) : line_fields :=
  {| indent := indent f; number := number f; sep1 := sep1 f;
     time_int := time_int f; time_frac := time_frac f; sep2 := sep2 f;
     id := id f; sep3 := sep3 f; declared_length := len; rest := rest f |}.

Definition is_nan (t : pynum) : bool :=
  match t with
  | NaN => true
  | Num _ | Inf _ => false
  end.

(** The number that a decimal numeral writes, digit by digit: a digit
    before the point counts ten times what it would count one place to the
    right, and a digit after the point a tenth of what it would count one
    place to the left. *)
Fixpoint whole (s : str) : Z :=
  match s with
  | [] => 0
  | c :: s' => digit_value c * 10 ^ Z.of_nat (length s') + whole s'
  end%Z.

Fixpoint fraction (s : str) : Q :=
  match s with
  | [] => 0
  | c :: s' => (inject_Z (digit_value c) + fraction s') / 10
  end%Q.

Definition decimal (int_part frac_part : str) : Q :=
  (inject_Z (whole int_part) + fraction frac_part)%Q.

(** The numbers of 64 bits: a significand below [2^53] and an exponent
    from -1074 to 971; and those of them with an even significand. *)
Definition is_binary64 (x : Q) : Prop :=
  exists m e : Z,
    (Z.abs m < 2 ^ 53)%Z /\ (-1074 <= e <= 971)%Z
    /\ (x == inject_Z m * pow2 e)%Q.

Definition is_even_binary64 (x : Q) : Prop :=
  exists m e : Z,
    (Z.abs (2 * m) < 2 ^ 53)%Z /\ (-1074 <= e <= 971)%Z
    /\ (x == inject_Z (2 * m) * pow2 e)%Q.

(** [x] is a number of 64 bits that is as near to [q] as any, and has an
    even significand when another one is as near. *)
Definition nearest_even (q x : Q) : Prop :=
  is_binary64 x
  /\ (forall y, is_binary64 y -> (Qabs (x - q) <= Qabs (y - q))%Q)
  /\ (forall y, is_binary64 y -> ~ (y == x)%Q ->
        (Qabs (y - q) == Qabs (x - q))%Q -> is_even_binary64 x).

(** The middle between the largest number of 64 bits and [2^1024]. *)
Definition overflow_threshold : Q := (pow2 1024 - pow2 970)%Q.

(** What IEEE 754 asks of the conversion of [q] to 64 bits. *)
Definition rounds_to (q : Q) (t : pynum) : Prop :=
  match t with
  | Num x => (q < overflow_threshold)%Q /\ nearest_even q x
  | Inf false => (overflow_threshold <= q)%Q
  | _ => False
  end.

(** The same float, whatever fraction writes its value. *)
Definition same_float (t t' : pynum) : Prop :=
  match t, t' with
  | Num x, Num x' => (x == x')%Q
  | NaN, NaN => True
  | Inf b, Inf b' => b = b'
  | _, _ => False
  end.

(** The lists grow together, and a time offset is never a NaN. *)
Record scanned_ok (sc : scanned) : Prop := {
  ids_length : length (message_ids sc) = length (timestamps sc);
  payloads_length : length (message_payloads sc) = length (timestamps sc);
  timestamps_num : Forall (fun t => is_nan t = false) (timestamps sc)
}.

(** [agree keep t t']: the same columns, of the same lengths, with the same
    cells in the rows that [keep] selects. *)
Definition agree (keep : nat -> Prop) (t t' : table) : Prop :=
  Forall2 (fun kc kc' =>
             kc.1 = kc'.1 /\ length kc.2 = length kc'.2
             /\ forall j, keep j -> kc'.2 !! j = kc.2 !! j) t t'.

Definition missed (db : Database) (i : nat) (records : list (Z * str))
    (j : nat) : Prop :=
  forall r, i <= j -> records !! (j - i) = Some r ->
            get_message_by_frame_id db r.1 = Raise KeyError.

(** A signal of some message of the database has the name [k]. *)
Definition declared (db : Database) (k : str) : Prop :=
  exists message s,
    message ∈ messages db /\ s ∈ signals message /\ name s = k.

(** No message of the database decodes a signal with the name [k]. *)
Definition never_decodes (db : Database) (k : str) : Prop :=
  forall msg_id msg data decoded,
    get_message_by_frame_id db msg_id = Ok msg ->
    decode msg data = Ok decoded ->
    Forall (fun kv => kv.1 <> k) decoded.

(** The time offsets first, then columns of [None] under other names. *)
Definition fresh_table (ts : list pynum) (t : table) : Prop :=
  exists others,
    t = (Timestamp, map Some ts) :: others
    /\ Forall (fun kc => kc.1 <> Timestamp
                         /\ kc.2 = replicate (length ts) None) others.

(** [pattern.match(line)] is not [None]. *)
Definition matches (p : list node) (line : str) : bool :=
  match re_match p line with
  | Some _ => true
  | None => false
  end.

(** The records of [sc'] after those of [sc]. *)
Definition extend (sc sc' : scanned) : scanned :=
  {| timestamps := timestamps sc ++ timestamps sc';
     message_ids := message_ids sc ++ message_ids sc';
     message_payloads := message_payloads sc ++ message_payloads sc' |}.

(** The value of a byte. *)
Definition byte_value (b : Byte.byte) : Z := Z.of_N (Byte.to_N b).

(** The decoding of a message names signals of the database only. *)
Definition decodes_declared (db : Database) : Prop :=
  forall msg_id msg data decoded,
    get_message_by_frame_id db msg_id = Ok msg ->
    decode msg data = Ok decoded ->
    Forall (fun kv => declared db kv.1) decoded.

(** What can raise [e] in the turn of a record: the lookup of the message,
    the conversion to bytes, or the decoding. *)
Definition record_raises (db : Database) (msg_id : Z) (payload : str)
    (e : exn) : Prop :=
  (get_message_by_frame_id db msg_id = Raise e /\ e <> KeyError)
  \/ exists msg,
       get_message_by_frame_id db msg_id = Ok msg
       /\ (to_bytes (split_ws payload) = Raise e
           \/ exists data,
                to_bytes (split_ws payload) = Ok data
                /\ decode msg data = Raise e).

(** ** A database with one message, and a version 1.1 trace *)

Module Scenario.

Definition speed_message : Message :=
  {| signals := [ {| name := chars "Speed" |} ];
     decode data :=
       match data with
       | b0 :: b1 :: _ =>
           let raw := (Z.of_N (Byte.to_N b0) + 256 * Z.of_N (Byte.to_N b1))%Z in
           Ok [(chars "Speed", Num (Qred (inject_Z raw * (1 # 10) + 0)))]
       | _ => Raise (LibraryError "DecodeError")
       end |}.

Definition speed_db : Database :=
  {| messages := [speed_message];
     get_message_by_frame_id id :=
       if (id =? 256)%Z then Ok speed_message else Raise KeyError |}.

(** The head of a version 1.1 trace: fourteen lines. *)
Definition header_text : str := chars
";$FILEVERSION=1.1
;$STARTTIME=43008.920986006946
;
;   Start time: 30.09.2017 22:06:13.191.0
;   Generated by PCAN-View v3.2.4
;
;   Message Number
;   |         Time Offset (ms)
;   |         |        Type
;   |         |        |        ID (hex)
;   |         |        |        |     Data Length
;   |         |        |        |     |   Data Bytes (hex) ...
;   |         |        |        |     |   |
;---+--   ----+----  --+--  ----+---  +  -+ -- -- -- -- -- -- --
".


(** The data line [     1)         1.5  Rx          100  2  64 00]. *)
Definition data_line : line_fields :=
  {| indent := chars "     ";
     number := chars "1";
     sep1 := chars ")         ";
     time_int := chars "1";
     time_frac := chars "5";
     sep2 := chars "  Rx          ";
     id := chars "100";
     sep3 := chars "  ";
     declared_length := chars "2";
     rest := chars "  64 00
" |}.

Definition trace : str := header_text ++ text data_line.

(** The data line alone. *)
Definition short_trace : str := text data_line.

(** The head alone. *)
Definition empty_trace : str := header_text.

(** A second data line, with a frame id that the database does not have. *)
Definition unknown_id_trace : str := trace ++ chars
"     2)         2.5  Rx          200  1  01
".

(** A data line with a token of three digits. *)
Definition wide_token_trace : str := header_text ++ chars
"     1)         1.5  Rx          100  2  640 00
".

End Scenario.

(** ** Databases with a signal that is called Timestamp *)

Module Collision.

(** Message [0x100] with two signals of one byte each: [Timestamp], and
    [Speed] with scale 0.1. *)
Definition clock_message : Message :=
  {| signals := [ {| name := chars "Timestamp" |};
                  {| name := chars "Speed" |} ];
     decode data :=
       match data with
       | b0 :: b1 :: _ =>
           Ok [(chars "Timestamp", Num (inject_Z (Z.of_N (Byte.to_N b0))));
               (chars "Speed",
                Num (Qred (inject_Z (Z.of_N (Byte.to_N b1)) * (1 # 10))))]
       | _ => Raise (LibraryError "DecodeError")
       end |}.

Definition clock_db : Database :=
  {| messages := [clock_message];
     get_message_by_frame_id id :=
       if (id =? 256)%Z then Ok clock_message else Raise KeyError |}.

(** Message [0x100] with one signal, [Timestamp], a 32-bit float.  Of its
    [decode] only the answer to the four bytes of a NaN is needed, which is
    the payload of the trace below; any other payload is refused. *)
Definition float_message : Message :=
  {| signals := [ {| name := chars "Timestamp" |} ];
     decode data :=
       match data with
       | [Byte.x00; Byte.x00; Byte.xc0; Byte.x7f] =>
           Ok [(chars "Timestamp", NaN)]
       | _ => Raise (LibraryError "DecodeError")
       end |}.

Definition float_db : Database :=
  {| messages := [float_message];
     get_message_by_frame_id id :=
       if (id =? 256)%Z then Ok float_message else Raise KeyError |}.

Definition nan_trace : str := Scenario.header_text ++ chars
"     1)         1.5  Rx          100  4  00 00 C0 7F
".

End Collision.

(** ** More inputs *)

Module Cases.

(** The data line of the scenario at the time offset [0.1], which no
    float of 64 bits is equal to, and the trace with that line. *)
Definition tenth_line : line_fields :=
  {| indent := indent Scenario.data_line;
     number := number Scenario.data_line;
     sep1 := sep1 Scenario.data_line;
     time_int := chars "0";
     time_frac := chars "1";
     sep2 := sep2 Scenario.data_line;
     id := id Scenario.data_line;
     sep3 := sep3 Scenario.data_line;
     declared_length := declared_length Scenario.data_line;
     rest := rest Scenario.data_line |}.


(** A version 1.1 trace whose only data line has a frame id that the
    database of the scenario does not have. *)
Definition only_unknown_trace : str := Scenario.header_text ++ chars
"     1)         2.5  Rx          200  1  01
".

(** The trace of the scenario under a first line that names a version
    which [decode_can] does not know. *)
Definition unknown_version_trace : str :=
  chars ";$FILEVERSION=9.9
" ++ Scenario.trace.

(** The files of the scenario, before any decoding. *)
Definition staged : staging Database :=
  {| dbc_tmp_path := Some Scenario.speed_db;
     trc_tmp_path := Some Scenario.trace;
     decoded_csv_path := None |}.

(** The frame of the scenario. *)
Definition speed_frame : DataFrame :=
  {| rows := 1;
     columns := [(Timestamp, [Some (Num (3 # 2))]);
                 (chars "Speed", [Some (Num 10)])] |}.

End Cases.

(** * Properties *)

(** ** Character classes *)

Ltac all_chars c :=
  destruct c as [[] [] [] [] [] [] [] []]; vm_compute; congruence.

Lemma digit_not_space c : is_digit c = true -> is_space c = false.
Proof. all_chars c. Qed.

Lemma word_not_space c : is_word c = true -> is_space c = false.
Proof. all_chars c. Qed.

Lemma hex_not_space c : is_hex c = true -> is_space c = false.
Proof. all_chars c. Qed.

Lemma space_not_digit c : is_space c = true -> is_digit c = false.
Proof. all_chars c. Qed.

Lemma space_not_word c : is_space c = true -> is_word c = false.
Proof. all_chars c. Qed.

Lemma space_not_hex c : is_space c = true -> is_hex c = false.
Proof. all_chars c. Qed.

Lemma hexws_cases c :
  is_hexws c = true -> is_hex c = true \/ is_space c = true.
Proof. unfold is_hexws. destruct (is_hex c); auto. Qed.

Lemma space_is_hexws c : is_space c = true -> is_hexws c = true.
Proof. unfold is_hexws. intros ->. by destruct (is_hex c). Qed.

Lemma hex_is_hexws c : is_hex c = true -> is_hexws c = true.
Proof. unfold is_hexws. by intros ->. Qed.

(** ** Runs *)

Lemma run_length_app cls tok s :
  forallb cls tok = true -> stops cls s ->
  run_length cls (tok ++ s) = length tok.
Proof.
  induction tok as [|c tok IH]; simpl.
  - intros _ Hs. destruct s as [|c s]; [done|]. simpl in *. by rewrite Hs.
  - intros [Hc Htok]%andb_prop Hs. rewrite Hc. by rewrite IH.
Qed.

Lemma run_length_all cls tok s :
  forallb cls tok = true ->
  run_length cls (tok ++ s) = length tok + run_length cls s.
Proof.
  induction tok as [|c tok IH]; simpl; [done|].
  intros [Hc Htok]%andb_prop. rewrite Hc. by rewrite IH.
Qed.

Lemma run_length_le cls s : run_length cls s <= length s.
Proof. induction s as [|c s IH]; simpl; [lia|]. destruct (cls c); simpl; lia. Qed.

Lemma take_run_all cls n s :
  n <= run_length cls s -> forallb cls (take n s) = true.
Proof.
  revert n. induction s as [|c s IH]; intros [|n]; simpl; try done.
  destruct (cls c) eqn:Hc; [|lia]. intros Hn. apply IH. lia.
Qed.

Lemma stops_drop_run cls s : stops cls (drop_run cls s).
Proof.
  unfold drop_run. induction s as [|c s IH]; simpl; [done|].
  destruct (cls c) eqn:Hc; simpl; done.
Qed.

Lemma stops_run cls cls' tok s :
  (forall c, cls' c = true -> cls c = false) ->
  run cls' tok -> stops cls (tok ++ s).
Proof.
  intros Hd [Hne Hall]. destruct tok as [|c tok]; [done|].
  simpl in *. apply Hd. by apply andb_prop in Hall as [? _].
Qed.

Lemma run_length_nonempty cls tok : run cls tok -> 1 <= length tok.
Proof. intros [Hne _]. destruct tok; [done|simpl; lia]. Qed.

Lemma take_drop_run cls s : take_run cls s ++ drop_run cls s = s.
Proof. apply take_drop. Qed.

Lemma take_run_forallb cls s : forallb cls (take_run cls s) = true.
Proof. by apply take_run_all. Qed.

Lemma take_run_app cls tok s :
  forallb cls tok = true -> take_run cls (tok ++ s) = tok ++ take_run cls s.
Proof.
  intros H. unfold take_run. rewrite run_length_all by done.
  by rewrite take_app_add.
Qed.

Lemma drop_run_app cls tok s :
  forallb cls tok = true -> drop_run cls (tok ++ s) = drop_run cls s.
Proof.
  intros H. unfold drop_run. rewrite run_length_all by done.
  by rewrite drop_app_add.
Qed.

Lemma take_run_stops cls s : stops cls s -> take_run cls s = [].
Proof.
  unfold take_run. destruct s as [|c s]; [done|]. simpl. by intros ->.
Qed.

Lemma drop_run_stops cls s : stops cls s -> drop_run cls s = s.
Proof.
  unfold drop_run. destruct s as [|c s]; [done|]. simpl. by intros ->.
Qed.

(** ** The matcher *)

Lemma backoff_first {A} (try : nat -> option A) least n r :
  least <= n -> try n = Some r -> backoff try least n = Some r.
Proof.
  intros Hle Hn. destruct n as [|n]; simpl.
  - assert (least = 0) as -> by lia. done.
  - destruct (least <=? S n) eqn:E; [|apply Nat.leb_gt in E; lia].
    by rewrite Hn.
Qed.

Lemma backoff_next {A} (try : nat -> option A) least n :
  least <= S n -> try (S n) = None ->
  backoff try least (S n) = backoff try least n.
Proof.
  intros Hle Hn. simpl. rewrite Hn.
  destruct (least <=? S n) eqn:E; [done|]. apply Nat.leb_gt in E. lia.
Qed.

Lemma backoff_some {A} (try : nat -> option A) least n r :
  backoff try least n = Some r ->
  exists k, least <= k <= n /\ try k = Some r.
Proof.
  induction n as [|n IH]; simpl.
  - destruct (least =? 0) eqn:E; [|done]. apply Nat.eqb_eq in E.
    intros H. exists 0. split; [lia|done].
  - destruct (least <=? S n) eqn:E; [|done]. apply Nat.leb_le in E.
    destruct (try (S n)) as [r'|] eqn:Hn.
    + intros [= ->]. exists (S n). split; [lia|done].
    + intros H. destruct (IH H) as (k & Hk & Hr). exists k. split; [lia|done].
Qed.

Lemma accepts_nil pos s opened caps (Q : list str -> Prop) :
  Q (reverse caps) -> accepts [] pos s opened caps Q.
Proof. intros H. by exists (reverse caps). Qed.

Lemma accepts_bol p s opened caps Q :
  accepts p 0 s opened caps Q -> accepts (Bol :: p) 0 s opened caps Q.
Proof. done. Qed.

Lemma accepts_lit c p pos s opened caps Q :
  accepts p (S pos) s opened caps Q ->
  accepts (Lit c :: p) pos (c :: s) opened caps Q.
Proof. unfold accepts. simpl. by rewrite Ascii.eqb_refl. Qed.

Lemma accepts_rep least cls p pos tok s opened caps Q :
  forallb cls tok = true -> stops cls s -> least <= length tok ->
  accepts p (pos + length tok) s opened caps Q ->
  accepts (Rep least cls :: p) pos (tok ++ s) opened caps Q.
Proof.
  intros Hall Hs Hle (r & Hr & HQ). exists r. split; [|done].
  simpl. rewrite run_length_app by done.
  apply backoff_first; [done|]. by rewrite drop_app_length.
Qed.

Lemma accepts_run least cls p pos tok s opened caps Q :
  run cls tok -> stops cls s -> least <= 1 ->
  accepts p (pos + length tok) s opened caps Q ->
  accepts (Rep least cls :: p) pos (tok ++ s) opened caps Q.
Proof.
  intros Hr Hs Hle. apply accepts_rep; [apply Hr|done|].
  apply run_length_nonempty in Hr. lia.
Qed.

Lemma accepts_open p pos s opened caps Q :
  accepts p pos s (s :: opened) caps Q ->
  accepts (Open :: p) pos s opened caps Q.
Proof. done. Qed.

Lemma accepts_close g p pos s s0 opened caps Q :
  s0 = g ++ s ->
  accepts p pos s opened (g :: caps) Q ->
  accepts (Close :: p) pos s (s0 :: opened) caps Q.
Proof.
  intros ->. unfold accepts. simpl.
  replace (length (g ++ s) - length s) with (length g)
    by (rewrite length_app; lia).
  by rewrite take_app_length.
Qed.

Lemma exec_rep_inv least cls p pos s opened caps r :
  exec (Rep least cls :: p) pos s opened caps = Some r ->
  exists tok s', s = tok ++ s' /\ forallb cls tok = true
    /\ least <= length tok
    /\ exec p (pos + length tok) s' opened caps = Some r.
Proof.
  simpl. intros (k & Hk & Hr)%backoff_some.
  pose proof (run_length_le cls s).
  exists (take k s), (drop k s). rewrite take_drop.
  rewrite length_take, Nat.min_l by lia.
  split; [done|]. split; [apply take_run_all; lia|]. split; [lia|done].
Qed.

Lemma exec_lit_inv c p pos s opened caps r :
  exec (Lit c :: p) pos s opened caps = Some r ->
  exists s', s = c :: s' /\ exec p (S pos) s' opened caps = Some r.
Proof.
  simpl. destruct s as [|c' s]; [done|].
  destruct (Ascii.eqb c c') eqn:E; [|done]. apply Ascii.eqb_eq in E as ->.
  eauto.
Qed.

(** ** Stripping *)

Lemma lstrip_spaces_app W s :
  forallb is_space W = true -> lstrip (W ++ s) = lstrip s.
Proof. apply drop_run_app. Qed.

Lemma strip_spaces_app W s :
  forallb is_space W = true -> strip (W ++ s) = strip s.
Proof. intros H. unfold strip. by rewrite lstrip_spaces_app. Qed.

Lemma strip_spaces W : forallb is_space W = true -> strip W = [].
Proof.
  intros H. rewrite <- (app_nil_r W). by rewrite strip_spaces_app.
Qed.

(** ** The end of the three patterns: [\s+([0-9A-Fa-f\s]+)] *)

Lemma payload_region_split R :
  payload_region R ->
  exists W X, R = W ++ X /\ run is_space W /\ stops is_space X
    /\ (stops is_hex X -> 2 <= length W).
Proof.
  intros (w & c & R' & -> & Hw & Hc).
  exists (take_run is_space (w :: c :: R')), (drop_run is_space (w :: c :: R')).
  split; [by rewrite take_drop_run|].
  split; [|split; [apply stops_drop_run|]].
  - split; [|apply take_run_forallb].
    unfold take_run. simpl. by rewrite Hw.
  - unfold take_run, drop_run. simpl. rewrite Hw.
    destruct (is_space c) eqn:Hsc; simpl.
    + intros _. rewrite length_take. pose proof (run_length_le is_space R'). lia.
    + intros Hx. apply hexws_cases in Hc as [Hc|Hc]; congruence.
Qed.

Lemma run_length_stops cls s : stops cls s -> run_length cls s = 0.
Proof. destruct s as [|c s]; [done|]. simpl. by intros ->. Qed.

Lemma accepts_rep_back least cls p pos tok w s opened caps Q :
  forallb cls tok = true -> cls w = true -> stops cls s ->
  least <= length tok ->
  exec p (pos + S (length tok)) s opened caps = None ->
  accepts p (pos + length tok) (w :: s) opened caps Q ->
  accepts (Rep least cls :: p) pos (tok ++ w :: s) opened caps Q.
Proof.
  intros Hall Hw Hs Hle Hnone (r & Hr & HQ). exists r. split; [|done].
  simpl.
  replace (tok ++ w :: s) with ((tok ++ [w]) ++ s) by by rewrite <- app_assoc.
  rewrite run_length_app; [|by rewrite forallb_app; simpl; rewrite Hall, Hw|done].
  rewrite length_app. simpl. rewrite Nat.add_1_r.
  rewrite backoff_next.
  - apply backoff_first; [done|].
    by rewrite <- app_assoc, drop_app_length.
  - lia.
  - rewrite drop_app_length'; [done|]. rewrite length_app. simpl. lia.
Qed.

Lemma hex_or_stops (s : str) :
  (exists h s', s = h :: s' /\ is_hex h = true) \/ stops is_hex s.
Proof.
  destruct s as [|h s']; [by right|]. simpl.
  destruct (is_hex h) eqn:E; [left; eauto|by right].
Qed.

Lemma stops_hexws s : stops is_hex s -> stops is_space s -> stops is_hexws s.
Proof.
  destruct s as [|c s]; [done|]. simpl. unfold is_hexws. by intros -> ->.
Qed.

Lemma accepts_tail pos R opened caps (Q : list str -> Prop) :
  payload_region R ->
  (forall g4, strip g4 = payload_text R -> Q (reverse (g4 :: caps))) ->
  accepts tail_nodes pos R opened caps Q.
Proof.
  intros (W & X & -> & HW & HX & Hlen)%payload_region_split HQ.
  assert (forallb is_hexws W = true) as HWh.
  { destruct HW as [_ HW]. apply forallb_forall. intros c Hc.
    apply space_is_hexws. by eapply forallb_forall in HW. }
  assert (take_run is_hexws (W ++ X) = W ++ take_run is_hexws X) as Htake
    by by apply take_run_app.
  destruct (hex_or_stops X) as [(h & X' & -> & Hh)|Hstop].
  - (* the byte tokens start right after the white space *)
    apply accepts_run; [done|done|done|]. apply accepts_open.
    rewrite <- (take_drop_run is_hexws (h :: X')).
    apply accepts_rep.
    + apply take_run_forallb.
    + apply stops_drop_run.
    + unfold take_run. simpl. unfold is_hexws at 1. rewrite Hh. simpl. lia.
    + eapply accepts_close; [done|]. apply accepts_nil. apply HQ.
      unfold payload_text. rewrite Htake.
      rewrite strip_spaces_app by apply HW. done.
  - (* nothing to read after the white space: the last space is given back *)
    specialize (Hlen Hstop). pose proof (stops_hexws _ Hstop HX) as Hhw.
    destruct HW as [_ HW].
    destruct (reverse W) as [|w W'] eqn:EW.
    { apply (f_equal length) in EW. rewrite length_reverse in EW.
      simpl in EW. lia. }
    apply (f_equal reverse) in EW. rewrite reverse_involutive in EW.
    rewrite reverse_cons in EW. subst W.
    rewrite length_app in Hlen. simpl in Hlen.
    rewrite forallb_app in HW. apply andb_prop in HW as [HW' Hw].
    simpl in Hw. rewrite andb_true_r in Hw.
    rewrite <- app_assoc. simpl.
    apply accepts_rep_back; [done|done|done|simpl; lia| |].
    + simpl. rewrite run_length_stops by done. reflexivity.
    + apply accepts_open. apply (accepts_rep 1 is_hexws _ _ [w]).
      * simpl. by rewrite (space_is_hexws _ Hw).
      * done.
      * simpl. lia.
      * apply (accepts_close [w]); [done|]. apply accepts_nil. apply HQ.
        unfold payload_text.
        rewrite Htake, (take_run_stops _ _ Hhw), app_nil_r.
        rewrite !strip_spaces; [done| |].
        -- rewrite forallb_app. simpl. by rewrite HW', Hw.
        -- simpl. by rewrite Hw.
Qed.

(** ** Lines of the right shape match *)

Lemma payload_region_stops_digit R : payload_region R -> stops is_digit R.
Proof. intros (w & c & R' & -> & Hw & _). by apply space_not_digit. Qed.

Ltac stops_tac :=
  match goal with
  | |- stops _ (_ ++ _) =>
      eapply stops_run; [|eassumption];
      first [exact digit_not_space | exact word_not_space
            | exact hex_not_space | exact space_not_digit
            | exact space_not_word | exact space_not_hex]
  | |- stops _ (_ :: _) => reflexivity
  | |- stops is_digit _ => by apply payload_region_stops_digit
  end.

Ltac step :=
  lazymatch goal with
  | |- accepts [Plus is_space; Open; Plus is_hexws; Close] _ _ _ _ _ =>
      apply accepts_tail; [eassumption|]
  | |- accepts (Bol :: _) _ _ _ _ _ => apply accepts_bol
  | |- accepts (Lit _ :: _) _ _ _ _ _ => apply accepts_lit
  | |- accepts (Open :: _) _ _ _ _ _ => apply accepts_open
  | |- accepts (Plus _ :: _) _ _ _ _ _ =>
      apply accepts_run; [eassumption|stops_tac|simpl; lia|]
  | |- accepts (Star _ :: _) _ _ _ _ _ =>
      apply accepts_rep; [eassumption|stops_tac|lia|]
  | |- accepts (Close :: _) _ _ ((?t ++ "."%char :: ?u ++ _) :: _) _ _ =>
      apply (accepts_close (t ++ "."%char :: u));
      [by rewrite <- app_assoc; simpl|]
  | |- accepts (Close :: _) _ _ _ _ _ =>
      eapply accepts_close; [reflexivity|]
  end.

Lemma conforms_accepts v f :
  conforms v f -> accepts (grammar v) 0 (text f) [] [] (groups_of f).
Proof.
  intros [Hind Hnum Hs1 Hti Htf Hs2 Hid Hs3 Hlen Hrest].
  destruct f as [ind num s1 ti tf s2 i s3 len R]. unfold text, groups_of.
  simpl in *.
  destruct v; inversion Hs1; inversion Hs2; inversion Hs3; subst;
    cbv [grammar pattern_v1 pattern_v2 pattern_v3]; simpl;
    repeat (rewrite <- app_assoc; simpl).
  all: repeat step.
  all: intros g4 Hg4; by exists g4.
Qed.

(** ** Lines that match have the right shape *)

Lemma exec_bol_inv p pos s opened caps r :
  exec (Bol :: p) pos s opened caps = Some r ->
  exec p pos s opened caps = Some r.
Proof. simpl. by destruct (pos =? 0). Qed.

Lemma exec_open_inv p pos s opened caps r :
  exec (Open :: p) pos s opened caps = Some r ->
  exec p pos s (s :: opened) caps = Some r.
Proof. done. Qed.

Lemma exec_close_inv p pos s s0 opened caps r :
  exec (Close :: p) pos s (s0 :: opened) caps = Some r ->
  exec p pos s opened (take (length s0 - length s) s0 :: caps) = Some r.
Proof. done. Qed.

Lemma run_intro cls tok :
  forallb cls tok = true -> 1 <= length tok -> run cls tok.
Proof. intros H Hle. split; [|done]. intros ->. simpl in Hle. lia. Qed.

Lemma payload_region_intro W P s :
  run is_space W -> run is_hexws P -> payload_region (W ++ P ++ s).
Proof.
  intros [HneW HW] [HneP HP].
  destruct W as [|w W]; [done|]. destruct P as [|c P]; [done|].
  simpl in HW, HP. apply andb_prop in HW as [Hw HW].
  apply andb_prop in HP as [Hc HP].
  destruct W as [|w' W]; simpl.
  - exists w, c, (P ++ s). by rewrite Hw, Hc.
  - simpl in HW. apply andb_prop in HW as [Hw' HW].
    exists w, w', (W ++ c :: P ++ s). by rewrite Hw, (space_is_hexws _ Hw').
Qed.

Tactic Notation "inv_rep" hyp(H) ident(tok) ident(Htok) :=
  let s := fresh "s" in
  let Hall := fresh "Hall" in
  let Hle := fresh "Hle" in
  apply exec_rep_inv in H as (tok & s & -> & Hall & Hle & H);
  try (pose proof (run_intro _ _ Hall Hle) as Htok).

Ltac inv_lit H :=
  let s := fresh "s" in
  apply exec_lit_inv in H as (s & -> & H).

Ltac conforms_tac :=
  split;
  [ split; simpl; try done;
    first [by constructor | by apply payload_region_intro]
  | unfold text; simpl; rewrite <- ?app_assoc; simpl; rewrite <- ?app_assoc;
    reflexivity ].

Lemma match_conforms v line m :
  re_match (grammar v) line = Some m ->
  exists f, conforms v f /\ line = text f.
Proof.
  unfold re_match. intros H.
  destruct v; cbv [grammar pattern_v1 pattern_v2 pattern_v3 Plus Star] in H.
  - apply exec_bol_inv in H.
    apply exec_rep_inv in H as (W0 & s & -> & HW0 & _ & H).
    inv_rep H Nm HNm. inv_lit H. inv_rep H W1 HW1.
    apply exec_open_inv in H.
    inv_rep H T1 HT1. inv_lit H. inv_rep H T2 HT2.
    apply exec_close_inv in H.
    inv_rep H W2 HW2. inv_rep H TY HTY. inv_rep H W3 HW3.
    apply exec_open_inv in H. inv_rep H ID HID. apply exec_close_inv in H.
    inv_rep H W4 HW4.
    apply exec_open_inv in H. inv_rep H LEN HLEN. apply exec_close_inv in H.
    inv_rep H W5 HW5.
    apply exec_open_inv in H. inv_rep H P HP.
    refine (ex_intro _
      {| indent := W0; number := Nm; sep1 := chars ")" ++ W1;
         time_int := T1; time_frac := T2; sep2 := W2 ++ TY ++ W3;
         id := ID; sep3 := W4; declared_length := LEN;
         rest := W5 ++ P ++ _ |} _).
    conforms_tac.
  - apply exec_rep_inv in H as (W0 & s & -> & HW0 & _ & H).
    inv_rep H Nm HNm. inv_rep H W1 HW1.
    apply exec_open_inv in H.
    inv_rep H T1 HT1. inv_lit H. inv_rep H T2 HT2.
    apply exec_close_inv in H.
    inv_rep H W2 HW2. inv_lit H. inv_lit H. inv_rep H W3 HW3.
    inv_rep H BUS HBUS. inv_rep H W4 HW4.
    apply exec_open_inv in H. inv_rep H ID HID. apply exec_close_inv in H.
    inv_rep H W5 HW5. inv_lit H. inv_lit H. inv_rep H W6 HW6.
    apply exec_open_inv in H. inv_rep H LEN HLEN. apply exec_close_inv in H.
    inv_rep H W7 HW7.
    apply exec_open_inv in H. inv_rep H P HP.
    refine (ex_intro _
      {| indent := W0; number := Nm; sep1 := W1;
         time_int := T1; time_frac := T2;
         sep2 := W2 ++ chars "DT" ++ W3 ++ BUS ++ W4;
         id := ID; sep3 := W5 ++ chars "Rx" ++ W6; declared_length := LEN;
         rest := W7 ++ P ++ _ |} _).
    conforms_tac.
  - apply exec_bol_inv in H.
    apply exec_rep_inv in H as (W0 & s & -> & HW0 & _ & H).
    inv_rep H Nm HNm. inv_rep H W1 HW1.
    apply exec_open_inv in H.
    inv_rep H T1 HT1. inv_lit H. inv_rep H T2 HT2.
    apply exec_close_inv in H.
    inv_rep H W2 HW2. inv_lit H. inv_lit H. inv_rep H W3 HW3.
    inv_rep H BUS HBUS. inv_rep H W4 HW4.
    apply exec_open_inv in H. inv_rep H ID HID. apply exec_close_inv in H.
    inv_rep H W5 HW5. inv_lit H. inv_lit H. inv_rep H W6 HW6.
    inv_lit H. inv_rep H W7 HW7.
    apply exec_open_inv in H. inv_rep H LEN HLEN. apply exec_close_inv in H.
    inv_rep H W8 HW8.
    apply exec_open_inv in H. inv_rep H P HP.
    refine (ex_intro _
      {| indent := W0; number := Nm; sep1 := W1;
         time_int := T1; time_frac := T2;
         sep2 := W2 ++ chars "DT" ++ W3 ++ BUS ++ W4;
         id := ID; sep3 := W5 ++ chars "Rx" ++ W6 ++ chars "-" ++ W7;
         declared_length := LEN;
         rest := W8 ++ P ++ _ |} _).
    conforms_tac.
Qed.

(** ** Floating point numbers *)

Section FloatingPoint.

Local Open Scope Q_scope.

Lemma pow2_pos e : 0 < pow2 e.
Proof. apply Qpower_0_lt. reflexivity. Qed.

Lemma pow2_add a b : pow2 (a + b) == pow2 a * pow2 b.
Proof. apply Qpower_plus. discriminate. Qed.

Lemma pow2_le a b : (a <= b)%Z -> pow2 a <= pow2 b.
Proof. intros H. apply Qpower_le_compat_l; [exact H|]. discriminate. Qed.

Lemma pow2_lt a b : (a < b)%Z -> pow2 a < pow2 b.
Proof. intros H. apply Qpower_lt_compat_l; [exact H|]. reflexivity. Qed.

Lemma pow2_Z n : (0 <= n)%Z -> pow2 n == inject_Z (2 ^ n).
Proof. intros H. unfold pow2. by rewrite Zpower_Qpower. Qed.

Lemma pow2_inv e : pow2 (- e) * pow2 e == 1.
Proof. rewrite <- pow2_add. by replace (- e + e)%Z with 0%Z by lia. Qed.

Lemma Qabs_cases x : (0 <= x /\ Qabs x == x) \/ (x <= 0 /\ Qabs x == - x).
Proof.
  destruct (Qlt_le_dec x 0) as [H|H].
  - right. split; [lra|]. apply Qabs_neg. lra.
  - left. split; [lra|]. by apply Qabs_pos.
Qed.

Lemma inject_Z_le a b : (a <= b)%Z -> inject_Z a <= inject_Z b.
Proof. by rewrite <- Zle_Qle. Qed.

Lemma inject_Z_succ a b : (a < b)%Z -> inject_Z a + 1 <= inject_Z b.
Proof.
  intros H. change 1 with (inject_Z 1). rewrite <- inject_Z_plus.
  apply inject_Z_le. lia.
Qed.

Ltac abs_cases :=
  repeat match goal with
         | |- context [Qabs ?a] =>
             let H := fresh in
             destruct (Qabs_cases a) as [[? H]|[? H]];
             rewrite H in *; clear H
         | _ : context [Qabs ?a] |- _ =>
             let H := fresh in
             destruct (Qabs_cases a) as [[? H]|[? H]];
             rewrite H in *; clear H
         end.

Lemma floor_bounds q :
  inject_Z (Qfloor q) <= q /\ q < inject_Z (Qfloor q) + 1.
Proof.
  split; [apply Qfloor_le|].
  pose proof (Qlt_floor q) as H. by rewrite inject_Z_plus in H.
Qed.

Lemma integer_cases (j n : Z) :
  inject_Z j + 1 <= inject_Z n \/ j = n \/ inject_Z n + 1 <= inject_Z j.
Proof.
  destruct (Z.lt_trichotomy j n) as [H|[H|H]];
    [left|right; by left|right; right]; by apply inject_Z_succ.
Qed.

Lemma integer_cases_Q (j n : Z) :
  inject_Z j + 1 <= inject_Z n \/ inject_Z j == inject_Z n
  \/ inject_Z n + 1 <= inject_Z j.
Proof. destruct (integer_cases j n) as [?|[->|?]]; auto. right. by left. Qed.

Lemma round_half_even_nearest q j :
  Qabs (inject_Z (round_half_even q) - q) <= Qabs (inject_Z j - q).
Proof.
  unfold round_half_even.
  destruct (floor_bounds q) as [H1 H2].
  set (n := Qfloor q) in *.
  assert (inject_Z (n + 1) == inject_Z n + 1) as Hn1
    by (by rewrite inject_Z_plus).
  pose proof (integer_cases_Q j n) as Hj.
  pose proof (integer_cases_Q j (n + 1)) as Hj'.
  destruct (Qcompare_spec (q - inject_Z n) (1 # 2)) as [E|E|E];
    [destruct (Z.even n)| |];
    rewrite ?Hn1; rewrite Hn1 in Hj';
    destruct Hj as [?|[?|?]]; destruct Hj' as [?|[?|?]];
    abs_cases; lra.
Qed.

Lemma round_half_even_tie q j :
  j <> round_half_even q ->
  Qabs (inject_Z j - q) == Qabs (inject_Z (round_half_even q) - q) ->
  Z.even (round_half_even q) = true.
Proof.
  unfold round_half_even.
  destruct (floor_bounds q) as [H1 H2].
  set (n := Qfloor q) in *.
  assert (inject_Z (n + 1) == inject_Z n + 1) as Hn1
    by (by rewrite inject_Z_plus).
  intros Hne Habs.
  destruct (Qcompare_spec (q - inject_Z n) (1 # 2)) as [E|E|E].
  - destruct (Z.even n) eqn:En; [done|].
    rewrite Z.add_1_r, Z.even_succ, <- Z.negb_even. by rewrite En.
  - exfalso.
    destruct (integer_cases j n) as [?|[?|?]]; [|done|];
      abs_cases; lra.
  - exfalso. rewrite Hn1 in Habs.
    destruct (integer_cases j (n + 1)) as [H|[?|H]]; [|done|];
      rewrite Hn1 in H; abs_cases; lra.
Qed.

Lemma Qnum_den q : q * inject_Z (Zpos (Qden q)) == inject_Z (Qnum q).
Proof.
  destruct q as [n d]. unfold Qeq, Qmult, inject_Z. simpl. lia.
Qed.

Lemma log2_bounds (n : Z) :
  (0 < n)%Z ->
  pow2 (Z.log2 n) <= inject_Z n /\ inject_Z n < pow2 (Z.log2 n + 1).
Proof.
  intros Hn. destruct (Z.log2_spec n Hn) as [H1 H2].
  pose proof (Z.log2_nonneg n) as H0.
  rewrite !pow2_Z by lia. split.
  - by apply inject_Z_le.
  - rewrite <- Zlt_Qlt. by rewrite <- Z.add_1_r in H2.
Qed.

Lemma binade_spec q :
  0 < q -> pow2 (binade q) <= q /\ q < pow2 (binade q + 1).
Proof.
  intros Hq. unfold binade.
  assert (0 < Qnum q)%Z as Hn
    by (destruct q as [n d]; unfold Qlt in Hq; simpl in *; lia).
  destruct (log2_bounds (Qnum q) Hn) as [Ha1 Ha2].
  destruct (log2_bounds (Zpos (Qden q)) eq_refl) as [Hb1 Hb2].
  pose proof (Qnum_den q) as Hnd.
  set (a := Z.log2 (Qnum q)) in *. set (b := Z.log2 (Zpos (Qden q))) in *.
  set (N := inject_Z (Qnum q)) in *. set (D := inject_Z (Zpos (Qden q))) in *.
  assert (0 < D) as HD by (pose proof (pow2_pos b); lra).
  assert (pow2 (a - b - 1) <= q) as HA.
  { apply (Qmult_le_r _ _ D HD). rewrite Hnd.
    apply Qle_trans with (pow2 (a - b - 1) * pow2 (b + 1)).
    - apply Qmult_le_l; [apply pow2_pos|lra].
    - rewrite <- pow2_add.
      by replace (a - b - 1 + (b + 1))%Z with a by lia. }
  assert (q < pow2 (a - b + 1)) as HB.
  { apply (Qmult_lt_r _ _ D HD). rewrite Hnd.
    apply Qlt_le_trans with (pow2 (a - b + 1) * pow2 b).
    - rewrite <- pow2_add.
      by replace (a - b + 1 + b)%Z with (a + 1)%Z by lia.
    - apply Qmult_le_l; [apply pow2_pos|lra]. }
  destruct (Qle_bool (pow2 (a - b)) q) eqn:E.
  - apply Qle_bool_iff in E. by split.
  - split; [done|].
    replace (a - b - 1 + 1)%Z with (a - b)%Z by lia.
    apply Qnot_le_lt. intros H. apply Qle_bool_iff in H. congruence.
Qed.

Section Rounding.

Variables (q s : Q) (e m : Z).
Hypothesis Hs : q == s * pow2 e.
Hypothesis Hnear :
  forall j, Qabs (inject_Z m - s) <= Qabs (inject_Z j - s).
Hypothesis Htie :
  forall j, j <> m -> Qabs (inject_Z j - s) == Qabs (inject_Z m - s) ->
            Z.even m = true.
Hypothesis He : (-1074 <= e)%Z.
Hypothesis Hs0 : 0 <= s.
Hypothesis Hhi : s < inject_Z (2 ^ 53).
Hypothesis Hlo : (-1074 < e)%Z -> inject_Z (2 ^ 52) <= s.

Let P := pow2 e.
Let x := inject_Z m * pow2 e.

Lemma m_bounds :
  (0 <= m <= 2 ^ 53)%Z /\ ((-1074 < e)%Z -> (2 ^ 52 <= m)%Z).
Proof.
  split; [split|intros H; apply Hlo in H].
  - destruct (Z_le_gt_dec 0 m) as [|Hm]; [done|exfalso].
    pose proof (Hnear 0) as H. change (inject_Z 0) with 0 in H.
    assert (inject_Z m + 1 <= 0) by (apply (inject_Z_succ m 0); lia).
    abs_cases; lra.
  - destruct (Z_le_gt_dec m (2 ^ 53)) as [|Hm]; [done|exfalso].
    pose proof (Hnear (2 ^ 53)) as H.
    assert (inject_Z (2 ^ 53) + 1 <= inject_Z m)
      by (apply inject_Z_succ; lia).
    abs_cases; lra.
  - destruct (Z_le_gt_dec (2 ^ 52) m) as [|Hm]; [done|exfalso].
    pose proof (Hnear (2 ^ 52)) as H'.
    assert (inject_Z m + 1 <= inject_Z (2 ^ 52))
      by (apply inject_Z_succ; lia).
    abs_cases; lra.
Qed.

Lemma scaled_abs a : Qabs (a * pow2 e - q) == Qabs (a - s) * pow2 e.
Proof.
  rewrite Hs.
  assert (a * pow2 e - s * pow2 e == (a - s) * pow2 e) as -> by ring.
  rewrite Qabs_Qmult. rewrite (Qabs_pos (pow2 e)); [done|].
  apply Qlt_le_weak, pow2_pos.
Qed.

Lemma grid_nearest j : Qabs (x - q) <= Qabs (inject_Z j * pow2 e - q).
Proof.
  unfold x. rewrite !scaled_abs. apply Qmult_le_r; [apply pow2_pos|].
  apply Hnear.
Qed.

Lemma grid_tie j :
  ~ inject_Z j * pow2 e == x ->
  Qabs (inject_Z j * pow2 e - q) == Qabs (x - q) -> Z.even m = true.
Proof.
  unfold x. rewrite !scaled_abs. intros Hne Habs. apply (Htie j).
  - intros ->. by apply Hne.
  - pose proof (pow2_pos e).
    apply (Qmult_inj_r _ _ (pow2 e)); [lra|done].
Qed.

(** A binary64 number is on the grid of [2^e], or below the binade. *)
Lemma binary64_grid y :
  is_binary64 y ->
  (exists j, y == inject_Z j * pow2 e)
  \/ ((-1074 < e)%Z /\ y < inject_Z (2 ^ 52) * pow2 e).
Proof.
  intros (m' & e' & Hm' & He' & Hy).
  destruct (Z_le_gt_dec e e') as [Hee|Hee].
  - left. exists (m' * 2 ^ (e' - e))%Z.
    rewrite Hy, inject_Z_mult, <- pow2_Z by lia.
    rewrite <- Qmult_assoc, <- pow2_add.
    by replace (e' - e + e)%Z with e' by lia.
  - right. split; [lia|]. rewrite Hy.
    assert (pow2 e == 2 * pow2 (e - 1)) as ->.
    { change 2 with (pow2 1). rewrite <- pow2_add.
      by replace (1 + (e - 1))%Z with e by lia. }
    pose proof (pow2_pos e') as Hp'. pose proof (pow2_pos (e - 1)) as Hp.
    assert (pow2 e' <= pow2 (e - 1)) as Hle by (apply pow2_le; lia).
    destruct (Z_le_gt_dec m' 0) as [Hm0|Hm0].
    + apply Qle_lt_trans with 0.
      * assert (0 == 0 * pow2 e') as -> by ring.
        apply Qmult_le_r; [done|]. by apply (inject_Z_le m' 0).
      * apply Qmult_lt_0_compat; [reflexivity|].
        apply Qmult_lt_0_compat; [reflexivity|done].
    + apply Qlt_le_trans with (inject_Z (2 ^ 53) * pow2 e').
      * apply Qmult_lt_r; [done|]. rewrite <- Zlt_Qlt. lia.
      * assert (inject_Z (2 ^ 52) * (2 * pow2 (e - 1))
                == inject_Z (2 ^ 53) * pow2 (e - 1)) as ->.
        { change (2 ^ 53)%Z with (2 ^ 52 * 2)%Z. rewrite inject_Z_mult.
          change (inject_Z 2) with 2. ring. }
        apply Qmult_le_l; [reflexivity|done].
Qed.

Lemma rounding_nearest y : is_binary64 y -> Qabs (x - q) <= Qabs (y - q).
Proof.
  intros Hy. destruct (binary64_grid y Hy) as [[j ->]|[He' Hlt]].
  - apply grid_nearest.
  - apply Qlt_le_weak.
    apply Qle_lt_trans with (Qabs (inject_Z (2 ^ 52) * pow2 e - q)).
    + apply grid_nearest.
    + assert (inject_Z (2 ^ 52) * pow2 e <= q) as Hq.
      { rewrite Hs. apply Qmult_le_r; [apply pow2_pos|]. by apply Hlo. }
      abs_cases; lra.
Qed.

Lemma rounding_tie y :
  is_binary64 y -> ~ y == x -> Qabs (y - q) == Qabs (x - q) ->
  Z.even m = true.
Proof.
  intros Hy Hne Habs. destruct (binary64_grid y Hy) as [[j Hj]|[He' Hlt]].
  - apply (grid_tie j); by rewrite <- Hj.
  - exfalso.
    pose proof (grid_nearest (2 ^ 52)) as Hg.
    assert (inject_Z (2 ^ 52) * pow2 e <= q) as Hq.
    { rewrite Hs. apply Qmult_le_r; [apply pow2_pos|]. by apply Hlo. }
    abs_cases; lra.
Qed.

Lemma finite_exponent :
  x < pow2 1024 -> (e <= 971)%Z /\ (m = (2 ^ 53)%Z -> (e < 971)%Z).
Proof.
  intros Hx. destruct m_bounds as [Hm Hm']. split.
  - destruct (Z_le_gt_dec e 971) as [|Hgt]; [done|exfalso].
    assert (pow2 1024 <= x); [|lra].
    assert (pow2 1024 == inject_Z (2 ^ 52) * pow2 972) as ->
      by (by vm_compute).
    apply Qle_trans with (inject_Z m * pow2 972).
    + apply Qmult_le_r; [apply pow2_pos|]. apply inject_Z_le. lia.
    + unfold x. apply Qmult_le_l; [|apply pow2_le; lia].
      apply (Qlt_le_trans _ (inject_Z (2 ^ 52))); [reflexivity|].
      apply inject_Z_le. lia.
  - intros Hm53. destruct (Z_lt_ge_dec e 971) as [|Hge]; [done|exfalso].
    assert (pow2 1024 <= x); [|lra].
    assert (pow2 1024 == inject_Z (2 ^ 53) * pow2 971) as ->
      by (by vm_compute).
    unfold x. rewrite Hm53. apply Qmult_le_l; [reflexivity|].
    apply pow2_le. lia.
Qed.

Lemma pow2_succ a : pow2 (a + 1) == 2 * pow2 a.
Proof. rewrite pow2_add. change (pow2 1) with 2. ring. Qed.

Lemma rounding_finite : x < pow2 1024 -> is_binary64 x.
Proof.
  intros Hx. destruct m_bounds as [Hm _].
  destruct (finite_exponent Hx) as [He1 He2].
  destruct (Z.eq_dec m (2 ^ 53)%Z) as [Hm53|Hm53].
  - exists (2 ^ 52)%Z, (e + 1)%Z. split; [done|]. split; [lia|].
    unfold x. rewrite Hm53, pow2_succ.
    change (2 ^ 53)%Z with (2 ^ 52 * 2)%Z. rewrite inject_Z_mult.
    change (inject_Z 2) with 2. ring.
  - exists m, e. split; [lia|]. split; [lia|]. reflexivity.
Qed.

Lemma rounding_even :
  x < pow2 1024 -> Z.even m = true -> is_even_binary64 x.
Proof.
  intros Hx Hev. destruct m_bounds as [Hm _].
  destruct (finite_exponent Hx) as [He1 He2].
  destruct (Z.eq_dec m (2 ^ 53)%Z) as [Hm53|Hm53].
  - exists (2 ^ 51)%Z, (e + 1)%Z. split; [done|]. split; [lia|].
    unfold x. rewrite Hm53, pow2_succ.
    change (2 ^ 53)%Z with (2 * 2 ^ 51 * 2)%Z.
    rewrite (inject_Z_mult _ 2). change (inject_Z 2) with 2. ring.
  - apply Z.even_spec in Hev as [k Hk]. exists k, e.
    rewrite <- Hk. split; [lia|]. split; [lia|]. reflexivity.
Qed.

Lemma threshold_eq :
  overflow_threshold == (inject_Z (2 ^ 53) - (1 # 2)) * pow2 971.
Proof. by vm_compute. Qed.

Lemma rounding_overflow : pow2 1024 <= x <-> overflow_threshold <= q.
Proof.
  destruct m_bounds as [Hm Hm']. split.
  - intros Hx. destruct (Z_le_gt_dec e 971) as [Hle|Hgt].
    + assert (m = (2 ^ 53)%Z /\ e = 971%Z) as [Hm53 ->].
      { assert (pow2 1024 == inject_Z (2 ^ 53) * pow2 971) as HT
          by (by vm_compute).
        split.
        - destruct (Z.eq_dec m (2 ^ 53)%Z) as [|Hne]; [done|exfalso].
          assert (x < pow2 1024); [|lra]. rewrite HT. unfold x.
          apply Qlt_le_trans with (inject_Z (2 ^ 53) * pow2 e).
          + apply Qmult_lt_r; [apply pow2_pos|]. rewrite <- Zlt_Qlt. lia.
          + apply Qmult_le_l; [reflexivity|]. by apply pow2_le.
        - destruct (Z.eq_dec e 971%Z) as [|Hne]; [done|exfalso].
          assert (x < pow2 1024); [|lra]. rewrite HT. unfold x.
          apply Qle_lt_trans with (inject_Z (2 ^ 53) * pow2 e).
          + apply Qmult_le_r; [apply pow2_pos|]. apply inject_Z_le. lia.
          + apply Qmult_lt_l; [reflexivity|]. apply pow2_lt. lia. }
      rewrite threshold_eq, Hs. apply Qmult_le_r; [apply pow2_pos|].
      pose proof (Hnear (2 ^ 53 - 1)) as Hn. rewrite Hm53 in Hn.
      assert (inject_Z (2 ^ 53 - 1) == inject_Z (2 ^ 53) - 1) as Hp
        by (by vm_compute).
      rewrite Hp in Hn. abs_cases; lra.
    + apply Qle_trans with (pow2 1024).
      { unfold overflow_threshold. pose proof (pow2_pos 970). lra. }
      assert (pow2 1024 == inject_Z (2 ^ 52) * pow2 972) as ->
        by (by vm_compute).
      rewrite Hs. apply Qle_trans with (inject_Z (2 ^ 52) * pow2 e).
      * apply Qmult_le_l; [reflexivity|]. apply pow2_le. lia.
      * apply Qmult_le_r; [apply pow2_pos|]. apply Hlo. lia.
  - intros Hq. apply Qnot_lt_le. intros Hx.
    destruct (finite_exponent Hx) as [He1 He2].
    assert (q < overflow_threshold); [|lra].
    destruct (Z.eq_dec e 971%Z) as [He971|Hne].
    + rewrite threshold_eq, Hs, He971.
      apply Qmult_lt_r; [apply pow2_pos|].
      apply Qnot_le_lt. intros Hge.
      assert (m <> (2 ^ 53)%Z) as Hm53 by (intros H; apply He2 in H; lia).
      pose proof (Hnear (2 ^ 53)) as Hn.
      assert (inject_Z m + 1 <= inject_Z (2 ^ 53)) as Hle
        by (apply inject_Z_succ; lia).
      assert (m = (2 ^ 53 - 1)%Z) as Hm1.
      { assert (inject_Z (2 ^ 53 - 1) <= inject_Z m) as H.
        { assert (inject_Z (2 ^ 53 - 1) == inject_Z (2 ^ 53) - 1) as ->
            by (by vm_compute).
          abs_cases; lra. }
        rewrite <- Zle_Qle in H. lia. }
      assert (Z.even m = true) as Hev.
      { apply (Htie (2 ^ 53)%Z); [lia|].
        rewrite Hm1.
        assert (inject_Z (2 ^ 53 - 1) == inject_Z (2 ^ 53) - 1) as ->
          by (by vm_compute).
        rewrite Hm1 in Hn.
        assert (inject_Z (2 ^ 53 - 1) == inject_Z (2 ^ 53) - 1) as Hp
          by (by vm_compute).
        rewrite Hp in Hn. abs_cases; lra. }
      by rewrite Hm1 in Hev.
    + apply Qlt_le_trans with (pow2 1023).
      * assert (pow2 1023 == inject_Z (2 ^ 53) * pow2 970) as ->
          by (by vm_compute).
        rewrite Hs. apply Qlt_le_trans with (inject_Z (2 ^ 53) * pow2 e).
        -- by apply Qmult_lt_r; [apply pow2_pos|].
        -- apply Qmult_le_l; [reflexivity|]. apply pow2_le. lia.
      * by vm_compute.
Qed.

End Rounding.

Lemma round_half_even_0 s : s == 0 -> round_half_even s = 0%Z.
Proof.
  intros Hs. unfold round_half_even.
  rewrite (Qfloor_comp _ _ Hs). change (Qfloor 0) with 0%Z.
  assert (s - inject_Z 0 == 0) as -> by (rewrite Hs; reflexivity).
  reflexivity.
Qed.

Lemma nearest_even_comp q x x' :
  x == x' -> nearest_even q x -> nearest_even q x'.
Proof.
  intros Hx (H1 & H2 & H3). split; [|split].
  - destruct H1 as (m & e & ? & ? & H). exists m, e. by rewrite <- Hx.
  - intros y Hy. rewrite <- Hx. by apply H2.
  - intros y Hy Hne Habs.
    destruct (H3 y Hy) as (m & e & ? & ? & H).
    + by rewrite Hx.
    + by rewrite Hx.
    + exists m, e. by rewrite <- Hx.
Qed.

(** [binary64] rounds to the nearest number, to the even one of two that
    are equally near, and to infinity from the middle between the largest
    number and [2^1024] on. *)
Lemma binary64_rounds q : 0 <= q -> rounds_to q (binary64 q).
Proof.
  intros Hq. unfold binary64.
  set (e := Z.max (binade q - 52) (-1074)).
  set (s := q * pow2 (- e)). set (m := round_half_even s).
  assert (q == s * pow2 e) as Hs.
  { unfold s. rewrite <- Qmult_assoc, pow2_inv. ring. }
  destruct (Qle_lt_or_eq _ _ Hq) as [Hpos|Hzero].
  - assert (0 <= s) as Hs0.
    { unfold s. apply Qmult_le_0_compat; [done|].
      apply Qlt_le_weak, pow2_pos. }
    destruct (binade_spec q Hpos) as [Hb1 Hb2].
    assert (s < inject_Z (2 ^ 53)) as Hhi.
    { apply (Qmult_lt_r _ _ (pow2 e)); [apply pow2_pos|]. rewrite <- Hs.
      rewrite <- pow2_Z, <- pow2_add by done.
      apply Qlt_le_trans with (pow2 (binade q + 1)); [done|].
      apply pow2_le. lia. }
    assert ((-1074 < e)%Z -> inject_Z (2 ^ 52) <= s) as Hlo.
    { intros He. apply (Qmult_le_r _ _ (pow2 e)); [apply pow2_pos|].
      rewrite <- Hs, <- pow2_Z, <- pow2_add by done.
      by replace (52 + e)%Z with (binade q) by lia. }
    assert (-1074 <= e)%Z as He by lia.
    pose proof (round_half_even_nearest s) as Hnear.
    pose proof (round_half_even_tie s) as Htie.
    fold m in Hnear, Htie.
    destruct (Qle_bool (pow2 1024) (inject_Z m * pow2 e)) eqn:E.
    + apply Qle_bool_iff in E. by apply (rounding_overflow q s e m Hs Hnear Htie He Hs0 Hhi Hlo).
    + assert (inject_Z m * pow2 e < pow2 1024) as Hx.
      { apply Qnot_le_lt. intros H. apply Qle_bool_iff in H. congruence. }
      split.
      * apply Qnot_le_lt. intros H.
        apply (rounding_overflow q s e m Hs Hnear Htie He Hs0 Hhi Hlo) in H. lra.
      * apply (nearest_even_comp q (inject_Z m * pow2 e));
          [by rewrite Qred_correct|].
        split; [|split].
        -- exact (rounding_finite s e m Hnear He Hs0 Hhi Hlo Hx).
        -- exact (rounding_nearest q s e m Hs Hnear Hlo).
        -- intros y Hy Hne Habs. apply (rounding_even s e m Hnear He Hs0 Hhi Hlo Hx).
           by apply (rounding_tie q s e m Hs Hnear Htie Hlo y).
  - assert (m = 0%Z) as ->.
    { apply round_half_even_0. unfold s. rewrite <- Hzero. ring. }
    assert (inject_Z 0 * pow2 e == 0) as Hx by ring.
    rewrite (Qleb_comp _ _ (reflexivity _) _ _ Hx).
    change (Qle_bool (pow2 1024) 0) with false. cbv iota.
    split; [rewrite <- Hzero; by vm_compute|].
    apply (nearest_even_comp q 0); [by rewrite Qred_correct, Hx|].
    split; [|split].
    + exists 0%Z, 0%Z. by vm_compute.
    + intros y _. rewrite <- Hzero.
      assert (Qabs (0 - 0) == 0) as -> by reflexivity. apply Qabs_nonneg.
    + intros y _ Hne Habs. exfalso. apply Hne.
      rewrite <- Hzero in Habs. abs_cases; lra.
Qed.

(** The two readings of a decimal numeral agree. *)
Lemma rounds_to_comp q q' t : q == q' -> rounds_to q t -> rounds_to q' t.
Proof.
  intros Hq. destruct t as [x| |[]]; simpl; try done.
  - intros [Hlt (H1 & H2 & H3)]. split; [by rewrite <- Hq|].
    split; [done|]. split.
    + intros y Hy. rewrite <- Hq. by apply H2.
    + intros y Hy Hne Habs. apply (H3 y Hy Hne). by rewrite Hq.
  - by rewrite Hq.
Qed.

Lemma digits_from_whole (s : str) acc :
  fold_left (fun a c => a * 10 + digit_value c)%Z s acc
  = (acc * 10 ^ Z.of_nat (length s) + whole s)%Z.
Proof.
  revert acc. induction s as [|c s IH]; intros acc; simpl length.
  - simpl. lia.
  - cbn [fold_left whole]. rewrite IH, Nat2Z.inj_succ, Z.pow_succ_r by lia.
    lia.
Qed.

Lemma digits_value_whole s : digits_value 10 s = whole s.
Proof. unfold digits_value. rewrite digits_from_whole. lia. Qed.

Lemma whole_app s1 s2 :
  whole (s1 ++ s2) = (whole s1 * 10 ^ Z.of_nat (length s2) + whole s2)%Z.
Proof.
  induction s1 as [|c s1 IH]; simpl app; cbn [whole]; [lia|].
  rewrite IH, length_app, Nat2Z.inj_add, Z.pow_add_r by lia. lia.
Qed.

Lemma fraction_whole s :
  fraction s * inject_Z (10 ^ Z.of_nat (length s)) == inject_Z (whole s).
Proof.
  induction s as [|c s IH]; [reflexivity|].
  cbn [fraction whole length].
  rewrite Nat2Z.inj_succ, Z.pow_succ_r by lia.
  rewrite inject_Z_plus, !inject_Z_mult, <- IH.
  change (inject_Z 10) with 10. field.
Qed.

Lemma decimal_value_decimal T1 T2 :
  T2 <> [] -> decimal_value T1 T2 == decimal T1 T2.
Proof.
  intros Hne. unfold decimal_value, decimal. rewrite Qred_correct.
  set (k := Z.of_nat (length T2)).
  assert (Zpos (10 ^ Pos.of_nat (length T2)) = 10 ^ k)%Z as Hden.
  { rewrite Pos2Z.inj_pow. f_equal. unfold k.
    destruct T2; [done|]. simpl length. lia. }
  assert (0 < inject_Z (10 ^ k)) as Hpos.
  { rewrite <- (Zlt_Qlt 0). apply Z.pow_pos_nonneg; lia. }
  apply (Qmult_inj_r _ _ (inject_Z (10 ^ k))); [lra|].
  rewrite Qmult_plus_distr_l.
  rewrite (fraction_whole T2 : fraction T2 * inject_Z (10 ^ k) == _).
  rewrite <- inject_Z_mult, <- inject_Z_plus. unfold k.
  rewrite <- whole_app. fold k.
  rewrite <- digits_value_whole, <- Hden.
  apply (Qnum_den (_ # _)).
Qed.

Lemma digit_value_nonneg c : is_digit c = true -> (0 <= digit_value c)%Z.
Proof.
  unfold digit_value, is_digit. intros H. rewrite H.
  apply andb_prop in H as [H _]. apply N.leb_le in H. lia.
Qed.

Lemma whole_nonneg s : forallb is_digit s = true -> (0 <= whole s)%Z.
Proof.
  induction s as [|c s IH]; simpl; [done|].
  intros [Hc Hs]%andb_prop. pose proof (digit_value_nonneg c Hc).
  specialize (IH Hs). nia.
Qed.

Lemma fraction_nonneg s : forallb is_digit s = true -> 0 <= fraction s.
Proof.
  induction s as [|c s IH]; simpl; [done|].
  intros [Hc Hs]%andb_prop. pose proof (digit_value_nonneg c Hc) as H.
  apply (inject_Z_le 0) in H. change (inject_Z 0) with 0 in H.
  specialize (IH Hs). apply Qle_shift_div_l; [reflexivity|]. lra.
Qed.

Lemma decimal_nonneg T1 T2 :
  forallb is_digit T1 = true -> forallb is_digit T2 = true ->
  0 <= decimal T1 T2.
Proof.
  intros H1 H2. unfold decimal.
  pose proof (inject_Z_le 0 _ (whole_nonneg T1 H1)) as H.
  change (inject_Z 0) with 0 in H.
  pose proof (fraction_nonneg T2 H2). lra.
Qed.

(** The specification leaves no choice: two numbers that both meet it
    are equal. *)
Lemma even_neighbour q x x' k e k' e' :
  (e <= e')%Z -> (-1074 <= e <= 971)%Z ->
  (Z.abs (2 * k) < 2 ^ 53)%Z ->
  x == inject_Z (2 * k) * pow2 e ->
  x' == inject_Z (2 * k') * pow2 e' ->
  ~ x' == x ->
  Qabs (x' - q) == Qabs (x - q) ->
  (forall y, is_binary64 y -> Qabs (x - q) <= Qabs (y - q)) ->
  False.
Proof.
  intros Hee He Hk Hx Hx' Hne Habs Hnear.
  pose proof (pow2_pos e) as HP.
  set (j := (k' * 2 ^ (e' - e))%Z).
  assert (x' == inject_Z j * (2 * pow2 e)) as Hj.
  { rewrite Hx'. unfold j. rewrite !inject_Z_mult, <- pow2_Z by lia.
    change (inject_Z 2) with 2.
    assert (pow2 e' == pow2 (e' - e) * pow2 e) as ->.
    { rewrite <- pow2_add. by replace (e' - e + e)%Z with e' by lia. }
    ring. }
  assert (x == inject_Z k * (2 * pow2 e)) as Hk2.
  { rewrite Hx, inject_Z_mult. change (inject_Z 2) with 2. ring. }
  destruct (Z.lt_trichotomy k j) as [Hlt|[Heq|Hgt]].
  - assert (is_binary64 (inject_Z (2 * k + 1) * pow2 e)) as Hz
      by (exists (2 * k + 1)%Z, e; split; [lia|]; by split).
    apply Hnear in Hz.
    assert (inject_Z (2 * k + 1) * pow2 e == x + pow2 e) as Hz'.
    { rewrite Hx, inject_Z_plus. change (inject_Z 1) with 1. ring. }
    rewrite Hz' in Hz.
    assert (x + 2 * pow2 e <= x') as Hfar.
    { rewrite Hk2, Hj.
      assert (inject_Z k * (2 * pow2 e) + 2 * pow2 e
              == (inject_Z k + 1) * (2 * pow2 e)) as -> by ring.
      apply Qmult_le_r; [lra|]. by apply inject_Z_succ. }
    abs_cases; lra.
  - apply Hne. by rewrite Hj, Hk2, Heq.
  - assert (is_binary64 (inject_Z (2 * k - 1) * pow2 e)) as Hz
      by (exists (2 * k - 1)%Z, e; split; [lia|]; by split).
    apply Hnear in Hz.
    assert (inject_Z (2 * k - 1) * pow2 e == x - pow2 e) as Hz'.
    { rewrite Hx. unfold Z.sub. rewrite inject_Z_plus.
      change (inject_Z (- (1))) with (- (1)). ring. }
    rewrite Hz' in Hz.
    assert (x' + 2 * pow2 e <= x) as Hfar.
    { rewrite Hk2, Hj.
      assert (inject_Z j * (2 * pow2 e) + 2 * pow2 e
              == (inject_Z j + 1) * (2 * pow2 e)) as -> by ring.
      apply Qmult_le_r; [lra|]. by apply inject_Z_succ. }
    abs_cases; lra.
Qed.

Lemma nearest_even_unique q x x' :
  nearest_even q x -> nearest_even q x' -> x == x'.
Proof.
  intros (H1 & H2 & H3) (H1' & H2' & H3').
  destruct (Qeq_dec x x') as [|Hne]; [done|exfalso].
  assert (Qabs (x' - q) == Qabs (x - q)) as Habs.
  { apply Qle_antisym; [by apply H2'|by apply H2]. }
  assert (~ x' == x) as Hne' by (intros H; by apply Hne).
  destruct (H3 x' H1' Hne' Habs) as (k & e & Hk & He & Hx).
  assert (Qabs (x - q) == Qabs (x' - q)) as Habs' by (by symmetry).
  destruct (H3' x H1 Hne Habs') as (k' & e' & Hk' & He' & Hx').
  destruct (Z_le_gt_dec e e') as [Hee|Hee].
  - by apply (even_neighbour q x x' k e k' e').
  - apply (even_neighbour q x' x k' e' k e); try done. lia.
Qed.

(** One float at most is the rounding of a number. *)
Lemma rounds_to_unique q t t' :
  rounds_to q t -> rounds_to q t' -> same_float t t'.
Proof.
  destruct t as [x| |[]], t' as [x'| |[]]; simpl; try done.
  - intros [_ H] [_ H']. by apply (nearest_even_unique q).
  - intros [H _] H'. lra.
  - intros H [H' _]. lra.
Qed.

End FloatingPoint.

(** ** The conversions of the groups *)

Lemma float_decimal T1 T2 :
  run is_digit T1 -> run is_digit T2 ->
  float (T1 ++ chars "." ++ T2) = Ok (binary64 (decimal_value T1 T2)).
Proof.
  intros [Hne1 H1] [Hne2 H2]. unfold float. simpl.
  assert (stops is_digit ("."%char :: T2)) as Hs by done.
  unfold take_run, drop_run. rewrite run_length_app by done.
  rewrite take_app_length, drop_app_length. simpl.
  rewrite H2. destruct T1; [done|]. destruct T2; [done|]. done.
Qed.

Lemma binary64_not_nan q : is_nan (binary64 q) = false.
Proof. unfold binary64. by destruct (Qle_bool _ _). Qed.

(** [float] gives the number of 64 bits that the numeral rounds to. *)
Lemma float_rounds T1 T2 :
  run is_digit T1 -> run is_digit T2 ->
  exists t,
    float (T1 ++ chars "." ++ T2) = Ok t /\ rounds_to (decimal T1 T2) t.
Proof.
  intros H1 H2. exists (binary64 (decimal_value T1 T2)).
  split; [by apply float_decimal|].
  pose proof (decimal_value_decimal T1 T2 (proj1 H2)) as Heq.
  apply (rounds_to_comp (decimal_value T1 T2)); [done|].
  apply binary64_rounds. rewrite Heq. apply decimal_nonneg; [apply H1|apply H2].
Qed.

Lemma int16_hex s : run is_hex s -> int16 s = Ok (digits_value 16 s).
Proof. intros [Hne H]. unfold int16. rewrite H. by destruct s. Qed.

(** ** One line of the trace *)

Lemma scan_line_conforms v f acc :
  conforms v f ->
  scan_line (grammar v) (text f) acc =
  Ok (push acc (binary64 (decimal_value (time_int f) (time_frac f)))
           (digits_value 16 (id f)) (payload_text (rest f))).
Proof.
  intros Hf. destruct (conforms_accepts v f Hf) as (m & Hm & g4 & -> & Hg4).
  unfold scan_line, re_match. rewrite Hm. simpl.
  pose proof (float_decimal _ _ (time_int_ok _ _ Hf) (time_frac_ok _ _ Hf))
    as Hfl. simpl in Hfl. rewrite Hfl. simpl.
  rewrite int16_hex by apply Hf. simpl. by rewrite Hg4.
Qed.

Lemma scan_line_skip v line acc :
  (forall f, conforms v f -> line <> text f) ->
  scan_line (grammar v) line acc = Ok acc.
Proof.
  intros Hno. unfold scan_line.
  destruct (re_match (grammar v) line) as [m|] eqn:Hm; [|done].
  apply match_conforms in Hm as (f & Hf & ->). by destruct (Hno f Hf).
Qed.

Lemma scan_line_no_match p line acc :
  re_match p line = None -> scan_line p line acc = Ok acc.
Proof. unfold scan_line. by intros ->. Qed.

Lemma scan_line_total v line acc :
  exists acc', scan_line (grammar v) line acc = Ok acc'.
Proof.
  destruct (re_match (grammar v) line) as [m|] eqn:Hm.
  - apply match_conforms in Hm as (f & Hf & ->).
    rewrite (scan_line_conforms v f acc Hf). eauto.
  - rewrite scan_line_no_match by done. eauto.
Qed.

Lemma scan_total v file acc : exists acc', scan (grammar v) file acc = Ok acc'.
Proof.
  revert acc. induction file as [|line file IH]; intros acc; simpl; [eauto|].
  destruct (scan_line_total v line acc) as [acc' ->]. simpl. apply IH.
Qed.

Lemma scan_app p file1 file2 acc :
  scan p (file1 ++ file2) acc =
  (try! acc' := scan p file1 acc in scan p file2 acc').
Proof.
  revert acc. induction file1 as [|line file1 IH]; intros acc; simpl; [done|].
  destruct (scan_line p line acc) as [acc'|e]; simpl; [apply IH|done].
Qed.

Lemma scan_skip p file1 line file2 acc :
  (forall acc', scan_line p line acc' = Ok acc') ->
  scan p (file1 ++ line :: file2) acc = scan p (file1 ++ file2) acc.
Proof.
  intros Hskip. rewrite !scan_app.
  destruct (scan p file1 acc) as [acc'|e]; simpl; [|done].
  by rewrite Hskip.
Qed.

(** ** The tokens of the payload *)

Lemma split_ws_from_spaces cur W :
  forallb is_space W = true ->
  split_ws_from cur W = match cur with [] => [] | _ => [reverse cur] end.
Proof.
  revert cur. induction W as [|w W IH]; intros cur; simpl; [done|].
  intros [Hw HW]%andb_prop. rewrite Hw.
  destruct cur; rewrite IH by done; done.
Qed.

Lemma split_ws_from_app_spaces cur s W :
  forallb is_space W = true ->
  split_ws_from cur (s ++ W) = split_ws_from cur s.
Proof.
  intros HW. revert cur. induction s as [|c s IH]; intros cur; simpl.
  - by apply split_ws_from_spaces.
  - destruct (is_space c); [destruct cur|]; by rewrite IH.
Qed.

Lemma split_ws_spaces_app W s :
  forallb is_space W = true -> split_ws (W ++ s) = split_ws s.
Proof.
  unfold split_ws. induction W as [|w W IH]; simpl; [done|].
  intros [Hw HW]%andb_prop. rewrite Hw. by apply IH.
Qed.

Lemma split_ws_lstrip s : split_ws (lstrip s) = split_ws s.
Proof.
  rewrite <- (take_drop_run is_space s) at 2.
  by rewrite split_ws_spaces_app by apply take_run_forallb.
Qed.

Lemma forallb_reverse (P : ascii -> bool) (s : str) :
  forallb P (reverse s) = forallb P s.
Proof.
  induction s as [|c s IH]; simpl; [done|].
  rewrite reverse_cons, forallb_app, IH. simpl. rewrite andb_true_r.
  apply andb_comm.
Qed.

Lemma split_ws_rstrip s : split_ws (rstrip s) = split_ws s.
Proof.
  unfold rstrip.
  rewrite <- (reverse_involutive s) at 2.
  rewrite <- (take_drop_run is_space (reverse s)) at 2.
  rewrite reverse_app. unfold split_ws.
  rewrite split_ws_from_app_spaces; [done|].
  rewrite forallb_reverse. apply take_run_forallb.
Qed.

Lemma split_ws_strip s : split_ws (strip s) = split_ws s.
Proof. unfold strip. by rewrite split_ws_rstrip, split_ws_lstrip. Qed.

Lemma split_ws_from_token cur tok s :
  (forall c, In c tok -> is_space c = false) ->
  split_ws_from cur (tok ++ s) = split_ws_from (reverse tok ++ cur) s.
Proof.
  revert cur. induction tok as [|c tok IH]; intros cur Hno; simpl; [done|].
  rewrite (Hno c) by by left. rewrite IH by (intros; apply Hno; by right).
  by rewrite reverse_cons, <- app_assoc.
Qed.

Lemma split_ws_from_flush cur s :
  cur <> [] -> breaks s ->
  split_ws_from cur s = reverse cur :: split_ws_from [] s.
Proof.
  intros Hne Hs. destruct s as [|c s]; simpl.
  - by destruct cur.
  - simpl in Hs. rewrite Hs. by destruct cur.
Qed.

Lemma split_ws_token tok s :
  run is_hex tok -> breaks s -> split_ws (tok ++ s) = tok :: split_ws s.
Proof.
  intros [Hne Hall] Hs. unfold split_ws. rewrite split_ws_from_token.
  - rewrite app_nil_r, split_ws_from_flush, reverse_involutive; [done| |done].
    intros E. apply (f_equal length) in E. rewrite length_reverse in E.
    by destruct tok.
  - intros c Hc. apply hex_not_space. by eapply forallb_forall in Hall.
Qed.

Lemma breaks_spaced toks W :
  spaced_ok toks -> forallb is_space W = true -> breaks (spaced toks ++ W).
Proof.
  intros Htoks HW. destruct toks as [|[sep tok] toks]; simpl.
  - destruct W as [|w W]; [done|]. simpl in *. by apply andb_prop in HW as [? _].
  - apply Forall_cons in Htoks as [[[Hne Hsep] _] _]. simpl in *.
    destruct sep as [|c sep]; [done|]. simpl in *.
    by apply andb_prop in Hsep as [? _].
Qed.

Lemma split_ws_spaced toks W :
  spaced_ok toks -> forallb is_space W = true ->
  split_ws (spaced toks ++ W) = map snd toks.
Proof.
  intros Htoks HW. induction toks as [|[sep tok] toks IH]; simpl.
  - unfold split_ws. by rewrite split_ws_from_spaces.
  - apply Forall_cons in Htoks as [[Hsep Htok] Htoks]. simpl in *.
    rewrite <- !app_assoc.
    rewrite split_ws_spaces_app by apply Hsep.
    rewrite split_ws_token; [|done|by apply breaks_spaced].
    by rewrite IH.
Qed.

Lemma spaced_hexws toks :
  spaced_ok toks -> forallb is_hexws (spaced toks) = true.
Proof.
  induction 1 as [|[sep tok] toks [[_ Hsep] [_ Htok]] _ IH]; simpl; [done|].
  simpl in *. rewrite !forallb_app, IH, !andb_true_r.
  apply andb_true_intro. split; apply forallb_forall; intros c Hc.
  - apply space_is_hexws. by eapply forallb_forall in Hsep.
  - apply hex_is_hexws. by eapply forallb_forall in Htok.
Qed.

(** The tokens of the payload are the byte tokens of the line, in the order
    of the line. *)
Lemma payload_tokens toks W tail :
  spaced_ok toks -> forallb is_space W = true -> stops is_hexws tail ->
  split_ws (payload_text (spaced toks ++ W ++ tail)) = map snd toks.
Proof.
  intros Htoks HW Htail. unfold payload_text.
  rewrite split_ws_strip, app_assoc, take_run_app.
  - rewrite (take_run_stops _ _ Htail), app_nil_r. by apply split_ws_spaced.
  - rewrite forallb_app, spaced_hexws by done. simpl.
    apply forallb_forall. intros c Hc. apply space_is_hexws.
    by eapply forallb_forall in HW.
Qed.

Lemma with_length_conforms v f len :
  conforms v f -> run is_digit len -> conforms v (with_length len f).
Proof. intros [] Hlen. by split. Qed.

(** ** The trace reader *)

(** C1. For each of the three grammars, a line of the grammar's shape adds
    the record made of the time offset, the frame id read as a hexadecimal
    number and the byte tokens in the order of the line.  The time offset
    is the float that the decimal numeral of the line rounds to: the
    nearest number of 64 bits, the even one of two that are equally near,
    and infinity beyond the range.  A line of any other shape adds nothing,
    and the scan of a file never raises. *)
Theorem C1_lines_parse_or_are_skipped (v : version) :
  (forall f acc, conforms v f ->
     exists t,
       float (time_int f ++ chars "." ++ time_frac f) = Ok t
       /\ rounds_to (decimal (time_int f) (time_frac f)) t
       /\ int16 (id f) = Ok (digits_value 16 (id f))
       /\ scan_line (grammar v) (text f) acc =
          Ok (push acc t (digits_value 16 (id f)) (payload_text (rest f))))
  /\ (forall f toks W tail, conforms v f ->
        rest f = spaced toks ++ W ++ tail ->
        spaced_ok toks -> forallb is_space W = true -> stops is_hexws tail ->
        split_ws (payload_text (rest f)) = map snd toks)
  /\ (forall line acc, (forall f, conforms v f -> line <> text f) ->
        scan_line (grammar v) line acc = Ok acc)
  /\ (forall file1 line file2 acc,
        (forall f, conforms v f -> line <> text f) ->
        scan (grammar v) (file1 ++ line :: file2) acc =
        scan (grammar v) (file1 ++ file2) acc)
  /\ (forall file acc, exists acc', scan (grammar v) file acc = Ok acc').
Proof.
  split; [|split; [|split; [|split]]].
  - intros f acc Hf.
    destruct (float_rounds _ _ (time_int_ok _ _ Hf) (time_frac_ok _ _ Hf))
      as (t & Ht & Hround).
    exists t. split; [done|]. split; [done|].
    split; [apply int16_hex; apply Hf|].
    rewrite scan_line_conforms by done.
    rewrite float_decimal in Ht by apply Hf. by injection Ht as ->.
  - intros f toks W tail _ -> Htoks HW Htail. by apply payload_tokens.
  - intros line acc Hno. by apply scan_line_skip.
  - intros file1 line file2 acc Hno. apply scan_skip.
    intros acc'. by apply scan_line_skip.
  - apply scan_total.
Qed.

(** C8. The declared length is the third group of the match, and the
    record does not depend on it: the payload is made of all the byte
    tokens of the line, however many the length announces. *)
Theorem C8_declared_length_is_ignored (v : version) (f : line_fields) :
  conforms v f ->
  (exists g1 g2 g4,
     re_match (grammar v) (text f) = Some [g1; g2; declared_length f; g4])
  /\ (forall len acc, run is_digit len ->
        scan_line (grammar v) (text (with_length len f)) acc =
        scan_line (grammar v) (text f) acc)
  /\ (forall toks W tail acc,
        rest f = spaced toks ++ W ++ tail ->
        spaced_ok toks -> forallb is_space W = true -> stops is_hexws tail ->
        exists t i p,
          scan_line (grammar v) (text f) acc = Ok (push acc t i p)
          /\ split_ws p = map snd toks).
Proof.
  intros Hf. split; [|split].
  - destruct (conforms_accepts v f Hf) as (m & Hm & g4 & -> & _).
    unfold re_match. rewrite Hm. eauto.
  - intros len acc Hlen.
    rewrite !scan_line_conforms by (done || by apply with_length_conforms).
    done.
  - intros toks W tail acc Hrest Htoks HW Htail.
    rewrite scan_line_conforms by done. do 3 eexists. split; [done|].
    rewrite Hrest. by apply payload_tokens.
Qed.

(** ** The header and the choice of the pattern *)

Lemma next_n_take n file :
  n <= length file -> next_n n file = Ok (take n file).
Proof.
  revert file. induction n as [|n IH]; intros [|line file]; simpl; try done.
  - lia.
  - intros Hn. rewrite IH by lia. done.
Qed.

Lemma next_n_short n file :
  length file < n -> next_n n file = Raise StopIteration.
Proof.
  revert file. induction n as [|n IH]; intros [|line file]; simpl; try done.
  - lia.
  - lia.
  - intros Hn. rewrite IH by lia. done.
Qed.

Lemma next_n_ok n file header :
  next_n n file = Ok header -> n <= length file /\ header = take n file.
Proof.
  intros H. destruct (decide (n <= length file)) as [Hle|Hgt].
  - rewrite next_n_take in H by done. split; [done|congruence].
  - rewrite next_n_short in H by lia. done.
Qed.

Lemma find_first {A} (p : A -> bool) before x after :
  (forall y, In y before -> p y = false) -> p x = true ->
  List.find p (before ++ x :: after) = Some x.
Proof.
  intros Hb Hx. induction before as [|y before IH]; simpl.
  - by rewrite Hx.
  - rewrite (Hb y) by by left. apply IH. intros z Hz. apply Hb. by right.
Qed.

Lemma find_none {A} (p : A -> bool) l :
  (forall y, In y l -> p y = false) -> List.find p l = None.
Proof.
  induction l as [|y l IH]; simpl; [done|]. intros H.
  rewrite (H y) by by left. apply IH. intros z Hz. apply H. by right.
Qed.

Lemma starts_with_app sub s : starts_with sub (sub ++ s) = true.
Proof.
  induction sub as [|c sub IH]; simpl; [done|].
  by rewrite Ascii.eqb_refl, IH.
Qed.

Lemma contains_start sub s : starts_with sub s = true -> contains sub s = true.
Proof. intros H. destruct s; simpl; by rewrite H. Qed.

Lemma contains_app pre sub s : contains sub (pre ++ sub ++ s) = true.
Proof.
  induction pre as [|c pre IH]; simpl.
  - apply contains_start, starts_with_app.
  - rewrite IH. apply orb_true_r.
Qed.

Lemma drop_run_app_stops cls a b :
  stops cls b -> drop_run cls (a ++ b) = drop_run cls a ++ b.
Proof.
  intros Hb. unfold drop_run. induction a as [|c a IH]; simpl.
  - by rewrite run_length_stops.
  - destruct (cls c); simpl; done.
Qed.

Lemma rstrip_app s W :
  stops is_space (reverse s) -> forallb is_space W = true ->
  rstrip (s ++ W) = s.
Proof.
  intros Hs HW. unfold rstrip. rewrite reverse_app.
  rewrite drop_run_app by by rewrite forallb_reverse.
  rewrite drop_run_stops by done. apply reverse_involutive.
Qed.

Lemma split_on_from_none sep cur s :
  ~ In sep s -> split_on_from sep cur s = [reverse cur ++ s].
Proof.
  revert cur. induction s as [|c s IH]; intros cur Hno; simpl.
  - by rewrite app_nil_r.
  - destruct (Ascii.eqb c sep) eqn:E.
    + apply Ascii.eqb_eq in E as ->. destruct Hno. by left.
    + rewrite IH by (intros ?; apply Hno; by right).
      by rewrite reverse_cons, <- app_assoc.
Qed.

Lemma last_split_on_from sep cur s tok :
  ~ In sep tok ->
  last (split_on_from sep cur (s ++ sep :: tok)) = Some tok.
Proof.
  intros Hno. revert cur. induction s as [|c s IH]; intros cur; simpl.
  - rewrite Ascii.eqb_refl, split_on_from_none by done. done.
  - destruct (Ascii.eqb c sep); [|apply IH].
    rewrite last_cons, IH. done.
Qed.

(** The token of a marker line: what stands between the last [=] and the
    white space at the end of the line. *)
Lemma file_version_token before pre tok trail after :
  (forall l, In l before -> contains marker l = false) ->
  contains marker (pre ++ chars "=" ++ tok ++ trail) = true ->
  ~ In "="%char tok -> stops is_space (reverse tok) ->
  forallb is_space trail = true ->
  file_version (before ++ (pre ++ chars "=" ++ tok ++ trail) :: after) = tok.
Proof.
  intros Hbefore Hmarker Hno Htok Htrail. unfold file_version, version_line.
  rewrite find_first by done.
  assert (strip (pre ++ chars "=" ++ tok ++ trail)
          = lstrip pre ++ "="%char :: tok) as ->.
  { unfold strip, lstrip. rewrite drop_run_app_stops by done.
    replace (drop_run is_space pre ++ chars "=" ++ tok ++ trail)
      with ((drop_run is_space pre ++ chars "=" ++ tok) ++ trail)
      by by rewrite <- !app_assoc.
    rewrite rstrip_app; [done| |done].
    rewrite !reverse_app. destruct (reverse tok) as [|c r]; [done|].
    done. }
  unfold split_on. by rewrite last_split_on_from.
Qed.

Lemma file_version_missing header :
  (forall l, In l header -> contains marker l = false) ->
  file_version header = [].
Proof.
  intros H. unfold file_version, version_line. by rewrite find_none.
Qed.

(** C2. The header is the first ten lines.  The version is the token on
    the first of them that holds the marker, that is what follows the last
    [=] of the line; [1.1], [2.0] and [2.1] select the first, second and
    third pattern, and every other token, as well as a header without the
    marker, selects the third. *)
Theorem C2_pattern_selection (file : list str) :
  10 <= length file ->
  next_n 10 file = Ok (take 10 file)
  /\ (forall before pre tok trail after,
        take 10 file = before ++ (pre ++ chars "=" ++ tok ++ trail) :: after ->
        (forall l, In l before -> contains marker l = false) ->
        contains marker (pre ++ chars "=" ++ tok ++ trail) = true ->
        ~ In "="%char tok -> stops is_space (reverse tok) ->
        forallb is_space trail = true ->
        file_version (take 10 file) = tok
        /\ (tok = chars "1.1" ->
            select_pattern (file_version (take 10 file)) = pattern_v1)
        /\ (tok = chars "2.0" ->
            select_pattern (file_version (take 10 file)) = pattern_v2)
        /\ (tok = chars "2.1" ->
            select_pattern (file_version (take 10 file)) = pattern_v3)
        /\ (tok <> chars "1.1" -> tok <> chars "2.0" ->
            select_pattern (file_version (take 10 file)) = pattern_v3))
  /\ ((forall l, In l (take 10 file) -> contains marker l = false) ->
      select_pattern (file_version (take 10 file)) = pattern_v3).
Proof.
  intros Hlen. split; [by apply next_n_take|]. split.
  - intros before pre tok trail after -> Hbefore Hmarker Hno Htok Htrail.
    rewrite file_version_token by done.
    split; [done|]. repeat split.
    + by intros ->.
    + by intros ->.
    + by intros ->.
    + intros H1 H2. unfold select_pattern.
      repeat case_decide; done.
  - intros Hnone. by rewrite file_version_missing.
Qed.

(** ** The three lists of the scan *)

Lemma float_num s t : float s = Ok t -> is_nan t = false.
Proof.
  unfold float. destruct (drop_run is_digit s) as [|dot frac]; [done|].
  destruct (_ && _); [|done]. intros [= <-]. apply binary64_not_nan.
Qed.

Lemma scan_line_ok p line acc acc' :
  scan_line p line acc = Ok acc' -> scanned_ok acc -> scanned_ok acc'.
Proof.
  unfold scan_line. destruct (re_match p line) as [m|]; [|by intros [= <-]].
  destruct (group m 1) as [g1|]; simpl; [|done].
  destruct (float g1) as [t|] eqn:Ht; simpl; [|done].
  destruct (group m 2) as [g2|]; simpl; [|done].
  destruct (int16 g2) as [i|]; simpl; [|done].
  destruct (group m 4) as [g4|]; simpl; [|done].
  intros [= <-] [H1 H2 H3]. split; simpl.
  - rewrite !length_app. simpl. lia.
  - rewrite !length_app. simpl. lia.
  - apply Forall_app. split; [done|]. constructor; [|done].
    by eapply float_num.
Qed.

Lemma scan_ok p file acc acc' :
  scan p file acc = Ok acc' -> scanned_ok acc -> scanned_ok acc'.
Proof.
  revert acc. induction file as [|line file IH]; intros acc; simpl.
  - by intros [= <-].
  - destruct (scan_line p line acc) as [acc1|] eqn:E; simpl; [|done].
    intros H Hacc. eapply IH; [done|]. by eapply scan_line_ok.
Qed.

Lemma no_records_ok : scanned_ok no_records.
Proof. by split. Qed.

(** ** The decode loop changes one row at a time *)

Lemma agree_refl keep t : agree keep t t.
Proof. unfold agree. induction t; constructor; auto. Qed.

Lemma agree_trans keep1 keep2 t1 t2 t3 :
  agree keep1 t1 t2 -> agree keep2 t2 t3 ->
  agree (fun j => keep1 j /\ keep2 j) t1 t3.
Proof.
  unfold agree. intros H. revert t3.
  induction H as [|kc1 kc2 t1 t2 (Hk & Hl & Hc) _ IH]; intros t3 H23.
  - inversion H23. constructor.
  - inversion H23 as [|? kc3 ? t3' (Hk' & Hl' & Hc') H23']; subst.
    constructor; [|by apply IH].
    split; [congruence|]. split; [congruence|].
    intros j [H1 H2]. rewrite Hc' by done. by apply Hc.
Qed.

Lemma agree_weaken (keep keep' : nat -> Prop) t t' :
  (forall j, keep' j -> keep j) -> agree keep t t' -> agree keep' t t'.
Proof.
  intros Hw H. unfold agree in *. eapply Forall2_impl; [exact H|].
  intros kc kc' (Hk & Hl & Hc). auto.
Qed.

Lemma setitem_agree k idx v t t' :
  setitem k idx v t = Ok t' -> agree (fun j => j <> idx) t t'.
Proof.
  revert t'. induction t as [|[k' col] t IH]; intros t'; simpl; [done|].
  case_decide.
  - destruct (idx <? length col); [|done]. intros [= <-].
    constructor; [|apply agree_refl]. simpl.
    split; [done|]. split; [by rewrite length_insert|].
    intros j Hj. by apply list_lookup_insert_ne.
  - destruct (setitem k idx v t) as [t''|]; simpl; [|done].
    intros [= <-]. constructor; [done|]. by apply IH.
Qed.

Lemma store_all_agree decoded idx t t' :
  store_all decoded idx t = Ok t' -> agree (fun j => j <> idx) t t'.
Proof.
  revert t. induction decoded as [|[k v] decoded IH]; intros t; simpl.
  - intros [= <-]. apply agree_refl.
  - destruct (setitem k idx v t) as [t1|] eqn:E; simpl; [|done].
    intros H. eapply agree_weaken; [|eapply agree_trans].
    + intros j Hj. split; exact Hj.
    + by eapply setitem_agree.
    + by apply IH.
Qed.

Lemma decode_record_miss db idx msg_id payload t :
  get_message_by_frame_id db msg_id = Raise KeyError ->
  decode_record db idx msg_id payload t = Ok t.
Proof. unfold decode_record. by intros ->. Qed.

Lemma decode_record_agree db idx msg_id payload t t' :
  decode_record db idx msg_id payload t = Ok t' ->
  agree (fun j => j <> idx
                  \/ get_message_by_frame_id db msg_id = Raise KeyError) t t'.
Proof.
  unfold decode_record.
  destruct (get_message_by_frame_id db msg_id) as [msg|e] eqn:E.
  - destruct (to_bytes _) as [data|]; simpl; [|done].
    destruct (decode msg data) as [decoded|]; simpl; [|done].
    intros H%store_all_agree. eapply agree_weaken; [|done].
    by intros j [Hj|Hj].
  - destruct e; try done. intros [= <-]. apply agree_refl.
Qed.

Lemma decode_loop_agree db i records t t' :
  decode_loop db i records t = Ok t' -> agree (missed db i records) t t'.
Proof.
  revert i t. induction records as [|[msg_id payload] records IH];
    intros i t; simpl.
  - intros [= <-]. apply agree_refl.
  - destruct (decode_record db i msg_id payload t) as [t1|] eqn:E; simpl;
      [|done].
    intros H. eapply agree_weaken; [|eapply agree_trans].
    2: by eapply decode_record_agree.
    2: by apply IH.
    intros j Hj. split.
    + destruct (decide (j = i)) as [->|Hne]; [|by left]. right.
      apply (Hj (msg_id, payload)); [lia|]. by rewrite Nat.sub_diag.
    + intros r Hle Hr. apply Hj; [lia|].
      replace (j - i) with (S (j - S i)) by lia. done.
Qed.

(** ** The dictionary before the loop *)

Lemma setdefault_fresh ts k t :
  fresh_table ts t -> fresh_table ts (setdefault k (replicate (length ts) None) t).
Proof.
  intros (others & -> & Hothers). unfold setdefault.
  destruct (has_key k _) eqn:E; [by exists others|].
  exists (others ++ [(k, replicate (length ts) None)]). split; [done|].
  apply Forall_app. split; [done|]. constructor; [|done]. simpl.
  split; [|done]. intros ->. unfold has_key in E.
  cbn [existsb fst] in E.
  by rewrite bool_decide_eq_true_2 in E.
Qed.

Lemma declare_signals_fresh ts t message :
  fresh_table ts t -> fresh_table ts (declare_signals (length ts) t message).
Proof.
  unfold declare_signals. revert t.
  induction (signals message) as [|s l IH]; intros t Ht; simpl; [done|].
  apply IH. by apply setdefault_fresh.
Qed.

Lemma init_result_fresh db ts : fresh_table ts (init_result db ts).
Proof.
  unfold init_result.
  assert (fresh_table ts [(Timestamp, map Some ts)]) as H0
    by (exists []; by split).
  revert H0. generalize [(Timestamp, map Some ts)].
  induction (messages db) as [|m l IH]; intros t Ht; simpl; [done|].
  apply IH. by apply declare_signals_fresh.
Qed.

(** ** The frame *)

Lemma make_frame_ok n t :
  t <> [] -> Forall (fun kc => length kc.2 = n) t ->
  make_frame t = Ok {| rows := n; columns := t |}.
Proof.
  intros Hne Hall. destruct t as [|[k col] t]; [done|]. unfold make_frame.
  apply Forall_cons in Hall as Hall'. destruct Hall' as [Hcol _].
  simpl in Hcol. subst n.
  rewrite (proj2 (forallb_forall _ _)); [done|].
  intros kc Hkc. apply Nat.eqb_eq.
  rewrite Forall_forall in Hall. apply Hall. by apply list_elem_of_In.
Qed.

Lemma agree_lengths keep n t t' :
  agree keep t t' -> Forall (fun kc => length kc.2 = n) t ->
  Forall (fun kc => length kc.2 = n) t'.
Proof.
  induction 1 as [|kc kc' t t' (_ & Hl & _) _ IH]; [done|].
  intros [H1 H2]%Forall_cons. constructor; [congruence|auto].
Qed.

Lemma fresh_lengths ts t :
  fresh_table ts t -> Forall (fun kc => length kc.2 = length ts) t.
Proof.
  intros (others & -> & Hothers). constructor.
  - simpl. by rewrite length_map.
  - eapply Forall_impl; [done|]. intros kc [_ H]. unfold cell in *. simpl. rewrite H.
    by rewrite length_replicate.
Qed.

(** What [build_table] returns, when it returns. *)
Lemma build_table_ok db sc df :
  build_table db sc = Ok df ->
  exists t,
    decode_loop db 0 (zip (message_ids sc) (message_payloads sc))
                (init_result db (timestamps sc)) = Ok t
    /\ df = dropna {| rows := length (timestamps sc); columns := t |}.
Proof.
  unfold build_table.
  destruct (decode_loop _ _ _ _) as [t|] eqn:E; simpl; [|done].
  pose proof (init_result_fresh db (timestamps sc)) as Hfresh.
  pose proof (decode_loop_agree _ _ _ _ _ E) as Hagree.
  rewrite (make_frame_ok (length (timestamps sc))).
  - simpl. intros [= <-]. eauto.
  - destruct Hfresh as (others & Hinit & _). rewrite Hinit in Hagree.
    inversion Hagree. done.
  - eapply agree_lengths; [done|]. by apply fresh_lengths.
Qed.

Lemma all_na_lookup col j c :
  col !! j = Some c -> isna c = false -> all_na col = false.
Proof.
  intros Hj Hc. unfold all_na. destruct (forallb isna col) eqn:E; [|done].
  rewrite forallb_forall in E. rewrite E in Hc; [done|].
  apply list_elem_of_In. by eapply list_elem_of_lookup_2.
Qed.

(** A record without a message leaves its row as it was before the loop. *)
Lemma build_table_miss db sc df idx msg_id :
  scanned_ok sc -> build_table db sc = Ok df ->
  message_ids sc !! idx = Some msg_id ->
  get_message_by_frame_id db msg_id = Raise KeyError ->
  rows df = length (timestamps sc)
  /\ (exists t col,
        timestamps sc !! idx = Some t
        /\ getitem Timestamp (columns df) = Ok col
        /\ col !! idx = Some (Some t))
  /\ (forall k col, In (k, col) (columns df) -> k <> Timestamp ->
        col !! idx = Some None).
Proof.
  intros [Hids Hpl Hnum] (t & Hloop & ->)%build_table_ok Hidx Hmiss.
  split; [done|].
  assert (idx < length (timestamps sc)) as Hlt.
  { rewrite <- Hids. by eapply lookup_lt_Some. }
  destruct (lookup_lt_is_Some_2 _ _ Hlt) as [ts Hts].
  assert (missed db 0 (zip (message_ids sc) (message_payloads sc)) idx)
    as Hkeep.
  { intros [i p] _. rewrite Nat.sub_0_r. intros Hr.
    apply lookup_zip_with_Some in Hr as (i' & p' & [= <- <-] & Hi & _).
    simpl. congruence. }
  apply decode_loop_agree in Hloop.
  destruct (init_result_fresh db (timestamps sc)) as (others & Hinit & Hothers).
  rewrite Hinit in Hloop.
  inversion Hloop as [|? [k0 col0] ? others' (Hk0 & _ & Hc0) Hrest]; subst.
  simpl in *. subst k0.
  assert (col0 !! idx = Some (Some ts)) as Hcol0.
  { rewrite Hc0 by done. by rewrite list_lookup_fmap, Hts. }
  assert (all_na col0 = false) as Hna.
  { eapply all_na_lookup; [done|].
    rewrite Forall_forall in Hnum.
    specialize (Hnum ts (list_elem_of_lookup_2 _ _ _ Hts)).
    by destruct ts. }
  rewrite Hna. simpl. split.
  - by exists ts, col0.
  - intros k col [[= <- <-]|Hin] Hk; [done|].
    apply filter_In in Hin as [Hin _].
    apply list_elem_of_In in Hin.
    apply list_elem_of_lookup in Hin as [n Hn].
    destruct (Forall2_lookup_r _ _ _ _ _ Hrest Hn)
      as ([k' col'] & Hn' & Hk' & _ & Hc').
    simpl in *. rewrite Hc' by done.
    rewrite Forall_forall in Hothers.
    destruct (Hothers _ (list_elem_of_lookup_2 _ _ _ Hn')) as [_ Heq].
    simpl in Heq. rewrite Heq. by apply lookup_replicate_2.
Qed.

(** ** Bytes *)

Lemma to_bytes_overflow tokens tok :
  In tok tokens -> run is_hex tok -> (255 < digits_value 16 tok)%Z ->
  to_bytes tokens = Raise ValueError.
Proof.
  intros Hin Htok Hbig. induction tokens as [|x tokens IH]; [done|]. simpl.
  destruct Hin as [->|Hin].
  - rewrite int16_hex by done. simpl.
    destruct (Byte.of_N _) as [b|] eqn:E; [|done].
    assert (Byte.of_N (Z.to_N (digits_value 16 tok)) <> None) as Hn
      by by rewrite E.
    rewrite Byte.of_N_None_iff in Hn. lia.
  - rewrite (IH Hin). unfold int16.
    destruct x; [done|]. destruct (forallb is_hex _); [|done]. simpl.
    by destruct (Byte.of_N _).
Qed.

Lemma decode_record_overflow db idx msg_id payload msg tok t :
  get_message_by_frame_id db msg_id = Ok msg ->
  In tok (split_ws payload) -> run is_hex tok ->
  (255 < digits_value 16 tok)%Z ->
  decode_record db idx msg_id payload t = Raise ValueError.
Proof.
  intros Hmsg Hin Htok Hbig. unfold decode_record. rewrite Hmsg.
  by erewrite to_bytes_overflow.
Qed.

Lemma decode_loop_raises db i records j msg_id payload t :
  records !! j = Some (msg_id, payload) ->
  (forall t', decode_record db (i + j) msg_id payload t' = Raise ValueError) ->
  raises (decode_loop db i records t).
Proof.
  revert i j t. induction records as [|[id0 p0] records IH]; intros i j t;
    [done|].
  simpl. destruct j as [|j]; simpl.
  - intros [= -> ->] Hr. rewrite Nat.add_0_r in Hr. rewrite Hr. by eexists.
  - intros Hj Hr.
    destruct (decode_record db i id0 p0 t) as [t1|e]; simpl; [|by eexists].
    eapply IH; [done|]. intros t'. by replace (S i + j) with (i + S j) by lia.
Qed.

Lemma build_table_raises db sc j msg_id payload :
  zip (message_ids sc) (message_payloads sc) !! j = Some (msg_id, payload) ->
  (forall t', decode_record db j msg_id payload t' = Raise ValueError) ->
  raises (build_table db sc).
Proof.
  intros Hj Hr. unfold build_table.
  destruct (decode_loop_raises db 0 _ j msg_id payload
              (init_result db (timestamps sc)) Hj Hr) as [e ->].
  by eexists.
Qed.

Lemma scan_no_match p file acc :
  (forall l, In l file -> re_match p l = None) -> scan p file acc = Ok acc.
Proof.
  induction file as [|line file IH]; intros H; simpl; [done|].
  rewrite scan_line_no_match by (apply H; by left). simpl.
  apply IH. intros l Hl. apply H. by right.
Qed.

Lemma no_match_not_conforms v line :
  re_match (grammar v) line = None ->
  forall f, conforms v f -> line <> text f.
Proof.
  intros Hm f Hf ->. destruct (conforms_accepts v f Hf) as (m & Hm' & _).
  unfold re_match in Hm. congruence.
Qed.

Section DecoderProperties.

Variable dbc_file : Type.
Variable load_file : dbc_file -> result Database.

Lemma decode_can_ok dbc trc df :
  decode_can load_file dbc trc = Ok df ->
  exists db header sc,
    load_file dbc = Ok db
    /\ next_n 10 (file_lines trc) = Ok header
    /\ scan (select_pattern (file_version header)) (file_lines trc) no_records
       = Ok sc
    /\ build_table db sc = Ok df.
Proof.
  unfold decode_can.
  destruct (load_file dbc) as [db|]; cbn [bind]; [|done].
  destruct (next_n 10 (file_lines trc)) as [header|]; cbn [bind]; [|done].
  destruct (scan _ (file_lines trc) no_records) as [sc|] eqn:E; cbn [bind];
    [|done].
  intros H. by exists db, header, sc.
Qed.

(** C5. A record whose frame id has no message in the database is passed
    over without an error: the table is the same after its turn of the
    loop, and in the table that is returned its row is there, with its time
    offset and with [None] in every other column. *)
Theorem C5_unknown_frame_id_is_skipped dbc trc db header sc idx msg_id :
  load_file dbc = Ok db ->
  next_n 10 (file_lines trc) = Ok header ->
  scan (select_pattern (file_version header)) (file_lines trc) no_records
    = Ok sc ->
  message_ids sc !! idx = Some msg_id ->
  get_message_by_frame_id db msg_id = Raise KeyError ->
  (forall payload t, decode_record db idx msg_id payload t = Ok t)
  /\ (forall df, decode_can load_file dbc trc = Ok df ->
        rows df = length (timestamps sc)
        /\ (exists t col,
              timestamps sc !! idx = Some t
              /\ getitem Timestamp (columns df) = Ok col
              /\ col !! idx = Some (Some t))
        /\ (forall k col, In (k, col) (columns df) -> k <> Timestamp ->
              col !! idx = Some None)).
Proof.
  intros Hdb Hheader Hscan Hidx Hmiss. split.
  - intros payload t. by apply decode_record_miss.
  - intros df (db' & header' & sc' & Hdb' & Hheader' & Hscan' & Hbuild)%decode_can_ok.
    assert (db' = db) as -> by congruence.
    assert (header' = header) as -> by congruence.
    assert (sc' = sc) as -> by congruence.
    eapply build_table_miss; [|done..].
    eapply scan_ok; [done|]. apply no_records_ok.
Qed.

(** C9. A trace of fewer than ten lines makes [decode_can] raise, whatever
    its lines are: the tenth [next] at the latest has nothing to return.  A
    table comes back only for a trace of ten lines or more. *)
Theorem C9_short_trace_raises dbc trc :
  (length (file_lines trc) < 10 ->
     raises (decode_can load_file dbc trc)
     /\ (forall db, load_file dbc = Ok db ->
           decode_can load_file dbc trc = Raise StopIteration))
  /\ (forall df, decode_can load_file dbc trc = Ok df -> 10 <= length (file_lines trc)).
Proof.
  split.
  - intros Hshort. unfold decode_can.
    rewrite next_n_short by done.
    split; [|by intros db ->]. destruct (load_file dbc); by eexists.
  - intros df (db & header & sc & _ & Hheader & _)%decode_can_ok.
    by apply next_n_ok in Hheader as [? _].
Qed.

(** C10. A record whose message is known and whose payload has a token
    above [FF] stops the decoding: the conversion to bytes raises
    [ValueError] in the turn of that record, and [decode_can] returns no
    table. *)
Theorem C10_wide_token_raises dbc trc db header sc idx msg_id payload msg tok :
  load_file dbc = Ok db ->
  next_n 10 (file_lines trc) = Ok header ->
  scan (select_pattern (file_version header)) (file_lines trc) no_records
    = Ok sc ->
  message_ids sc !! idx = Some msg_id ->
  message_payloads sc !! idx = Some payload ->
  get_message_by_frame_id db msg_id = Ok msg ->
  In tok (split_ws payload) -> run is_hex tok ->
  (255 < digits_value 16 tok)%Z ->
  to_bytes (split_ws payload) = Raise ValueError
  /\ (forall t, decode_record db idx msg_id payload t = Raise ValueError)
  /\ raises (decode_can load_file dbc trc).
Proof.
  intros Hdb Hheader Hscan Hid Hpl Hmsg Hin Htok Hbig.
  split; [by eapply to_bytes_overflow|].
  assert (forall t, decode_record db idx msg_id payload t = Raise ValueError)
    as Hrec by (intros t; by eapply decode_record_overflow).
  split; [done|]. unfold decode_can.
  rewrite Hdb. cbn [bind]. rewrite Hheader. cbn [bind].
  rewrite Hscan. cbn [bind].
  eapply build_table_raises; [|done].
  apply lookup_zip_with_Some. by exists msg_id, payload.
Qed.

(** C7. Without both files the callback answers with the request to upload
    them; with a table that has no row or fewer than two columns it
    answers that there is nothing to plot.  Both answers are a text in
    place of the charts, with the download button disabled and no file
    written. *)
Theorem C7_guards_of_the_callback st :
  (dbc_tmp_path st = None \/ trc_tmp_path st = None ->
     decode_and_plot load_file st = Ok (Text "Please upload both files.", true, st))
  /\ (forall dbc trc df,
        dbc_tmp_path st = Some dbc -> trc_tmp_path st = Some trc ->
        decode_can load_file dbc trc = Ok df ->
        rows df = 0 \/ length (columns df) < 2 ->
        decode_and_plot load_file st = Ok (Text "No data to plot.", true, st)).
Proof.
  unfold decode_and_plot. split.
  - intros [->| ->]; [done|]. by destruct (dbc_tmp_path st).
  - intros dbc trc df -> -> -> Hsmall. simpl.
    destruct Hsmall as [->|Hlt]; [done|].
    apply Nat.ltb_lt in Hlt. rewrite Hlt. by rewrite orb_true_r.
Qed.

End DecoderProperties.



(** ** The columns of the table *)

Lemma has_key_elem k (t : table) : has_key k t = true <-> k ∈ t.*1.
Proof.
  unfold has_key. induction t as [|[k' col] t IH]; simpl.
  - split; [done|]. by intros ?%elem_of_nil.
  - rewrite orb_true_iff, IH, elem_of_cons, bool_decide_eq_true. simpl.
    split; intros [?|?]; auto.
Qed.

Lemma setdefault_keys k v t k' :
  k' ∈ (setdefault k v t).*1 <-> k' ∈ t.*1 \/ k' = k.
Proof.
  unfold setdefault. destruct (has_key k t) eqn:E.
  - apply has_key_elem in E. split; [auto|]. by intros [?| ->].
  - rewrite fmap_app, elem_of_app. simpl. by rewrite list_elem_of_singleton.
Qed.

Lemma setdefault_NoDup k v t : NoDup t.*1 -> NoDup (setdefault k v t).*1.
Proof.
  intros Hnd. unfold setdefault. destruct (has_key k t) eqn:E; [done|].
  rewrite fmap_app. apply NoDup_app. split; [done|]. split.
  - intros k' Hk' ->%list_elem_of_singleton.
    apply (proj2 (has_key_elem _ _)) in Hk'. simpl in Hk'. congruence.
  - apply NoDup_singleton.
Qed.

Lemma declare_signals_keys n t message k :
  k ∈ (declare_signals n t message).*1
  <-> k ∈ t.*1 \/ exists s, s ∈ signals message /\ name s = k.
Proof.
  unfold declare_signals. revert t.
  induction (signals message) as [|s l IH]; intros t; simpl.
  - split; [auto|]. intros [?|(s & Hs & _)]; [done|].
    by apply elem_of_nil in Hs.
  - rewrite IH, setdefault_keys. split.
    + intros [[?| ->]|(s' & Hs' & <-)]; [auto| |].
      * right. exists s. split; [apply list_elem_of_here|done].
      * right. exists s'. split; [by apply list_elem_of_further|done].
    + intros [?|(s' & Hs' & <-)]; [auto|].
      apply elem_of_cons in Hs' as [->|Hs']; [auto|]. right. eauto.
Qed.

Lemma declare_signals_NoDup n t message :
  NoDup t.*1 -> NoDup (declare_signals n t message).*1.
Proof.
  unfold declare_signals. revert t.
  induction (signals message) as [|s l IH]; intros t Ht; simpl; [done|].
  apply IH. by apply setdefault_NoDup.
Qed.

Lemma fold_declare_keys n l t :
  NoDup t.*1 ->
  NoDup (fold_left (declare_signals n) l t).*1
  /\ forall k, k ∈ (fold_left (declare_signals n) l t).*1
       <-> k ∈ t.*1
           \/ exists message s,
                message ∈ l /\ s ∈ signals message /\ name s = k.
Proof.
  revert t. induction l as [|m l IH]; intros t Hnd; simpl.
  - split; [done|]. intros k. split; [auto|].
    intros [?|(m & s & Hm & _)]; [done|]. by apply elem_of_nil in Hm.
  - destruct (IH (declare_signals n t m)) as [Hnd' Hk'];
      [by apply declare_signals_NoDup|].
    split; [done|]. intros k. rewrite Hk', declare_signals_keys. split.
    + intros [[?|(s & Hs & <-)]|(m' & s & Hm' & Hs & <-)]; [auto| |].
      * right. exists m, s. split; [apply list_elem_of_here|done].
      * right. exists m', s. split; [by apply list_elem_of_further|done].
    + intros [?|(m' & s & Hm' & Hs & <-)]; [auto|].
      apply elem_of_cons in Hm' as [->|Hm']; [left; right; eauto|].
      right. eauto.
Qed.

(** The keys of the dictionary before the loop: [Timestamp] and the names
    of the signals, each once. *)
Lemma init_result_keys db ts :
  NoDup (init_result db ts).*1
  /\ forall k, k ∈ (init_result db ts).*1 <-> k = Timestamp \/ declared db k.
Proof.
  unfold init_result, declared.
  destruct (fold_declare_keys (length ts) (messages db)
              [(Timestamp, map Some ts)]) as [Hnd Hk];
    [apply NoDup_singleton|].
  split; [done|]. intros k. rewrite Hk. simpl.
  by rewrite list_elem_of_singleton.
Qed.

(** Without a signal that is called [Timestamp], every name of a signal
    has its column, filled with [None] for each record. *)
Lemma init_result_columns db ts k :
  declared db k -> k <> Timestamp ->
  getitem k (init_result db ts) = Ok (replicate (length ts) None).
Proof.
  intros Hk Hne.
  destruct (init_result_keys db ts) as [_ Hkeys].
  destruct (init_result_fresh db ts) as (others & Hinit & Hothers).
  assert (k ∈ (init_result db ts).*1) as Hin by (apply Hkeys; by right).
  rewrite Hinit in Hin |- *. simpl in *.
  rewrite decide_False by done.
  apply elem_of_cons in Hin as [?|Hin]; [done|].
  clear Hinit. induction others as [|[k' col] others IH]; simpl.
  - by apply elem_of_nil in Hin.
  - apply Forall_cons in Hothers as [[_ Hcol] Hothers]. simpl in *.
    case_decide; [by rewrite Hcol|].
    apply IH; [done|]. by apply elem_of_cons in Hin as [?|?].
Qed.

(** ** Writing to one column leaves the others *)

Lemma setitem_other k idx v t t' k' :
  setitem k idx v t = Ok t' -> k' <> k -> getitem k' t' = getitem k' t.
Proof.
  revert t'. induction t as [|[k0 col] t IH]; intros t'; simpl; [done|].
  case_decide as Hk0.
  - destruct (idx <? length col); [|done]. intros [= <-] Hne. simpl.
    subst k0. by rewrite !decide_False by done.
  - destruct (setitem k idx v t) as [t''|]; simpl; [|done].
    intros [= <-] Hne. simpl. case_decide; [done|]. by apply IH.
Qed.

Lemma store_all_other decoded idx t t' k' :
  store_all decoded idx t = Ok t' ->
  Forall (fun kv => kv.1 <> k') decoded ->
  getitem k' t' = getitem k' t.
Proof.
  revert t. induction decoded as [|[k v] decoded IH]; intros t; simpl.
  - by intros [= <-].
  - destruct (setitem k idx v t) as [t1|] eqn:E; simpl; [|done].
    intros H [Hk Hrest]%Forall_cons. simpl in Hk.
    rewrite (IH _ H Hrest). eapply setitem_other; [done|]. congruence.
Qed.

Lemma decode_record_other db idx msg_id payload t t' k :
  never_decodes db k ->
  decode_record db idx msg_id payload t = Ok t' ->
  getitem k t' = getitem k t.
Proof.
  intros Hnever. unfold decode_record.
  destruct (get_message_by_frame_id db msg_id) as [msg|e] eqn:E.
  - destruct (to_bytes _) as [data|]; simpl; [|done].
    destruct (decode msg data) as [decoded|] eqn:Ed; simpl; [|done].
    intros H. eapply store_all_other; [done|]. by eapply Hnever.
  - destruct e; try done. by intros [= <-].
Qed.

Lemma decode_loop_other db i records t t' k :
  never_decodes db k ->
  decode_loop db i records t = Ok t' ->
  getitem k t' = getitem k t.
Proof.
  intros Hnever. revert i t.
  induction records as [|[msg_id payload] records IH]; intros i t; simpl.
  - by intros [= <-].
  - destruct (decode_record db i msg_id payload t) as [t1|] eqn:E; simpl;
      [|done].
    intros H. rewrite (IH _ _ H). by eapply decode_record_other.
Qed.

Lemma getitem_filter k (t : table) col :
  getitem k t = Ok col -> all_na col = false ->
  getitem k (List.filter (fun kv => negb (all_na kv.2)) t) = Ok col.
Proof.
  intros Hget Hna. induction t as [|[k' c'] t IH]; simpl in *; [done|].
  case_decide.
  - injection Hget as ->. rewrite Hna. simpl. by rewrite decide_True.
  - destruct (negb (all_na c')); simpl; [|by apply IH].
    rewrite decide_False by done. by apply IH.
Qed.

(** Without a signal that decodes under the name [Timestamp], the table
    that is returned for at least one record has the [Timestamp] column,
    with the time offsets of the records in the order of the file. *)
Lemma build_table_timestamps db sc df :
  never_decodes db Timestamp -> scanned_ok sc -> timestamps sc <> [] ->
  build_table db sc = Ok df ->
  rows df = length (timestamps sc)
  /\ getitem Timestamp (columns df) = Ok (map Some (timestamps sc)).
Proof.
  intros Hnever [_ _ Hnum] Hne (t & Hloop & ->)%build_table_ok.
  split; [done|]. simpl. apply getitem_filter.
  - rewrite (decode_loop_other _ _ _ _ _ _ Hnever Hloop).
    destruct (init_result_fresh db (timestamps sc)) as (others & -> & _).
    reflexivity.
  - destruct (timestamps sc) as [|ts l]; [done|].
    apply Forall_cons in Hnum as [Hts _]. simpl. by destruct ts.
Qed.

(** ** A signal that is called Timestamp *)

Lemma dropna_no_empty_column df k col :
  In (k, col) (columns (dropna df)) -> all_na col = false.
Proof.
  unfold dropna. simpl. intros [_ H]%filter_In. simpl in H.
  by destruct (all_na col).
Qed.

(** C3. With a signal that is called [Timestamp], the dictionary has no
    column of [None] for that signal: [setdefault] finds the key of the
    time offsets, and the decode loop then writes the signal over the time
    offset of the row. *)
Theorem C3_timestamp_signal_shares_the_column :
  init_result Collision.clock_db [Num (3 # 2)]
    = [(Timestamp, [Some (Num (3 # 2))]); (chars "Speed", [None])]
  /\ decode_can (fun db : Database => Ok db) Collision.clock_db Scenario.trace
     = Ok {| rows := 1;
             columns := [(Timestamp, [Some (Num 100)]);
                         (chars "Speed", [Some (Num 0)])] |}.
Proof. split; vm_compute; reflexivity. Qed.

(** C4. With a signal that is called [Timestamp] and decodes to a NaN in
    every row, the column of the time offsets is empty after the loop and
    [dropna] removes it, although a record was matched. *)
Theorem C4_timestamp_column_is_dropped :
  decode_can (fun db : Database => Ok db) Collision.float_db
             Collision.nan_trace
  = Ok {| rows := 1; columns := [] |}.
Proof. vm_compute. reflexivity. Qed.

(** ** The scenario, line by line *)

Lemma run_chars cls (s : str) :
  (match s with [] => false | _ => forallb cls s end) = true -> run cls s.
Proof. destruct s; [done|]. intros H. by split. Qed.

Lemma data_line_conforms : conforms V1_1 Scenario.data_line.
Proof.
  split.
  - reflexivity.
  - by apply run_chars.
  - exact (Sep1_v1 (chars "         ")
             (run_chars is_space (chars "         ") eq_refl)).
  - by apply run_chars.
  - by apply run_chars.
  - exact (Sep2_v1 (chars "  ") (chars "Rx") (chars "          ")
             (run_chars is_space (chars "  ") eq_refl)
             (run_chars is_word (chars "Rx") eq_refl)
             (run_chars is_space (chars "          ") eq_refl)).
  - by apply run_chars.
  - exact (Sep3_v1 (chars "  ") (run_chars is_space (chars "  ") eq_refl)).
  - by apply run_chars.
  - exists " "%char, " "%char, (chars "64 00
"). split; [reflexivity|]. split; reflexivity.
Qed.

Lemma tenth_line_conforms : conforms V1_1 Cases.tenth_line.
Proof.
  destruct data_line_conforms. split; try done; by apply run_chars.
Qed.


Lemma C1_witness :
  conforms V1_1 Scenario.data_line
  /\ scan_line pattern_v1 (text Scenario.data_line) no_records
     = Ok {| timestamps := [Num (3 # 2)];
             message_ids := [256%Z];
             message_payloads := [chars "64 00"] |}
  /\ conforms V1_1 Cases.tenth_line
  /\ scan_line pattern_v1 (text Cases.tenth_line) no_records
     = Ok {| timestamps := [Num (3602879701896397 # 36028797018963968)];
             message_ids := [256%Z];
             message_payloads := [chars "64 00"] |}
  /\ rounds_to (decimal (chars "0") (chars "1"))
               (Num (3602879701896397 # 36028797018963968))
  /\ scan_line pattern_v1 (chars ";$FILEVERSION=1.1") no_records
     = Ok no_records.
Proof.
  split; [exact data_line_conforms|]. split; [|split; [|split; [|split]]].
  - destruct (proj1 (C1_lines_parse_or_are_skipped V1_1)
                Scenario.data_line no_records data_line_conforms)
      as (t & Ht & _ & _ & Hscan).
    vm_compute in Ht. injection Ht as <-. exact Hscan.
  - exact tenth_line_conforms.
  - destruct (proj1 (C1_lines_parse_or_are_skipped V1_1)
                Cases.tenth_line no_records tenth_line_conforms)
      as (t & Ht & _ & _ & Hscan).
    vm_compute in Ht. injection Ht as <-. exact Hscan.
  - destruct (proj1 (C1_lines_parse_or_are_skipped V1_1)
                Cases.tenth_line no_records tenth_line_conforms)
      as (t & Ht & Hround & _).
    vm_compute in Ht. injection Ht as <-. exact Hround.
  - apply (proj1 (proj2 (proj2 (C1_lines_parse_or_are_skipped V1_1)))).
    apply no_match_not_conforms. vm_compute. reflexivity.
Defined.

Lemma C8_witness :
  conforms V1_1 Scenario.data_line
  /\ scan_line pattern_v1
       (text (with_length (chars "8") Scenario.data_line)) no_records
     = scan_line pattern_v1 (text Scenario.data_line) no_records.
Proof.
  split; [exact data_line_conforms|].
  apply (proj1 (proj2 (C8_declared_length_is_ignored V1_1 Scenario.data_line
                         data_line_conforms))).
  by apply run_chars.
Defined.

Lemma C2_witness :
  10 <= length (file_lines Scenario.trace)
  /\ select_pattern (file_version (take 10 (file_lines Scenario.trace)))
     = pattern_v1.
Proof.
  assert (10 <= length (file_lines Scenario.trace)) as Hlen
    by (vm_compute; lia).
  split; [exact Hlen|].
  destruct (C2_pattern_selection (file_lines Scenario.trace) Hlen)
    as (_ & Htok & _).
  destruct (Htok [] (chars ";$FILEVERSION") (chars "1.1") [LF]
              (drop 1 (take 10 (file_lines Scenario.trace))))
    as (_ & H11 & _).
  - vm_compute. reflexivity.
  - intros l [].
  - vm_compute. reflexivity.
  - simpl. intros [H|[H|[H|[]]]]; discriminate.
  - vm_compute. reflexivity.
  - reflexivity.
  - by apply H11.
Defined.


Lemma C9_witness :
  length (file_lines Scenario.short_trace) < 10
  /\ decode_can (fun db : Database => Ok db) Scenario.speed_db
                Scenario.short_trace
     = Raise StopIteration.
Proof.
  assert (length (file_lines Scenario.short_trace) < 10) as Hshort
    by (vm_compute; lia).
  split; [exact Hshort|].
  exact (proj2 (proj1 (C9_short_trace_raises Database
                         (fun db : Database => Ok db)
                         Scenario.speed_db Scenario.short_trace) Hshort)
               Scenario.speed_db eq_refl).
Defined.

Lemma C7_witness :
  decode_and_plot (fun db : Database => Ok db)
    {| dbc_tmp_path := Some Scenario.speed_db;
       trc_tmp_path := None;
       decoded_csv_path := None |}
  = Ok (Text "Please upload both files.", true,
        {| dbc_tmp_path := Some Scenario.speed_db;
           trc_tmp_path := None;
           decoded_csv_path := None |})
  /\ decode_and_plot (fun db : Database => Ok db)
       {| dbc_tmp_path := Some Scenario.speed_db;
          trc_tmp_path := Some Scenario.empty_trace;
          decoded_csv_path := None |}
     = Ok (Text "No data to plot.", true,
           {| dbc_tmp_path := Some Scenario.speed_db;
              trc_tmp_path := Some Scenario.empty_trace;
              decoded_csv_path := None |}).
Proof.
  split.
  - apply (proj1 (C7_guards_of_the_callback Database
                    (fun db : Database => Ok db) _)).
    by right.
  - apply (proj2 (C7_guards_of_the_callback Database
                    (fun db : Database => Ok db) _)
             Scenario.speed_db Scenario.empty_trace
             {| rows := 0; columns := [] |}).
    + reflexivity.
    + reflexivity.
    + vm_compute. reflexivity.
    + by left.
Defined.

Lemma C5_witness :
  get_message_by_frame_id Scenario.speed_db 512 = Raise KeyError
  /\ decode_record Scenario.speed_db 1 512 (chars "01") [] = Ok []
  /\ rows {| rows := 2;
             columns := [(Timestamp, [Some (Num (3 # 2)); Some (Num (5 # 2))]);
                         (chars "Speed", [Some (Num 10); None])] |}
     = 2.
Proof.
  pose proof (C5_unknown_frame_id_is_skipped Database
                (fun db : Database => Ok db)
                Scenario.speed_db Scenario.unknown_id_trace Scenario.speed_db
                (take 10 (file_lines Scenario.unknown_id_trace))
                {| timestamps := [Num (3 # 2); Num (5 # 2)];
                   message_ids := [256%Z; 512%Z];
                   message_payloads := [chars "64 00"; chars "01"] |}
                1 512%Z) as H.
  destruct H as [Hstep Htable].
  - reflexivity.
  - vm_compute. reflexivity.
  - vm_compute. reflexivity.
  - reflexivity.
  - reflexivity.
  - split; [reflexivity|]. split; [apply Hstep|].
    apply (Htable {| rows := 2;
             columns := [(Timestamp, [Some (Num (3 # 2)); Some (Num (5 # 2))]);
                         (chars "Speed", [Some (Num 10); None])] |}).
    vm_compute. reflexivity.
Defined.

Lemma C10_witness :
  re_match pattern_v1
    (chars "     1)         1.5  Rx          100  2  640 00")
  = Some [chars "1.5"; chars "100"; chars "2"; chars "640 00"]
  /\ to_bytes (split_ws (chars "640 00")) = Raise ValueError
  /\ raises (decode_can (fun db : Database => Ok db) Scenario.speed_db
                        Scenario.wide_token_trace).
Proof.
  split; [vm_compute; reflexivity|].
  pose proof (C10_wide_token_raises Database (fun db : Database => Ok db)
                Scenario.speed_db Scenario.wide_token_trace Scenario.speed_db
                (take 10 (file_lines Scenario.wide_token_trace))
                {| timestamps := [Num (3 # 2)];
                   message_ids := [256%Z];
                   message_payloads := [chars "640 00"] |}
                0 256%Z (chars "640 00") Scenario.speed_message
                (chars "640")) as H.
  destruct H as (Hbytes & _ & Hraise).
  - reflexivity.
  - vm_compute. reflexivity.
  - vm_compute. reflexivity.
  - reflexivity.
  - reflexivity.
  - reflexivity.
  - vm_compute. by left.
  - by apply run_chars.
  - vm_compute. reflexivity.
  - by split.
Defined.

(** * Further properties *)

(** ** The scan keeps the order of the file *)

Lemma extend_no_records sc : extend sc no_records = sc.
Proof. destruct sc. unfold extend. simpl. by rewrite !app_nil_r. Qed.

Lemma extend_assoc a b c : extend (extend a b) c = extend a (extend b c).
Proof. unfold extend. simpl. by rewrite !app_assoc. Qed.

Lemma scan_line_from p line acc :
  scan_line p line acc =
  (try! sc := scan_line p line no_records in Ok (extend acc sc)).
Proof.
  unfold scan_line. destruct (re_match p line) as [m|].
  - destruct (group m 1) as [g1|]; simpl; [|done].
    destruct (float g1) as [t|]; simpl; [|done].
    destruct (group m 2) as [g2|]; simpl; [|done].
    destruct (int16 g2) as [i|]; simpl; [|done].
    destruct (group m 4) as [g4|]; simpl; done.
  - simpl. by rewrite extend_no_records.
Qed.

Lemma scan_from p file acc :
  scan p file acc =
  (try! sc := scan p file no_records in Ok (extend acc sc)).
Proof.
  revert acc. induction file as [|line file IH]; intros acc; simpl.
  - by rewrite extend_no_records.
  - rewrite (scan_line_from p line acc).
    destruct (scan_line p line no_records) as [sc1|]; simpl; [|done].
    rewrite (IH (extend acc sc1)), (IH sc1).
    destruct (scan p file no_records) as [sc2|]; simpl; [|done].
    by rewrite extend_assoc.
Qed.

(** X1. The records of a file in two parts are the records of the first
    part followed by the records of the second: the scan keeps the order of
    the lines, and neither sorts nor merges records. *)
Theorem X1_scan_keeps_file_order p file1 file2 :
  scan p (file1 ++ file2) no_records =
  (try! sc1 := scan p file1 no_records in
   try! sc2 := scan p file2 no_records in
   Ok (extend sc1 sc2)).
Proof.
  rewrite scan_app.
  destruct (scan p file1 no_records) as [sc1|]; simpl; [|done].
  apply scan_from.
Qed.

Lemma filter_app_length {A} (f : A -> bool) l1 l2 :
  length (List.filter f (l1 ++ l2))
  = length (List.filter f l1) + length (List.filter f l2).
Proof. by rewrite List.filter_app, length_app. Qed.

(** X2. For each of the three grammars the scan returns, and its three
    lists have one entry for every line that the pattern matches. *)
Theorem X2_one_record_per_matching_line v file :
  exists sc,
    scan (grammar v) file no_records = Ok sc
    /\ length (timestamps sc) = length (List.filter (matches (grammar v)) file)
    /\ length (message_ids sc) = length (timestamps sc)
    /\ length (message_payloads sc) = length (timestamps sc).
Proof.
  destruct (scan_total v file no_records) as [sc Hsc]. exists sc.
  split; [done|].
  destruct (scan_ok _ _ _ _ Hsc no_records_ok) as [Hids Hpl _].
  split; [|done]. clear Hids Hpl. revert sc Hsc.
  induction file as [|line file IH] using rev_ind; intros sc.
  - by intros [= <-].
  - rewrite scan_app. intros H.
    destruct (scan (grammar v) file no_records) as [sc1|] eqn:E1; [|done].
    simpl in H. rewrite filter_app_length, <- (IH sc1 eq_refl). simpl.
    unfold matches. unfold scan_line in H.
    destruct (re_match (grammar v) line) as [m|] eqn:Em.
    + apply match_conforms in Em as Hf. destruct Hf as (f & Hf & ->).
      pose proof (scan_line_conforms v f sc1 Hf) as Hl.
      unfold scan_line in Hl. rewrite Em in Hl. rewrite Hl in H.
      simpl in H. injection H as <-. simpl. by rewrite length_app.
    + simpl in H. injection H as <-. simpl. lia.
Qed.

(** ** Hexadecimal numbers *)

Lemma lower_char_hex c : is_hex (lower_char c) = is_hex c.
Proof. destruct c as [[] [] [] [] [] [] [] []]; reflexivity. Qed.

Lemma lower_char_value c :
  is_hex c = true -> digit_value (lower_char c) = digit_value c.
Proof. destruct c as [[] [] [] [] [] [] [] []]; vm_compute; congruence. Qed.

Lemma digits_value_lower (s : str) acc :
  forallb is_hex s = true ->
  fold_left (fun a c => a * 16 + digit_value c)%Z (lower s) acc
  = fold_left (fun a c => a * 16 + digit_value c)%Z s acc.
Proof.
  revert acc. induction s as [|c s IH]; intros acc; simpl; [done|].
  intros [Hc Hs]%andb_prop. rewrite lower_char_value by done. by apply IH.
Qed.

Lemma lower_run (s : str) : run is_hex s -> run is_hex (lower s).
Proof.
  intros [Hne Hall]. split.
  - destruct s; [done|]. done.
  - clear Hne. induction s as [|c s IH]; simpl in *; [done|].
    apply andb_prop in Hall as [Hc Hs].
    by rewrite lower_char_hex, Hc, IH.
Qed.

(** X3. Hexadecimal digits are read without regard to case: for a run of
    hexadecimal digits, the lower-case spelling has the same value, so two
    spellings of a frame id or of a byte that differ in case only are the
    same number. *)
Theorem X3_hex_ignores_case (s : str) :
  run is_hex s ->
  int16 (lower s) = int16 s
  /\ (forall s', run is_hex s' -> lower s' = lower s -> int16 s' = int16 s).
Proof.
  intros Hs.
  assert (forall u, run is_hex u -> int16 (lower u) = int16 u) as Hlow.
  { intros u Hu. rewrite !int16_hex by (done || by apply lower_run).
    unfold digits_value. by rewrite digits_value_lower by apply Hu. }
  split; [by apply Hlow|].
  intros s' Hs' Heq. rewrite <- (Hlow s'), <- (Hlow s) by done.
  by rewrite Heq.
Qed.

Lemma digits_value_zeros n (s : str) :
  digits_value 16 (replicate n "0"%char ++ s) = digits_value 16 s.
Proof.
  unfold digits_value. rewrite fold_left_app.
  replace (fold_left _ (replicate n "0"%char) 0%Z) with 0%Z; [done|].
  induction n as [|n IH]; simpl; [done|]. exact IH.
Qed.

(** X4. Zeros in front of a hexadecimal number do not change it: the id
    [0100] is the id [100]. *)
Theorem X4_leading_zeros n (s : str) :
  run is_hex s ->
  int16 (replicate n "0"%char ++ s) = int16 s.
Proof.
  intros [Hne Hall].
  rewrite !int16_hex.
  - by rewrite digits_value_zeros.
  - by split.
  - split.
    + destruct n; [done|]. done.
    + rewrite forallb_app, Hall, andb_true_r.
      apply forallb_forall. intros c Hc.
      apply list_elem_of_In, elem_of_replicate in Hc as [-> _]. done.
Qed.

(** ** The bytes of a payload *)

Lemma digit_value_range c :
  is_hex c = true -> (0 <= digit_value c <= 15)%Z.
Proof.
  destruct c as [[] [] [] [] [] [] [] []]; vm_compute; intros H;
    try discriminate; split; discriminate.
Qed.

Lemma digits_from_nonneg (s : str) acc :
  (0 <= acc)%Z -> forallb is_hex s = true ->
  (0 <= fold_left (fun a c => a * 16 + digit_value c) s acc)%Z.
Proof.
  revert acc. induction s as [|c s IH]; intros acc Hacc; simpl; [done|].
  intros [Hc Hs]%andb_prop. apply IH; [|done].
  pose proof (digit_value_range c Hc). lia.
Qed.

Lemma digits_value_nonneg (s : str) :
  forallb is_hex s = true -> (0 <= digits_value 16 s)%Z.
Proof. apply digits_from_nonneg. lia. Qed.

Lemma to_bytes_values (tokens : list str) :
  Forall (run is_hex) tokens ->
  Forall (fun tok => (digits_value 16 tok <= 255)%Z) tokens ->
  exists data,
    to_bytes tokens = Ok data
    /\ map byte_value data = map (digits_value 16) tokens.
Proof.
  induction tokens as [|tok tokens IH]; intros Hhex Hsmall.
  - by exists [].
  - apply Forall_cons in Hhex as [Htok Hhex].
    apply Forall_cons in Hsmall as [Hle Hsmall].
    destruct (IH Hhex Hsmall) as (data & Hdata & Hvalues).
    simpl. rewrite int16_hex by done. simpl.
    pose proof (digits_value_nonneg tok (proj2 Htok)) as Hge.
    destruct (Byte.of_N (Z.to_N (digits_value 16 tok))) as [b|] eqn:E.
    + rewrite Hdata. simpl. exists (b :: data). split; [done|]. simpl.
      rewrite Hvalues. f_equal. unfold byte_value.
      apply Byte.to_of_N in E. rewrite E. lia.
    + apply Byte.of_N_None_iff in E. lia.
Qed.

(** X5. The conversion to bytes succeeds for tokens that are runs of
    hexadecimal digits with values up to [FF], and gives one byte for each
    token, with the value of the token and in the order of the tokens. *)
Theorem X5_bytes_of_tokens (tokens : list str) :
  Forall (run is_hex) tokens ->
  Forall (fun tok => (digits_value 16 tok <= 255)%Z) tokens ->
  exists data,
    to_bytes tokens = Ok data
    /\ map byte_value data = map (digits_value 16) tokens.
Proof. apply to_bytes_values. Qed.

Lemma forallb_drop (P : ascii -> bool) n (s : str) :
  forallb P s = true -> forallb P (drop n s) = true.
Proof.
  revert n. induction s as [|c s IH]; intros [|n]; simpl; try done.
  intros [_ Hs]%andb_prop. by apply IH.
Qed.

Lemma forallb_strip (P : ascii -> bool) (s : str) :
  forallb P s = true -> forallb P (strip s) = true.
Proof.
  intros H. unfold strip, rstrip, lstrip, drop_run.
  rewrite forallb_reverse. apply forallb_drop.
  rewrite forallb_reverse. by apply forallb_drop.
Qed.

Lemma split_ws_from_hex cur (s : str) :
  forallb is_hex cur = true -> forallb is_hexws s = true ->
  Forall (run is_hex) (split_ws_from cur s).
Proof.
  revert cur. induction s as [|c s IH]; intros cur Hcur; simpl.
  - intros _. destruct cur as [|c0 cur]; [done|]. constructor; [|done].
    split.
    + intros E. apply (f_equal length) in E.
      rewrite length_reverse in E. done.
    + by rewrite forallb_reverse.
  - intros [Hc Hs]%andb_prop. destruct (is_space c) eqn:Hsp.
    + destruct cur as [|c0 cur]; [by apply IH|].
      constructor; [|by apply IH]. split.
      * intros E. apply (f_equal length) in E.
        rewrite length_reverse in E. done.
      * by rewrite forallb_reverse.
    + apply IH; [|done]. simpl. rewrite Hcur, andb_true_r.
      apply hexws_cases in Hc as [?|?]; [done|congruence].
Qed.

(** X6. The tokens of the payload of a record are runs of hexadecimal
    digits, whatever follows the declared length on the line: the
    conversion to bytes can only fail on a value above [FF]. *)
Theorem X6_payload_tokens_are_hex (R : str) :
  Forall (run is_hex) (split_ws (payload_text R))
  /\ (Forall (fun tok => (digits_value 16 tok <= 255)%Z)
             (split_ws (payload_text R)) ->
      exists data,
        to_bytes (split_ws (payload_text R)) = Ok data
        /\ map byte_value data
           = map (digits_value 16) (split_ws (payload_text R)))
  /\ (Exists (fun tok => (255 < digits_value 16 tok)%Z)
             (split_ws (payload_text R)) ->
      to_bytes (split_ws (payload_text R)) = Raise ValueError).
Proof.
  assert (Forall (run is_hex) (split_ws (payload_text R))) as Hhex.
  { apply split_ws_from_hex; [done|]. unfold payload_text.
    apply forallb_strip, take_run_forallb. }
  split; [done|]. split.
  - intros Hsmall. by apply to_bytes_values.
  - intros (tok & Hin & Hbig)%Exists_exists.
    eapply to_bytes_overflow; [by apply list_elem_of_In| |done].
    rewrite Forall_forall in Hhex. by apply Hhex.
Qed.

(** ** The table in the decode loop *)

Lemma agree_shape keep t t' :
  agree keep t t' ->
  t'.*1 = t.*1 /\ map (fun kc => length kc.2) t' = map (fun kc => length kc.2) t.
Proof.
  induction 1 as [|kc kc' t t' (Hk & Hl & _) _ [IH1 IH2]]; [done|].
  rewrite !fmap_cons. simpl. split; f_equal; done.
Qed.

(** X7. The decode loop never adds, removes or reorders a column, and
    never changes the length of a column. *)
Theorem X7_loop_keeps_the_columns db i records t t' :
  decode_loop db i records t = Ok t' ->
  t'.*1 = t.*1
  /\ map (fun kc => length kc.2) t' = map (fun kc => length kc.2) t.
Proof. intros H. eapply agree_shape. by eapply decode_loop_agree. Qed.

Lemma setitem_same k idx v t t' :
  setitem k idx v t = Ok t' ->
  exists col, getitem k t' = Ok col /\ col !! idx = Some (Some v).
Proof.
  revert t'. induction t as [|[k0 col] t IH]; intros t'; simpl; [done|].
  case_decide as Hk0.
  - destruct (idx <? length col) eqn:E; [|done]. intros [= <-]. simpl.
    rewrite decide_True by done. eexists. split; [done|].
    apply list_lookup_insert_eq. by apply Nat.ltb_lt.
  - destruct (setitem k idx v t) as [t''|]; simpl; [|done].
    intros [= <-]. simpl. rewrite decide_False by done. by apply IH.
Qed.

Lemma store_all_same decoded idx t t' k v :
  store_all decoded idx t = Ok t' -> NoDup decoded.*1 ->
  (k, v) ∈ decoded ->
  exists col, getitem k t' = Ok col /\ col !! idx = Some (Some v).
Proof.
  revert t. induction decoded as [|[k0 v0] decoded IH]; intros t; simpl.
  - intros _ _ Hin. by apply elem_of_nil in Hin.
  - destruct (setitem k0 idx v0 t) as [t1|] eqn:E; simpl; [|done].
    intros H [Hk0 Hnd]%NoDup_cons [[= -> ->]|Hin]%elem_of_cons.
    + rewrite (store_all_other _ _ _ _ k0 H).
      * by eapply setitem_same.
      * apply Forall_forall. intros [k' v'] Hin' Ek. simpl in Ek. subst k'.
        apply Hk0. apply list_elem_of_fmap. by exists (k0, v').
    + by eapply IH.
Qed.

(** X8. A turn of the loop for a record with a message stores each decoded
    value in the column of its name, in the row of the record; the other
    rows of every column, and the columns of all other names, stay as they
    were. *)
Theorem X8_decoded_values_land_in_their_row
    db idx msg_id payload msg data decoded t t' :
  get_message_by_frame_id db msg_id = Ok msg ->
  to_bytes (split_ws payload) = Ok data ->
  decode msg data = Ok decoded ->
  NoDup decoded.*1 ->
  decode_record db idx msg_id payload t = Ok t' ->
  (forall k v, (k, v) ∈ decoded ->
     exists col, getitem k t' = Ok col /\ col !! idx = Some (Some v))
  /\ (forall k, k ∉ decoded.*1 -> getitem k t' = getitem k t)
  /\ agree (fun j => j <> idx) t t'.
Proof.
  intros Hmsg Hdata Hdec Hnd. unfold decode_record.
  rewrite Hmsg, Hdata. simpl. rewrite Hdec. simpl. intros H.
  split; [|split].
  - intros k v Hin. by eapply store_all_same.
  - intros k Hk. eapply store_all_other; [done|].
    apply Forall_forall. intros [k' v'] Hin E. simpl in E. subst k'.
    apply Hk. apply list_elem_of_fmap. by exists (k, v').
  - by eapply store_all_agree.
Qed.

Lemma setitem_ok k idx v t :
  k ∈ t.*1 -> Forall (fun kc => idx < length kc.2) t ->
  exists t', setitem k idx v t = Ok t'.
Proof.
  induction t as [|[k0 col] t IH]; simpl.
  - by intros ?%elem_of_nil.
  - intros Hin [Hlen Hrest]%Forall_cons. simpl in Hlen.
    case_decide as Hk0.
    + apply Nat.ltb_lt in Hlen. rewrite Hlen. eauto.
    + apply elem_of_cons in Hin as [?|Hin]; [congruence|].
      destruct (IH Hin Hrest) as [t' ->]. simpl. eauto.
Qed.

Lemma agree_bound keep idx t t' :
  agree keep t t' -> Forall (fun kc => idx < length kc.2) t ->
  Forall (fun kc => idx < length kc.2) t'.
Proof.
  induction 1 as [|kc kc' t t' (_ & Hl & _) _ IH]; [done|].
  intros [H1 H2]%Forall_cons. constructor; [|auto]. by rewrite <- Hl.
Qed.

Lemma store_all_ok decoded idx t :
  Forall (fun kv => kv.1 ∈ t.*1) decoded ->
  Forall (fun kc => idx < length kc.2) t ->
  exists t', store_all decoded idx t = Ok t'.
Proof.
  revert t. induction decoded as [|[k v] decoded IH]; intros t; simpl;
    [eauto|].
  intros [Hk Hrest]%Forall_cons Hlen. simpl in Hk.
  destruct (setitem_ok k idx v t Hk Hlen) as [t1 E]. rewrite E. simpl.
  apply setitem_agree in E.
  destruct (agree_shape _ _ _ E) as [Hkeys _].
  apply IH.
  - by rewrite Hkeys.
  - by eapply agree_bound.
Qed.

Lemma store_all_in_loop db ts decoded idx t :
  agree (fun _ => False) (init_result db ts) t ->
  Forall (fun kv => declared db kv.1) decoded ->
  idx < length ts ->
  exists t',
    store_all decoded idx t = Ok t'
    /\ agree (fun _ => False) (init_result db ts) t'.
Proof.
  intros Hshape Hdecl Hidx.
  destruct (agree_shape _ _ _ Hshape) as [Hkeys Hlens].
  destruct (store_all_ok decoded idx t) as [t' Ht'].
  - eapply Forall_impl; [done|]. intros kv Hkv. simpl. rewrite Hkeys.
    apply init_result_keys. by right.
  - eapply Forall_impl.
    + eapply agree_lengths; [done|]. apply fresh_lengths, init_result_fresh.
    + intros kc Hkc. simpl in *. lia.
  - exists t'. split; [done|].
    eapply agree_weaken; [|eapply agree_trans; [done|]].
    + intros j []. 
    + by eapply store_all_agree.
Qed.

Lemma decode_record_in_loop db ts idx msg_id payload t :
  decodes_declared db ->
  agree (fun _ => False) (init_result db ts) t ->
  idx < length ts ->
  (exists t', decode_record db idx msg_id payload t = Ok t'
              /\ agree (fun _ => False) (init_result db ts) t')
  \/ exists e, decode_record db idx msg_id payload t = Raise e
               /\ record_raises db msg_id payload e.
Proof.
  intros Hsound Hshape Hidx. unfold decode_record, record_raises.
  destruct (get_message_by_frame_id db msg_id) as [msg|e] eqn:Hmsg.
  - destruct (to_bytes (split_ws payload)) as [data|e] eqn:Hdata; simpl.
    + destruct (decode msg data) as [decoded|e] eqn:Hdec; simpl.
      * left. eapply store_all_in_loop; [done| |done]. by eapply Hsound.
      * right. exists e. split; [done|]. right. exists msg. split; [done|].
        right. by exists data.
    + right. exists e. split; [done|]. right. exists msg. by split; [|left].
  - destruct e; try (right; eexists; by split; [|left]).
    left. by exists t.
Qed.

Lemma decode_loop_in_loop db ts i records t :
  decodes_declared db ->
  agree (fun _ => False) (init_result db ts) t ->
  i + length records <= length ts ->
  (exists t', decode_loop db i records t = Ok t'
              /\ agree (fun _ => False) (init_result db ts) t')
  \/ exists e j msg_id payload,
       decode_loop db i records t = Raise e
       /\ records !! j = Some (msg_id, payload)
       /\ record_raises db msg_id payload e.
Proof.
  intros Hsound. revert i t.
  induction records as [|[msg_id payload] records IH]; intros i t Hshape Hlen;
    simpl in *.
  - left. by exists t.
  - destruct (decode_record_in_loop db ts i msg_id payload t)
      as [(t1 & -> & Hshape1)|(e & -> & He)]; [done|done|lia| |].
    + simpl. destruct (IH (S i) t1) as [?|(e & j & m & p & -> & Hj & He)];
        [done|lia|by left|].
      right. by exists e, (S j), m, p.
    + right. by exists e, 0, msg_id, payload.
Qed.

Lemma build_table_after_loop db sc t :
  decode_loop db 0 (zip (message_ids sc) (message_payloads sc))
              (init_result db (timestamps sc)) = Ok t ->
  build_table db sc
  = Ok (dropna {| rows := length (timestamps sc); columns := t |}).
Proof.
  intros E. unfold build_table. rewrite E. simpl.
  pose proof (init_result_fresh db (timestamps sc)) as Hfresh.
  pose proof (decode_loop_agree _ _ _ _ _ E) as Hagree.
  rewrite (make_frame_ok (length (timestamps sc))); [done| |].
  - destruct Hfresh as (others & Hinit & _). rewrite Hinit in Hagree.
    inversion Hagree. done.
  - eapply agree_lengths; [done|]. by apply fresh_lengths.
Qed.

(** X9. When the decoding of a message names signals of the database only,
    the second half of [decode_can] raises nothing of its own: an exception
    of [build_table] is the exception of one record, raised by the lookup of
    its message, by the conversion of its payload to bytes or by its
    decoding.  Writing to the table and building the frame never fail. *)
Theorem X9_exceptions_come_from_a_record db sc e :
  decodes_declared db ->
  length (message_ids sc) <= length (timestamps sc) ->
  build_table db sc = Raise e ->
  exists idx msg_id payload,
    zip (message_ids sc) (message_payloads sc) !! idx = Some (msg_id, payload)
    /\ record_raises db msg_id payload e.
Proof.
  intros Hsound Hlen Hraise.
  destruct (decode_loop_in_loop db (timestamps sc) 0
              (zip (message_ids sc) (message_payloads sc))
              (init_result db (timestamps sc)) Hsound)
    as [(t & Ht & _)|(e' & j & m & p & He' & Hj & Hcause)].
  - apply agree_refl.
  - rewrite length_zip_with. lia.
  - by rewrite (build_table_after_loop _ _ _ Ht) in Hraise.
  - unfold build_table in Hraise. rewrite He' in Hraise. simpl in Hraise.
    injection Hraise as ->. by exists j, m, p.
Qed.

(** ** Tables without signals *)

Lemma filter_all_na (t : table) :
  Forall (fun kc => all_na kc.2 = true) t ->
  List.filter (fun kv => negb (all_na kv.2)) t = [].
Proof.
  induction 1 as [|kc t Hkc _ IH]; simpl; [done|]. by rewrite Hkc.
Qed.

Lemma build_table_no_records db :
  build_table db no_records = Ok {| rows := 0; columns := [] |}.
Proof.
  rewrite (build_table_after_loop db no_records (init_result db [])) by done.
  unfold dropna. simpl. f_equal. f_equal. apply filter_all_na.
  eapply Forall_impl; [apply (fresh_lengths []), init_result_fresh|].
  intros [k col] Hlen. simpl in *. by destruct col.
Qed.

Lemma decode_loop_all_missed db i records t :
  Forall (fun r => get_message_by_frame_id db r.1 = Raise KeyError) records ->
  decode_loop db i records t = Ok t.
Proof.
  intros H. revert i. induction H as [|[msg_id payload] records Hr _ IH];
    intros i; simpl; [done|].
  simpl in Hr. rewrite decode_record_miss by done. simpl. apply IH.
Qed.

Lemma all_na_nones n : all_na (replicate n None) = true.
Proof. induction n as [|n IH]; simpl; [done|]. exact IH. Qed.

Lemma build_table_all_missed db sc :
  scanned_ok sc -> timestamps sc <> [] ->
  Forall (fun msg_id => get_message_by_frame_id db msg_id = Raise KeyError)
         (message_ids sc) ->
  build_table db sc
  = Ok {| rows := length (timestamps sc);
          columns := [(Timestamp, map Some (timestamps sc))] |}.
Proof.
  intros [Hids Hpl Hnum] Hne Hmiss.
  rewrite (build_table_after_loop db sc (init_result db (timestamps sc))).
  - destruct (init_result_fresh db (timestamps sc)) as (others & -> & Hothers).
    unfold dropna. simpl.
    assert (all_na (map Some (timestamps sc)) = false) as ->.
    { destruct (timestamps sc) as [|ts l]; [done|].
      apply Forall_cons in Hnum as [Hts _]. simpl. by destruct ts. }
    simpl. f_equal. f_equal. f_equal. apply filter_all_na.
    eapply Forall_impl; [done|]. intros kc [_ Hcol]. simpl.
    unfold cell in *. rewrite Hcol. apply all_na_nones.
  - apply decode_loop_all_missed. apply Forall_forall.
    intros [msg_id payload] Hin. simpl.
    apply list_elem_of_lookup in Hin as [j Hj].
    apply lookup_zip_with_Some in Hj as (i' & p' & [= <- <-] & Hi & _).
    rewrite Forall_forall in Hmiss. apply Hmiss.
    by eapply list_elem_of_lookup_2.
Qed.

(** ** The callbacks *)

Lemma getitem_NoDup k col (t : table) :
  NoDup t.*1 -> In (k, col) t -> getitem k t = Ok col.
Proof.
  induction t as [|[k0 col0] t IH]; simpl; [done|].
  rewrite ?fmap_cons. intros [Hk0 Hnd]%NoDup_cons [[= -> ->]|Hin].
  - by rewrite decide_True.
  - rewrite decide_False; [by apply IH|]. intros ->. apply Hk0.
    apply list_elem_of_fmap. exists (k, col). split; [done|].
    by apply list_elem_of_In.
Qed.

Lemma filter_keys_NoDup (f : str * list cell -> bool) (t : table) :
  NoDup t.*1 -> NoDup (List.filter f t).*1.
Proof.
  induction t as [|kc t IH]; simpl; [done|]. rewrite ?fmap_cons.
  intros [Hk Hnd]%NoDup_cons. destruct (f kc); [|by apply IH].
  rewrite ?fmap_cons. apply NoDup_cons. split; [|by apply IH].
  intros (kc' & Hkc' & Hin)%list_elem_of_fmap. apply Hk.
  apply list_elem_of_fmap. exists kc'. split; [done|].
  apply list_elem_of_In. apply list_elem_of_In in Hin.
  by apply filter_In in Hin as [? _].
Qed.

Lemma build_table_keys_NoDup db sc df :
  build_table db sc = Ok df -> NoDup (columns df).*1.
Proof.
  intros (t & Hloop & ->)%build_table_ok. unfold dropna. simpl.
  apply filter_keys_NoDup.
  apply decode_loop_agree, agree_shape in Hloop as [-> _].
  apply init_result_keys.
Qed.

(** The chart of one column. *)
Lemma plots_columns (df : DataFrame) xs (sub : table) :
  NoDup (columns df).*1 ->
  getitem Timestamp (columns df) = Ok xs ->
  (forall kc, In kc sub -> In kc (columns df)) ->
  plots df (map fst sub)
  = Ok (map (fun kc => {| title := kc.1; x := xs; y := kc.2 |}) sub).
Proof.
  intros Hnd Hxs. induction sub as [|[k col] sub IH]; intros Hsub; simpl;
    [done|].
  rewrite Hxs. simpl.
  rewrite (getitem_NoDup k col) by (done || apply Hsub; by left). simpl.
  rewrite IH by (intros kc Hkc; apply Hsub; by right). done.
Qed.

Lemma filter_map_fst (f : str -> bool) (t : table) :
  List.filter f (map fst t) = map fst (List.filter (fun kc => f kc.1) t).
Proof.
  induction t as [|kc t IH]; simpl; [done|].
  destruct (f kc.1); simpl; by rewrite IH.
Qed.

Section CallbackProperties.

Variable dbc_file : Type.
Variable load_file : dbc_file -> result Database.

Lemma decode_can_keys_NoDup dbc trc df :
  decode_can load_file dbc trc = Ok df -> NoDup (columns df).*1.
Proof.
  intros (db & header & sc & _ & _ & _ & Hbuild)%decode_can_ok.
  by eapply build_table_keys_NoDup.
Qed.

(** X10. A trace of ten lines or more in which no line matches the
    selected pattern gives the empty frame, and the callback answers that
    there is nothing to plot. *)
Theorem X10_nothing_matches dbc trc db st :
  load_file dbc = Ok db ->
  10 <= length (file_lines trc) ->
  (forall l, In l (file_lines trc) ->
     re_match (select_pattern (file_version (take 10 (file_lines trc)))) l
     = None) ->
  decode_can load_file dbc trc = Ok {| rows := 0; columns := [] |}
  /\ (dbc_tmp_path st = Some dbc -> trc_tmp_path st = Some trc ->
      decode_and_plot load_file st = Ok (Text "No data to plot.", true, st)).
Proof.
  intros Hdb Hlen Hnone.
  assert (decode_can load_file dbc trc = Ok {| rows := 0; columns := [] |})
    as Hcan.
  { unfold decode_can. rewrite Hdb. cbn [bind].
    rewrite next_n_take by done. cbn [bind].
    rewrite scan_no_match by done. cbn [bind]. apply build_table_no_records. }
  split; [done|]. intros Hd Ht. unfold decode_and_plot.
  by rewrite Hd, Ht, Hcan.
Qed.

(** X11. When no record of the trace has a message in the database, the
    frame has the [Timestamp] column alone, with the time offsets of the
    records, and the callback answers that there is nothing to plot. *)
Theorem X11_only_unknown_ids dbc trc db header sc st :
  load_file dbc = Ok db ->
  next_n 10 (file_lines trc) = Ok header ->
  scan (select_pattern (file_version header)) (file_lines trc) no_records
    = Ok sc ->
  timestamps sc <> [] ->
  Forall (fun msg_id => get_message_by_frame_id db msg_id = Raise KeyError)
         (message_ids sc) ->
  decode_can load_file dbc trc
  = Ok {| rows := length (timestamps sc);
          columns := [(Timestamp, map Some (timestamps sc))] |}
  /\ (dbc_tmp_path st = Some dbc -> trc_tmp_path st = Some trc ->
      decode_and_plot load_file st = Ok (Text "No data to plot.", true, st)).
Proof.
  intros Hdb Hheader Hscan Hne Hmiss.
  assert (decode_can load_file dbc trc
          = Ok {| rows := length (timestamps sc);
                  columns := [(Timestamp, map Some (timestamps sc))] |})
    as Hcan.
  { unfold decode_can. rewrite Hdb. cbn [bind]. rewrite Hheader. cbn [bind].
    rewrite Hscan. cbn [bind]. apply build_table_all_missed; [|done..].
    eapply scan_ok; [done|]. apply no_records_ok. }
  split; [done|]. intros Hd Ht. unfold decode_and_plot.
  rewrite Hd, Ht, Hcan. cbn [bind rows columns]. simpl length.
  by rewrite orb_true_r.
Qed.

(** X12. The callback enables the download only together with charts, and
    then [decoded.csv] holds the table that was decoded from the two
    files; whenever it answers with a text, the download stays disabled
    and no file is changed.  It never changes the two uploaded files. *)
Theorem X12_download_enabled_only_with_charts st out disabled st' :
  decode_and_plot load_file st = Ok (out, disabled, st') ->
  dbc_tmp_path st' = dbc_tmp_path st
  /\ trc_tmp_path st' = trc_tmp_path st
  /\ ((disabled = true /\ st' = st
       /\ (out = Text "Please upload both files."
           \/ out = Text "No data to plot."))
      \/ (disabled = false
          /\ exists dbc trc df figs,
               dbc_tmp_path st = Some dbc /\ trc_tmp_path st = Some trc
               /\ decode_can load_file dbc trc = Ok df
               /\ rows df <> 0 /\ 2 <= length (columns df)
               /\ out = Graphs figs
               /\ decoded_csv_path st' = Some df)).
Proof.
  unfold decode_and_plot.
  destruct (dbc_tmp_path st) as [dbc|] eqn:Hd;
    [destruct (trc_tmp_path st) as [trc|] eqn:Ht|].
  - destruct (decode_can load_file dbc trc) as [df|] eqn:Hcan; cbn [bind];
      [|done].
    destruct (rows df =? 0) eqn:Hrows; cbn [orb].
    { intros [= <- <- <-]. rewrite Hd, Ht. split; [done|]. split; [done|].
      left. auto. }
    destruct (length (columns df) <? 2) eqn:Hcols.
    { intros [= <- <- <-]. rewrite Hd, Ht. split; [done|]. split; [done|].
      left. auto. }
    destruct (plots df _) as [figs|]; cbn [bind]; [|done].
    intros [= <- <- <-]. simpl. rewrite Hd, Ht. split; [done|].
    split; [done|]. right. split; [done|].
    exists dbc, trc, df, figs. apply Nat.eqb_neq in Hrows.
    apply Nat.ltb_ge in Hcols. by repeat split.
  - intros [= <- <- <-]. rewrite Hd, Ht. split; [done|]. split; [done|].
    left. auto.
  - intros [= <- <- <-]. rewrite Hd. split; [done|]. split; [done|].
    left. auto.
Qed.

(** X13. For a table with a row, two columns or more and the [Timestamp]
    column among them, the callback returns one chart for each column whose
    name in lower case is not [timestamp], in the order of the columns:
    the chart has the name of the column as its title, the [Timestamp]
    column as [x] and the column as [y].  The table is written to
    [decoded.csv] and the download is enabled. *)
Theorem X13_one_chart_per_signal_column dbc trc df xs st :
  dbc_tmp_path st = Some dbc -> trc_tmp_path st = Some trc ->
  decode_can load_file dbc trc = Ok df ->
  rows df <> 0 -> 2 <= length (columns df) ->
  getitem Timestamp (columns df) = Ok xs ->
  decode_and_plot load_file st
  = Ok (Graphs
          (map (fun kc => {| title := kc.1; x := xs; y := kc.2 |})
               (List.filter
                  (fun kc =>
                     negb (bool_decide (lower kc.1 = chars "timestamp")))
                  (columns df))),
        false, to_csv df st).
Proof.
  intros Hd Ht Hcan Hrows Hcols Hxs. unfold decode_and_plot.
  rewrite Hd, Ht, Hcan. cbn [bind].
  apply Nat.eqb_neq in Hrows. apply Nat.ltb_ge in Hcols.
  rewrite Hrows, Hcols. cbn [orb].
  rewrite (filter_map_fst
             (fun c => negb (bool_decide (lower c = chars "timestamp")))).
  rewrite (plots_columns df xs).
  - done.
  - by eapply decode_can_keys_NoDup.
  - done.
  - intros kc Hkc. by apply filter_In in Hkc as [? _].
Qed.

(** X14. After a callback that enabled the download, [download_csv] sends
    the table decoded from the two files; after a callback that answered
    with a text it does what it did before, sending the table of an earlier
    decoding if there is one. *)
Theorem X14_download_after_decode st out disabled st' :
  decode_and_plot load_file st = Ok (out, disabled, st') ->
  (disabled = false ->
     exists dbc trc df,
       dbc_tmp_path st = Some dbc /\ trc_tmp_path st = Some trc
       /\ decode_can load_file dbc trc = Ok df
       /\ download_csv st' = send_file df)
  /\ (disabled = true -> download_csv st' = download_csv st).
Proof.
  unfold decode_and_plot, download_csv.
  destruct (dbc_tmp_path st) as [dbc|] eqn:Hd;
    [destruct (trc_tmp_path st) as [trc|] eqn:Ht|].
  - destruct (decode_can load_file dbc trc) as [df|] eqn:Hcan; cbn [bind];
      [|done].
    destruct ((rows df =? 0) || (length (columns df) <? 2)).
    { intros [= <- <- <-]. by split. }
    destruct (plots df _) as [figs|]; cbn [bind]; [|done].
    intros [= <- <- <-]. split; [|done]. intros _. by exists dbc, trc, df.
  - intros [= <- <- <-]. by split.
  - intros [= <- <- <-]. by split.
Qed.

End CallbackProperties.

(** ** Uploads *)

Lemma split_on_from_first sep cur a s :
  ~ In sep a ->
  split_on_from sep cur (a ++ sep :: s)
  = (reverse cur ++ a) :: split_on_from sep [] s.
Proof.
  revert cur. induction a as [|c a IH]; intros cur Hno; simpl.
  - by rewrite Ascii.eqb_refl, app_nil_r.
  - destruct (Ascii.eqb c sep) eqn:E.
    + apply Ascii.eqb_eq in E as ->. destruct Hno. by left.
    + rewrite IH by (intros ?; apply Hno; by right).
      by rewrite reverse_cons, <- app_assoc.
Qed.

(** X15. The part of an uploaded content that is decoded is the text
    between its first and its second comma, or after its first comma when
    there is no second; a content without a comma raises [IndexError]. *)
Theorem X15_content_after_the_comma (a b : str) :
  ~ In ","%char a -> ~ In ","%char b ->
  content_string (a ++ chars "," ++ b) = Ok b
  /\ (forall c, content_string (a ++ chars "," ++ b ++ chars "," ++ c) = Ok b)
  /\ content_string a = Raise IndexError.
Proof.
  intros Ha Hb. unfold content_string, split_on. simpl. split; [|split].
  - rewrite split_on_from_first by done.
    by rewrite split_on_from_none by done.
  - intros c. rewrite split_on_from_first by done.
    by rewrite split_on_from_first by done.
  - by rewrite split_on_from_none by done.
Qed.

Section UploadProperties.

Variable b64decode : str -> result (list Byte.byte).

(** X16. [save_files] never touches a file whose content or name is
    missing or empty, whatever happens to the other file. *)
Theorem X16_incomplete_upload_is_ignored
    dbc_content dbc_name trc_content trc_name st :
  (truthy dbc_content && truthy dbc_name = false ->
     latest_dbc (save_files b64decode dbc_content dbc_name
                            trc_content trc_name st).2
     = latest_dbc st)
  /\ (truthy trc_content && truthy trc_name = false ->
      latest_trc (save_files b64decode dbc_content dbc_name
                             trc_content trc_name st).2
      = latest_trc st).
Proof.
  unfold save_files, write_upload. split; intros H.
  - rewrite H.
    destruct (truthy trc_content && truthy trc_name); [|done].
    destruct (content_string (text_of trc_content)) as [piece|]; [|done].
    by destruct (b64decode piece).
  - rewrite H.
    destruct (truthy dbc_content && truthy dbc_name); [|done].
    destruct (content_string (text_of dbc_content)) as [piece|]; [|done].
    by destruct (b64decode piece).
Qed.

(** X17. When [save_files] returns, every complete upload has been
    written: the file holds the decoding of the part of the content after
    the comma.  The text names the files that were written, [DBC] first,
    joined by a bar, and is empty when none was. *)
Theorem X17_files_written_on_return
    dbc_content dbc_name trc_content trc_name st text st' :
  save_files b64decode dbc_content dbc_name trc_content trc_name st
    = (Ok text, st') ->
  (if truthy dbc_content && truthy dbc_name
   then exists piece data,
          content_string (text_of dbc_content) = Ok piece
          /\ b64decode piece = Ok data /\ latest_dbc st' = Some data
   else latest_dbc st' = latest_dbc st)
  /\ (if truthy trc_content && truthy trc_name
      then exists piece data,
             content_string (text_of trc_content) = Ok piece
             /\ b64decode piece = Ok data /\ latest_trc st' = Some data
      else latest_trc st' = latest_trc st)
  /\ text =
     join (chars " | ")
       ((if truthy dbc_content && truthy dbc_name
         then [chars "DBC uploaded: " ++ text_of dbc_name] else [])
        ++ (if truthy trc_content && truthy trc_name
            then [chars "TRC uploaded: " ++ text_of trc_name] else [])).
Proof.
  unfold save_files, write_upload.
  destruct (truthy dbc_content && truthy dbc_name);
    destruct (truthy trc_content && truthy trc_name).
  - destruct (content_string (text_of dbc_content)) as [p1|]; [|done].
    destruct (b64decode p1) as [d1|] eqn:E1; [|done].
    destruct (content_string (text_of trc_content)) as [p2|]; [|done].
    destruct (b64decode p2) as [d2|] eqn:E2; [|done].
    intros [= <- <-]. simpl. split; [by exists p1, d1|].
    split; [by exists p2, d2|done].
  - destruct (content_string (text_of dbc_content)) as [p1|]; [|done].
    destruct (b64decode p1) as [d1|] eqn:E1; [|done].
    intros [= <- <-]. simpl. split; [by exists p1, d1|done].
  - destruct (content_string (text_of trc_content)) as [p2|]; [|done].
    destruct (b64decode p2) as [d2|] eqn:E2; [|done].
    intros [= <- <-]. simpl. split; [done|]. split; [by exists p2, d2|done].
  - by intros [= <- <-].
Qed.

(** X18. What a failed upload leaves behind.  A content without a comma
    raises before the file is opened and leaves it as it was; a part that
    [b64decode] refuses leaves the file empty, since it was opened for
    writing first.  A failure for the DBC file ends the callback before the
    TRC file is looked at; a failure for the TRC file comes after the DBC
    file has been written. *)
Theorem X18_failed_upload dbc_content dbc_name trc_content trc_name st e :
  (truthy dbc_content && truthy dbc_name = true ->
     (content_string (text_of dbc_content) = Raise e ->
        save_files b64decode dbc_content dbc_name trc_content trc_name st
        = (Raise e, st))
     /\ (forall piece,
           content_string (text_of dbc_content) = Ok piece ->
           b64decode piece = Raise e ->
           save_files b64decode dbc_content dbc_name trc_content trc_name st
           = (Raise e, {| latest_dbc := Some [];
                          latest_trc := latest_trc st |})))
  /\ (truthy trc_content && truthy trc_name = true ->
      forall piece data,
        truthy dbc_content && truthy dbc_name = true ->
        content_string (text_of dbc_content) = Ok piece ->
        b64decode piece = Ok data ->
        (content_string (text_of trc_content) = Raise e ->
           save_files b64decode dbc_content dbc_name trc_content trc_name st
           = (Raise e, {| latest_dbc := Some data;
                          latest_trc := latest_trc st |}))
        /\ (forall piece',
              content_string (text_of trc_content) = Ok piece' ->
              b64decode piece' = Raise e ->
              save_files b64decode dbc_content dbc_name trc_content
                         trc_name st
              = (Raise e, {| latest_dbc := Some data;
                             latest_trc := Some [] |}))).
Proof.
  unfold save_files, write_upload. split.
  - intros ->. split.
    + intros ->. by destruct st.
    + by intros piece -> ->.
  - intros -> piece data -> -> ->. split.
    + by intros ->.
    + by intros piece' -> ->.
Qed.

End UploadProperties.

(** ** The three grammars exclude each other *)

Lemma run_unique cls a b a' b' :
  forallb cls a = true -> forallb cls a' = true ->
  stops cls b -> stops cls b' ->
  a ++ b = a' ++ b' -> a = a' /\ b = b'.
Proof.
  intros Ha Ha' Hb Hb' E.
  assert (a = a') as ->.
  { apply (f_equal (take_run cls)) in E.
    by rewrite !take_run_app, !take_run_stops, !app_nil_r in E by done. }
  split; [done|]. by apply app_inv_head in E.
Qed.

Lemma run_not_lit cls c tok s s' :
  run cls tok -> cls c = false -> c :: s <> tok ++ s'.
Proof.
  intros [Hne Hall] Hc E. destruct tok as [|c' tok]; [done|].
  simpl in *. injection E as <- _. apply andb_prop in Hall as [? _].
  congruence.
Qed.

Ltac run_hyp :=
  match goal with
  | H : run ?cls ?a |- forallb ?cls ?a = true => apply H
  | |- forallb _ _ = true => assumption
  end.

Ltac peel_with cls E :=
  apply (run_unique cls) in E as [? E]; [subst|run_hyp|run_hyp|stops_tac..].

Ltac peel E :=
  lazymatch type of E with
  | ?c :: _ = ?c :: _ => injection E as E
  | ?a ++ _ = _ ++ _ =>
      match goal with
      | H : run ?cls a |- _ => peel_with cls E
      | H : forallb ?cls a = true |- _ => peel_with cls E
      end
  end.

Lemma grammars_exclusive v v' f g :
  conforms v f -> conforms v' g -> text f = text g -> v = v'.
Proof.
  intros [Hind Hnum Hs1 Hti Htf Hs2 Hid Hs3 Hlen Hrest]
         [Hind' Hnum' Hs1' Hti' Htf' Hs2' Hid' Hs3' Hlen' Hrest'].
  destruct f as [ind num s1 ti tf s2 i s3 len R].
  destruct g as [ind' num' s1' ti' tf' s2' i' s3' len' R'].
  unfold text. simpl in *. intros E.
  destruct v, v'; try done; exfalso;
    inversion Hs1; inversion Hs2; inversion Hs3;
    inversion Hs1'; inversion Hs2'; inversion Hs3'; subst;
    simpl in E; repeat (rewrite <- app_assoc in E; simpl in E).
  all: do 2 peel E.
  - refine (run_not_lit is_space _ _ _ _ _ _ E); [eassumption|reflexivity].
  - refine (run_not_lit is_space _ _ _ _ _ _ E); [eassumption|reflexivity].
  - refine (run_not_lit is_space _ _ _ _ _ _ (eq_sym E));
      [eassumption|reflexivity].
  - repeat peel E.
    refine (run_not_lit is_digit _ _ _ _ _ _ (eq_sym E));
      [eassumption|reflexivity].
  - refine (run_not_lit is_space _ _ _ _ _ _ (eq_sym E));
      [eassumption|reflexivity].
  - repeat peel E.
    refine (run_not_lit is_digit _ _ _ _ _ _ E); [eassumption|reflexivity].
Qed.

Lemma other_pattern_no_match v v' f :
  conforms v f -> v' <> v -> re_match (grammar v') (text f) = None.
Proof.
  intros Hf Hne.
  destruct (re_match (grammar v') (text f)) as [m|] eqn:Em; [|done].
  apply match_conforms in Em as (g & Hg & Eq). destruct Hne.
  symmetry. by eapply grammars_exclusive.
Qed.

(** X19. The three grammars exclude each other: a line of the shape of
    one grammar is matched by the pattern of that grammar only, so under
    the pattern of another version it adds no record. *)
Theorem X19_patterns_exclude_each_other v v' f acc :
  conforms v f -> v' <> v ->
  re_match (grammar v') (text f) = None
  /\ scan_line (grammar v') (text f) acc = Ok acc.
Proof.
  intros Hf Hne. pose proof (other_pattern_no_match v v' f Hf Hne) as Hnone.
  split; [done|]. by apply scan_line_no_match.
Qed.

(** X20. A version 1.1 or 2.0 trace whose head names another version, or
    no version, is read with the third pattern and gives the empty frame:
    each of its data lines is passed over. *)
Theorem X20_wrong_version_gives_no_record {dbc_file}
    (load_file : dbc_file -> result Database) dbc trc db v :
  load_file dbc = Ok db ->
  10 <= length (file_lines trc) ->
  select_pattern (file_version (take 10 (file_lines trc))) = pattern_v3 ->
  v <> V2_1 ->
  (forall l, In l (file_lines trc) ->
     (exists f, conforms v f /\ l = text f)
     \/ forall f, conforms V2_1 f -> l <> text f) ->
  decode_can load_file dbc trc = Ok {| rows := 0; columns := [] |}.
Proof.
  intros Hdb Hlen Hsel Hv Hlines. unfold decode_can.
  rewrite Hdb. cbn [bind]. rewrite next_n_take by done. cbn [bind].
  rewrite Hsel, scan_no_match.
  - cbn [bind]. apply build_table_no_records.
  - intros l Hl. destruct (Hlines l Hl) as [(f & Hf & ->)|Hno].
    + by apply (other_pattern_no_match v V2_1).
    + destruct (re_match pattern_v3 l) as [m|] eqn:Em; [|done].
      apply (match_conforms V2_1) in Em as (g & Hg & ->).
      by destruct (Hno g).
Qed.

(** ** The table that is returned *)

(** X21. The dictionary before the loop has the key [Timestamp] and the
    names of the signals of the database as keys, each once.  The
    [Timestamp] column holds the time offsets, and every other column holds
    [None] for each record. *)
Theorem X21_columns_before_the_loop db ts :
  NoDup (init_result db ts).*1
  /\ (forall k, k ∈ (init_result db ts).*1 <-> k = Timestamp \/ declared db k)
  /\ getitem Timestamp (init_result db ts) = Ok (map Some ts)
  /\ (forall k, declared db k -> k <> Timestamp ->
        getitem k (init_result db ts) = Ok (replicate (length ts) None)).
Proof.
  destruct (init_result_keys db ts) as [Hnd Hkeys].
  split; [done|]. split; [done|]. split.
  - by destruct (init_result_fresh db ts) as (others & -> & _).
  - intros k. apply init_result_columns.
Qed.

(** X22. When no message decodes a signal under the name [Timestamp], the
    frame that is returned for one record or more has one row for each
    record and the [Timestamp] column, which holds the time offsets of the
    records in the order of the file. *)
Theorem X22_timestamps_in_file_order db sc df :
  never_decodes db Timestamp -> scanned_ok sc -> timestamps sc <> [] ->
  build_table db sc = Ok df ->
  rows df = length (timestamps sc)
  /\ getitem Timestamp (columns df) = Ok (map Some (timestamps sc)).
Proof. apply build_table_timestamps. Qed.

Lemma agree_getitem keep t t' k col :
  agree keep t t' -> getitem k t = Ok col ->
  exists col', getitem k t' = Ok col'
               /\ forall j, keep j -> col' !! j = col !! j.
Proof.
  induction 1 as [|[k0 c0] [k1 c1] t t' (Hk & _ & Hc) _ IH]; simpl; [done|].
  simpl in Hk. subst k1. case_decide.
  - intros [= <-]. by exists c1.
  - apply IH.
Qed.

Lemma decode_loop_writes db i records t t' j msg_id payload msg data
    decoded k v :
  decode_loop db i records t = Ok t' ->
  records !! j = Some (msg_id, payload) ->
  get_message_by_frame_id db msg_id = Ok msg ->
  to_bytes (split_ws payload) = Ok data ->
  decode msg data = Ok decoded ->
  NoDup decoded.*1 -> (k, v) ∈ decoded ->
  exists col, getitem k t' = Ok col /\ col !! (i + j) = Some (Some v).
Proof.
  intros Hloop Hj Hmsg Hdata Hdec Hnd Hin. revert i j t Hloop Hj.
  induction records as [|[id0 p0] records IH]; intros i j t; [done|].
  simpl. destruct (decode_record db i id0 p0 t) as [t1|] eqn:E1; [|done].
  simpl. destruct j as [|j].
  - intros Hloop [= -> ->]. unfold decode_record in E1.
    rewrite Hmsg, Hdata in E1. simpl in E1. rewrite Hdec in E1. simpl in E1.
    destruct (store_all_same _ _ _ _ k v E1 Hnd Hin) as (col & Hcol & Hv).
    apply decode_loop_agree in Hloop.
    destruct (agree_getitem _ _ _ _ _ Hloop Hcol) as (col' & Hcol' & Hsame).
    exists col'. split; [done|]. rewrite Nat.add_0_r, Hsame; [done|].
    intros r Hle. lia.
  - intros Hloop Hj. simpl in Hj.
    destruct (IH (S i) j t1 Hloop Hj) as (col & Hcol & Hv).
    exists col. split; [done|]. by replace (i + S j) with (S i + j) by lia.
Qed.

(** X23. Every value that the decoding of a record gives, and that is not
    a NaN, is in the frame that is returned: in the column of its name, in
    the row of the record.  No column of the frame is empty in every
    row. *)
Theorem X23_decoded_values_are_returned
    db sc df idx msg_id payload msg data decoded k v :
  build_table db sc = Ok df ->
  zip (message_ids sc) (message_payloads sc) !! idx = Some (msg_id, payload) ->
  get_message_by_frame_id db msg_id = Ok msg ->
  to_bytes (split_ws payload) = Ok data ->
  decode msg data = Ok decoded ->
  NoDup decoded.*1 -> (k, v) ∈ decoded -> is_nan v = false ->
  (exists col, getitem k (columns df) = Ok col
               /\ col !! idx = Some (Some v))
  /\ (forall k' col', In (k', col') (columns df) -> all_na col' = false).
Proof.
  intros Hbuild Hidx Hmsg Hdata Hdec Hnd Hin Hv.
  apply build_table_ok in Hbuild as (t & Hloop & ->).
  split; [|intros k' col'; apply dropna_no_empty_column].
  destruct (decode_loop_writes _ _ _ _ _ _ _ _ _ _ _ _ _
              Hloop Hidx Hmsg Hdata Hdec Hnd Hin) as (col & Hcol & Hcell).
  exists col. split; [|done]. simpl. apply getitem_filter; [done|].
  eapply all_na_lookup; [done|]. by destruct v.
Qed.

(** ** The further properties on the inputs of the scenario *)

Lemma speed_db_message msg_id msg :
  get_message_by_frame_id Scenario.speed_db msg_id = Ok msg ->
  msg = Scenario.speed_message.
Proof. simpl. destruct (msg_id =? 256)%Z; [|done]. by intros [= <-]. Qed.

Lemma speed_db_decoded msg_id msg data decoded :
  get_message_by_frame_id Scenario.speed_db msg_id = Ok msg ->
  decode msg data = Ok decoded ->
  exists v, decoded = [(chars "Speed", v)].
Proof.
  intros ->%speed_db_message. simpl.
  destruct data as [|b0 [|b1 data]]; try done. intros [= <-]. eauto.
Qed.

Lemma speed_db_declared : decodes_declared Scenario.speed_db.
Proof.
  intros msg_id msg data decoded Hmsg Hdec.
  destruct (speed_db_decoded _ _ _ _ Hmsg Hdec) as [v ->].
  constructor; [|done]. exists Scenario.speed_message, {| name := chars "Speed" |}.
  repeat split; apply list_elem_of_here.
Qed.

Lemma speed_db_no_timestamp : never_decodes Scenario.speed_db Timestamp.
Proof.
  intros msg_id msg data decoded Hmsg Hdec.
  destruct (speed_db_decoded _ _ _ _ Hmsg Hdec) as [v ->].
  by constructor.
Qed.

Lemma X3_witness :
  run is_hex (chars "1A2")
  /\ int16 (lower (chars "1A2")) = int16 (chars "1A2")
  /\ int16 (chars "1a2") = int16 (chars "1A2").
Proof.
  assert (run is_hex (chars "1A2")) as H by by apply run_chars.
  split; [exact H|]. split.
  - exact (proj1 (X3_hex_ignores_case (chars "1A2") H)).
  - apply (proj2 (X3_hex_ignores_case (chars "1A2") H) (chars "1a2")).
    + by apply run_chars.
    + reflexivity.
Defined.

Lemma X4_witness :
  run is_hex (chars "100")
  /\ int16 (replicate 1 "0"%char ++ chars "100") = int16 (chars "100").
Proof.
  assert (run is_hex (chars "100")) as H by by apply run_chars.
  split; [exact H|]. exact (X4_leading_zeros 1 (chars "100") H).
Defined.

Lemma X5_witness :
  exists data,
    to_bytes [chars "64"; chars "00"] = Ok data
    /\ map byte_value data = map (digits_value 16) [chars "64"; chars "00"].
Proof.
  apply X5_bytes_of_tokens.
  - repeat (constructor; [by apply run_chars|]). constructor.
  - repeat (constructor; [vm_compute; discriminate|]). constructor.
Defined.

Lemma X6_witness :
  exists data,
    to_bytes (split_ws (payload_text (rest Scenario.data_line))) = Ok data
    /\ map byte_value data
       = map (digits_value 16)
             (split_ws (payload_text (rest Scenario.data_line))).
Proof.
  apply (proj1 (proj2 (X6_payload_tokens_are_hex (rest Scenario.data_line)))).
  vm_compute. repeat (constructor; [discriminate|]). constructor.
Defined.

Lemma X7_witness :
  decode_loop Scenario.speed_db 0 [(256%Z, chars "64 00")]
    (init_result Scenario.speed_db [Num (3 # 2)])
  = Ok (columns Cases.speed_frame)
  /\ (columns Cases.speed_frame).*1
     = (init_result Scenario.speed_db [Num (3 # 2)]).*1.
Proof.
  assert (decode_loop Scenario.speed_db 0 [(256%Z, chars "64 00")]
            (init_result Scenario.speed_db [Num (3 # 2)])
          = Ok (columns Cases.speed_frame)) as H
    by (vm_compute; reflexivity).
  split; [exact H|].
  exact (proj1 (X7_loop_keeps_the_columns _ _ _ _ _ H)).
Defined.

Lemma X8_witness :
  exists col,
    getitem (chars "Speed") (columns Cases.speed_frame) = Ok col
    /\ col !! 0 = Some (Some (Num 10)).
Proof.
  apply (proj1 (X8_decoded_values_land_in_their_row
                  Scenario.speed_db 0 256%Z (chars "64 00")
                  Scenario.speed_message [Byte.x64; Byte.x00]
                  [(chars "Speed", Num 10)]
                  (init_result Scenario.speed_db [Num (3 # 2)])
                  (columns Cases.speed_frame)
                  eq_refl eq_refl eq_refl
                  (NoDup_singleton _) eq_refl)).
  apply list_elem_of_here.
Defined.

Lemma X9_witness :
  exists idx msg_id payload,
    zip [256%Z] [chars "640 00"] !! idx = Some (msg_id, payload)
    /\ record_raises Scenario.speed_db msg_id payload ValueError.
Proof.
  apply (X9_exceptions_come_from_a_record Scenario.speed_db
           {| timestamps := [Num (3 # 2)];
              message_ids := [256%Z];
              message_payloads := [chars "640 00"] |} ValueError).
  - exact speed_db_declared.
  - simpl. lia.
  - vm_compute. reflexivity.
Defined.

Lemma X10_witness :
  decode_can (fun db : Database => Ok db) Scenario.speed_db
             Scenario.empty_trace
  = Ok {| rows := 0; columns := [] |}.
Proof.
  apply (X10_nothing_matches Database (fun db : Database => Ok db)
           Scenario.speed_db Scenario.empty_trace Scenario.speed_db
           Cases.staged).
  - reflexivity.
  - vm_compute. lia.
  - intros l Hl. vm_compute in Hl.
    repeat (destruct Hl as [<-|Hl]; [vm_compute; reflexivity|]).
    destruct Hl.
Defined.

Lemma X11_witness :
  decode_can (fun db : Database => Ok db) Scenario.speed_db
             Cases.only_unknown_trace
  = Ok {| rows := 1; columns := [(Timestamp, [Some (Num (5 # 2))])] |}.
Proof.
  apply (X11_only_unknown_ids Database (fun db : Database => Ok db)
           Scenario.speed_db Cases.only_unknown_trace Scenario.speed_db
           (take 10 (file_lines Cases.only_unknown_trace))
           {| timestamps := [Num (5 # 2)];
              message_ids := [512%Z];
              message_payloads := [chars "01"] |}
           Cases.staged).
  - reflexivity.
  - vm_compute. reflexivity.
  - vm_compute. reflexivity.
  - discriminate.
  - constructor; [reflexivity|constructor].
Defined.

Lemma X13_witness :
  decode_and_plot (fun db : Database => Ok db) Cases.staged
  = Ok (Graphs [{| title := chars "Speed";
                   x := [Some (Num (3 # 2))];
                   y := [Some (Num 10)] |}],
        false, to_csv Cases.speed_frame Cases.staged).
Proof.
  apply (X13_one_chart_per_signal_column Database
           (fun db : Database => Ok db)
           Scenario.speed_db Scenario.trace Cases.speed_frame
           [Some (Num (3 # 2))] Cases.staged).
  - reflexivity.
  - reflexivity.
  - vm_compute. reflexivity.
  - discriminate.
  - simpl. lia.
  - reflexivity.
Defined.

Lemma X12_witness :
  decoded_csv_path (to_csv Cases.speed_frame Cases.staged)
  = Some Cases.speed_frame
  /\ dbc_tmp_path (to_csv Cases.speed_frame Cases.staged)
     = dbc_tmp_path Cases.staged.
Proof.
  split; [reflexivity|].
  apply (X12_download_enabled_only_with_charts Database
           (fun db : Database => Ok db) Cases.staged
           (Graphs [{| title := chars "Speed";
                       x := [Some (Num (3 # 2))];
                       y := [Some (Num 10)] |}])
           false (to_csv Cases.speed_frame Cases.staged)).
  vm_compute. reflexivity.
Defined.

Lemma X14_witness :
  exists dbc trc df,
    dbc_tmp_path Cases.staged = Some dbc
    /\ trc_tmp_path Cases.staged = Some trc
    /\ decode_can (fun db : Database => Ok db) dbc trc = Ok df
    /\ download_csv (to_csv Cases.speed_frame Cases.staged) = send_file df.
Proof.
  apply (proj1 (X14_download_after_decode Database
                  (fun db : Database => Ok db) Cases.staged
                  (Graphs [{| title := chars "Speed";
                              x := [Some (Num (3 # 2))];
                              y := [Some (Num 10)] |}])
                  false (to_csv Cases.speed_frame Cases.staged)
                  ltac:(vm_compute; reflexivity))).
  reflexivity.
Defined.

Lemma X15_witness :
  content_string (chars "data:application/octet-stream;base64,QQ==")
  = Ok (chars "QQ==").
Proof.
  apply (proj1 (X15_content_after_the_comma
                  (chars "data:application/octet-stream;base64")
                  (chars "QQ==")
                  ltac:(vm_compute; intuition discriminate)
                  ltac:(vm_compute; intuition discriminate))).
Defined.

Lemma X16_witness :
  latest_trc
    (save_files base64.b64decode
       (Some (chars "data:application/octet-stream;base64,QQ=="))
       (Some (chars "car.dbc")) (Some (chars "data:;base64,Qg==")) None
       {| latest_dbc := None; latest_trc := Some [Byte.x01] |}).2
  = Some [Byte.x01].
Proof.
  apply (proj2 (X16_incomplete_upload_is_ignored base64.b64decode
                  (Some (chars "data:application/octet-stream;base64,QQ=="))
                  (Some (chars "car.dbc"))
                  (Some (chars "data:;base64,Qg==")) None
                  {| latest_dbc := None; latest_trc := Some [Byte.x01] |})).
  reflexivity.
Defined.

Lemma X17_witness :
  chars "DBC uploaded: car.dbc | TRC uploaded: run.trc"
  = join (chars " | ")
      ([chars "DBC uploaded: " ++ chars "car.dbc"]
       ++ [chars "TRC uploaded: " ++ chars "run.trc"]).
Proof.
  apply (proj2 (proj2
    (X17_files_written_on_return base64.b64decode
       (Some (chars "data:application/octet-stream;base64,QQ=="))
       (Some (chars "car.dbc"))
       (Some (chars "data:;base64,Qg=="))
       (Some (chars "run.trc"))
       {| latest_dbc := None; latest_trc := None |}
       (chars "DBC uploaded: car.dbc | TRC uploaded: run.trc")
       {| latest_dbc := Some [Byte.x41]; latest_trc := Some [Byte.x42] |}
       ltac:(vm_compute; reflexivity)))).
Defined.

Lemma X18_witness :
  save_files base64.b64decode
    (Some (chars "data:application/octet-stream;base64,QQ=="))
    (Some (chars "car.dbc"))
    (Some (chars "data:;base64,QQ"))
    (Some (chars "run.trc"))
    {| latest_dbc := None; latest_trc := Some [Byte.x01] |}
  = (Raise (LibraryError "binascii.Error"),
     {| latest_dbc := Some [Byte.x41]; latest_trc := Some [] |}).
Proof.
  apply (proj2 (proj2
    (X18_failed_upload base64.b64decode
       (Some (chars "data:application/octet-stream;base64,QQ=="))
       (Some (chars "car.dbc"))
       (Some (chars "data:;base64,QQ"))
       (Some (chars "run.trc"))
       {| latest_dbc := None; latest_trc := Some [Byte.x01] |}
       (LibraryError "binascii.Error"))
    eq_refl (chars "QQ==") [Byte.x41] eq_refl eq_refl eq_refl)
    (chars "QQ")).
  - reflexivity.
  - reflexivity.
Defined.

Lemma X19_witness :
  re_match pattern_v2 (text Scenario.data_line) = None
  /\ scan_line pattern_v2 (text Scenario.data_line) no_records
     = Ok no_records.
Proof.
  apply (X19_patterns_exclude_each_other V1_1 V2_0 Scenario.data_line
           no_records data_line_conforms).
  discriminate.
Defined.

Lemma X20_witness :
  decode_can (fun db : Database => Ok db) Scenario.speed_db
             Cases.unknown_version_trace
  = Ok {| rows := 0; columns := [] |}.
Proof.
  apply (X20_wrong_version_gives_no_record (fun db : Database => Ok db)
           Scenario.speed_db Cases.unknown_version_trace Scenario.speed_db
           V1_1).
  - reflexivity.
  - vm_compute. lia.
  - vm_compute. reflexivity.
  - discriminate.
  - intros l Hl.
    assert (re_match pattern_v3 l = None) as Hnone.
    { vm_compute in Hl.
      repeat (destruct Hl as [<-|Hl]; [vm_compute; reflexivity|]).
      destruct Hl. }
    right. by apply (no_match_not_conforms V2_1).
Defined.

Lemma X22_witness :
  rows Cases.speed_frame = 1
  /\ getitem Timestamp (columns Cases.speed_frame)
     = Ok [Some (Num (3 # 2))].
Proof.
  apply (X22_timestamps_in_file_order Scenario.speed_db
           {| timestamps := [Num (3 # 2)];
              message_ids := [256%Z];
              message_payloads := [chars "64 00"] |}
           Cases.speed_frame).
  - exact speed_db_no_timestamp.
  - split; [reflexivity|reflexivity|]. by repeat constructor.
  - discriminate.
  - vm_compute. reflexivity.
Defined.

Lemma X23_witness :
  exists col,
    getitem (chars "Speed") (columns Cases.speed_frame) = Ok col
    /\ col !! 0 = Some (Some (Num 10)).
Proof.
  apply (proj1 (X23_decoded_values_are_returned Scenario.speed_db
                  {| timestamps := [Num (3 # 2)];
                     message_ids := [256%Z];
                     message_payloads := [chars "64 00"] |}
                  Cases.speed_frame 0 256%Z (chars "64 00")
                  Scenario.speed_message [Byte.x64; Byte.x00]
                  [(chars "Speed", Num 10)] (chars "Speed") (Num 10)
                  ltac:(vm_compute; reflexivity) eq_refl eq_refl eq_refl
                  eq_refl (NoDup_singleton _) (list_elem_of_here _ _)
                  eq_refl)).
Defined.

Lemma X21_witness :
  getitem (chars "Speed") (init_result Scenario.speed_db [Num (3 # 2)])
  = Ok (replicate (length [Num (3 # 2)]) None).
Proof.
  apply (proj2 (proj2 (proj2
           (X21_columns_before_the_loop Scenario.speed_db [Num (3 # 2)])))).
  - exists Scenario.speed_message, {| name := chars "Speed" |}.
    repeat split; apply list_elem_of_here.
  - discriminate.
Defined.
